(** * MapacheSim: the ISA definition framework ([isa.py]) and the MIPS
    machine built on it ([mips.py]), as a shallow embedding.

    Python integers are unbounded and are modelled by [Z]; byte buffers
    ([bytes], [bytearray]) by [list byte]; [str] by [string]; dictionaries
    and object attributes by stdpp's [gmap].  Exceptions are explicit: a
    function that can raise returns a [result], and a method that mutates
    the machine object is a state transformer that hands back the machine
    as it stands when the exception leaves the method. *)

From Stdlib Require Import ZArith List String Ascii Strings.Byte Lia Bool.
From Stdlib Require Import DecimalString HexadecimalString Sorted.
From stdpp Require Import base option list gmap strings.

Local Open Scope string_scope.
Local Open Scope Z_scope.

(** ** Exceptions *)

(** Every [raise] of the framework is an [ISAError]; the sites differ by
    their message only, and the constructor records which one it was. *)
Inductive isa_error_site : Type :=
| UpperLowerBit            (* bit_select: upper_bit "…" is lower than lower_bit "…" *)
| UpperBitsNotZero         (* sign_extend: upper bits of i "…" not 0 *)
| FormatBits               (* _extract_pattern: format for "…" is … bits not … *)
| InstructionBytes         (* _pattern_match: instruction "…" is … bytes not … *)
| UnknownOperandSpecifier  (* _format_asm: Unknown operand specifier *)
| UnableToDecode.          (* decode: Unable to decode bytes as instruction *)

Inductive exn : Type :=
| ISAError (site : isa_error_site)
| ValueError       (* negative shift count *)
| IndexError       (* list index out of range *)
| AttributeError   (* missing attribute, or attribute of None *)
| KeyError         (* missing dictionary key *)
| TypeError        (* operation on a value of the wrong type *)
| AssertionError.  (* failed assert *)

Inductive result (A : Type) : Type :=
| Ok (a : A)
| Raise (e : exn).
Arguments Ok {A} a.
Arguments Raise {A} e.

Definition rbind {A B} (r : result A) (k : A -> result B) : result B :=
  match r with
  | Ok a => k a
  | Raise e => Raise e
  end.

Declare Scope result_scope.
Delimit Scope result_scope with result.
Notation "'let?' x ':=' r 'in' k" := (rbind r (fun x => k))
  (at level 10, x name, r at level 200, k at level 200,
   format "'[v' 'let?'  x  ':='  r  'in' '/' k ']'") : result_scope.

(** ** Bit utilities *)

(** [a << n] on Python integers: a negative shift count is a ValueError. *)
Definition py_lshift (a n : Z) : result Z :=
  if n <? 0 then Raise ValueError else Ok (Z.shiftl a n).

Definition py_rshift (a n : Z) : result Z :=
  if n <? 0 then Raise ValueError else Ok (Z.shiftr a n).

(** [def mask(n): return (1<<n)-1] *)
Definition mask (n : Z) : result Z :=
  (let? p := py_lshift 1 n in Ok (p - 1))%result.

(** [def bit_select(value, upper_bit, lower_bit, shift=False)] *)
Definition bit_select (value upper_bit lower_bit : Z) (shift : bool) : result Z :=
  if upper_bit <? lower_bit then Raise (ISAError UpperLowerBit)
  else
    (let? mu := mask (upper_bit + 1) in
     let? ml := mask lower_bit in
     let smask := Z.land mu (Z.lnot ml) in
     let shamt := if shift then lower_bit else 0 in
     py_rshift (Z.land value smask) shamt)%result.

(** [def sign_extend(i, bits)] *)
Definition sign_extend (i bits : Z) : result Z :=
  (let? m := mask bits in
   let upper_mask := Z.lnot m in
   if negb (Z.land i upper_mask =? 0) then Raise (ISAError UpperBitsNotZero)
   else
     let? top := py_lshift 1 (bits - 1) in
     if Z.land i top =? 0 then Ok i
     else Ok (Z.lor i upper_mask))%result.

(** ** Strings *)

(** [str(n)] and [hex(n)] for a Python integer. *)
Definition py_str (n : Z) : string :=
  DecimalString.NilZero.string_of_int (Z.to_int n).

Definition py_hex (n : Z) : string :=
  match n with
  | Zneg p => "-0x" +:+ HexadecimalString.NilZero.string_of_uint (Pos.to_hex_uint p)
  | _ => "0x" +:+ HexadecimalString.NilZero.string_of_uint (N.to_hex_uint (Z.to_N n))
  end.

(** [s.replace(old, new)] for one-character [old]. *)
Fixpoint replace_char (old : ascii) (new : string) (s : string) : string :=
  match s with
  | EmptyString => EmptyString
  | String c r =>
      if Ascii.eqb c old then new +:+ replace_char old new r
      else String c (replace_char old new r)
  end.

(** [s.split(sep)] for a one-character separator: never an empty list. *)
Fixpoint split_char (sep : ascii) (s : string) : string * list string :=
  match s with
  | EmptyString => (EmptyString, [])
  | String c r =>
      let '(h, t) := split_char sep r in
      if Ascii.eqb c sep then (EmptyString, h :: t) else (String c h, t)
  end.

Definition py_split_on (sep : ascii) (s : string) : list string :=
  let '(h, t) := split_char sep s in h :: t.

(** [l[i]] on a list. *)
Definition py_index {A} (l : list A) (i : nat) : result A :=
  match l !! i with
  | Some a => Ok a
  | None => Raise IndexError
  end.

(** The characters [str.isspace] accepts, among the first 256 code points. *)
Definition isspace (c : ascii) : bool :=
  let n := nat_of_ascii c in
  ((9 <=? n) && (n <=? 13) || (28 <=? n) && (n <=? 32)
   || (n =? 133) || (n =? 160))%nat.

(** [s.split()]: the maximal runs of non-whitespace characters. *)
Fixpoint split_ws (cur : string) (s : string) : list string :=
  match s with
  | EmptyString => if String.eqb cur "" then [] else [cur]
  | String c r =>
      if isspace c then
        if String.eqb cur "" then split_ws "" r else cur :: split_ws "" r
      else split_ws (cur +:+ String c "") r
  end.

Definition py_split (s : string) : list string := split_ws "" s.

(** [s.strip()] *)
Fixpoint lstrip (s : string) : string :=
  match s with
  | EmptyString => EmptyString
  | String c r => if isspace c then lstrip r else s
  end.

Fixpoint rstrip (s : string) : string :=
  match s with
  | EmptyString => EmptyString
  | String c r =>
      match rstrip r with
      | EmptyString => if isspace c then EmptyString else String c EmptyString
      | r' => String c r'
      end
  end.

Definition strip (s : string) : string := rstrip (lstrip s).

(** [s.startswith(p)] is [String.prefix p s]; [s[1:]] drops one character. *)
Definition startswith (s p : string) : bool := String.prefix p s.

Definition tail_from_1 (s : string) : string :=
  match s with
  | EmptyString => EmptyString
  | String _ r => r
  end.

(** ** The machine object *)

(** The values a register attribute holds: an integer for a scalar
    register, a dictionary from index to integer for a register file. *)
Inductive value : Type :=
| VInt (n : Z)
| VDict (d : gmap Z Z).

(** The entries of [self._reg_list]:
    [('reg', name, bits, None, None)] and [('file', name, bits, size, rnames)]. *)
Inductive reg_entry : Type :=
| RegEntry (name : string) (bits : Z)
| FileEntry (name : string) (bits : Z) (size : Z) (rnames : gmap Z string).

(** The mutable part of [self]: the attributes made by [setattr] in
    [make_register] and [make_register_file], the register list, and the
    memory ([None] until [mem_map]). *)
Record machine : Type := {
  attrs : gmap string value;
  _reg_list : list reg_entry;
  _mem : option (list byte);
}.

(** A method of the machine: it may mutate the machine and it may raise;
    when it raises, the machine is handed back as the exception found it. *)
Definition M (A : Type) : Type := machine -> result A * machine.

Definition ret {A} (a : A) : M A := fun m => (Ok a, m).

Definition throw {A} (e : exn) : M A := fun m => (Raise e, m).

Definition bind {A B} (c : M A) (k : A -> M B) : M B :=
  fun m =>
    match c m with
    | (Ok a, m') => k a m'
    | (Raise e, m') => (Raise e, m')
    end.

Definition lift {A} (r : result A) : M A := fun m => (r, m).

Declare Scope machine_scope.
Delimit Scope machine_scope with machine.
Notation "'let!' x ':=' c 'in' k" := (bind c (fun x => k))
  (at level 10, x name, c at level 200, k at level 200,
   format "'[v' 'let!'  x  ':='  c  'in' '/' k ']'") : machine_scope.
Notation "'do!' c 'in' k" := (bind c (fun _ => k))
  (at level 10, c at level 200, k at level 200,
   format "'[v' 'do!'  c  'in' '/' k ']'") : machine_scope.

(** [getattr(self, name)] and [setattr(self, name, v)] *)
Definition getattr (m : machine) (name : string) : result value :=
  match attrs m !! name with
  | Some v => Ok v
  | None => Raise AttributeError
  end.

Definition setattr (name : string) (v : value) : M unit :=
  fun m => (Ok tt, {| attrs := <[name := v]> (attrs m);
                      _reg_list := _reg_list m;
                      _mem := _mem m |}).

(** A value used as an integer operand. *)
Definition as_int (v : value) : result Z :=
  match v with
  | VInt n => Ok n
  | VDict _ => Raise TypeError
  end.

(** [v[i]] *)
Definition subscript (v : value) (i : Z) : result Z :=
  match v with
  | VInt _ => Raise TypeError
  | VDict d => match d !! i with Some x => Ok x | None => Raise KeyError end
  end.

(** [self.name] read as an integer, [self.name[i]], and [self.name[i] = x]. *)
Definition get_int (name : string) : M Z :=
  fun m => ((let? v := getattr m name in as_int v)%result, m).

Definition get_item (name : string) (i : Z) : M Z :=
  fun m => ((let? v := getattr m name in subscript v i)%result, m).

Definition set_item (name : string) (i x : Z) : M unit :=
  fun m =>
    match getattr m name with
    | Raise e => (Raise e, m)
    | Ok (VInt _) => (Raise TypeError, m)
    | Ok (VDict d) => setattr name (VDict (<[i := x]> d)) m
    end.

(** [range(n)] *)
Definition py_range (n : Z) : list Z := Z.of_nat <$> seq 0 (Z.to_nat n).

(** [{x: f(x) for x in range(size)}] *)
Definition dict_of_range {A} (size : Z) (f : Z -> A) : gmap Z A :=
  list_to_map ((fun x => (x, f x)) <$> py_range size).

(** [def make_register(self, name, bits=32)], for a [name] the object does
    not use for itself.  [setattr(self, name, 0)] writes the namespace of
    the object, which also holds [_reg_list], [_mem], [_ifuncs], [endian],
    [isize] and, through the class, the methods; this record keeps those
    apart from [attrs].  Under such a name the call would replace that
    attribute (with [name = '_reg_list'] the append then raises
    AttributeError; with [name = 'registers'] the method is shadowed), so
    the definition stands for the call only at the other names:
    [object_attribute] below lists the excluded ones, and the statements
    about declared registers assume it is false of every declared name. *)
Definition make_register (name : string) (bits : Z) (m : machine) : machine :=
  {| attrs := <[name := VInt 0]> (attrs m);
     _reg_list := (_reg_list m ++ [RegEntry name bits])%list;
     _mem := _mem m |}.

(** [def make_register_file(self, name, size, bits=32, rnames=None)], for
    a [name] the object does not use for itself, as for [make_register]. *)
Definition make_register_file (name : string) (size bits : Z)
    (rnames : option (gmap Z string)) (m : machine) : machine :=
  let rnames' :=
    match rnames with
    | None => dict_of_range size (fun x => "$" +:+ name +:+ py_str x)
    | Some r => r
    end in
  {| attrs := <[name := VDict (dict_of_range size (fun _ => 0))]> (attrs m);
     _reg_list := (_reg_list m ++ [FileEntry name bits size rnames'])%list;
     _mem := _mem m |}.

(** [rmapM f l]: run [f] over [l] left to right, stopping at the first raise. *)
Fixpoint rmapM {A B} (f : A -> result B) (l : list A) : result (list B) :=
  match l with
  | [] => Ok []
  | a :: l' =>
      (let? b := f a in
       let? bs := rmapM f l' in
       Ok (b :: bs))%result
  end.

(** [def registers(self)]: the triples the generator yields, in order; the
    result is the exception when the iteration raises before its end. *)
Definition registers_of_entry (m : machine) (e : reg_entry)
    : result (list (string * Z * value)) :=
  match e with
  | RegEntry name bits =>
      (let? v := getattr m name in Ok [(name, bits, v)])%result
  | FileEntry name bits size rnames =>
      rmapM (fun i =>
               (let? dname :=
                  match rnames !! i with Some s => Ok s | None => Raise KeyError end in
                let? file := getattr m name in
                let? v := subscript file i in
                Ok (dname, bits, VInt v))%result)
            (py_range size)
  end.

Definition registers (m : machine) : result (list (string * Z * value)) :=
  (let? ls := rmapM (registers_of_entry m) (_reg_list m) in Ok (concat ls))%result.

(** [def mem_map(self, start_address, size)]: [bytearray(size)], whatever
    [start_address] is; a negative size is a ValueError. *)
Definition mem_map (start_address size : Z) : M unit :=
  fun m =>
    if size <? 0 then (Raise ValueError, m)
    else (Ok tt, {| attrs := attrs m; _reg_list := _reg_list m;
                    _mem := Some (replicate (Z.to_nat size) x00) |}).

(** [buf[a:b]]: indices below zero count from the end, and both ends are
    clipped to the buffer. *)
Definition py_slice {A} (l : list A) (a b : Z) : list A :=
  let n := Z.of_nat (length l) in
  let clip x := if x <? 0 then Z.max (x + n) 0 else Z.min x n in
  take (Z.to_nat (clip b - clip a)) (drop (Z.to_nat (clip a)) l).

(** [def mem_read(self, start_addr, size)] *)
Definition mem_read (m : machine) (start_addr size : Z) : result (list byte) :=
  match _mem m with
  | None => Raise TypeError
  | Some buf => Ok (py_slice buf start_addr (start_addr + size))
  end.

(** [def mem_write(self, start_addr, data)]: slice assignment replaces the
    clipped range by [data], whatever their lengths. *)
Definition mem_write (start_addr : Z) (data : list byte) : M unit :=
  fun m =>
    match _mem m with
    | None => (Raise TypeError, m)
    | Some buf =>
        let n := Z.of_nat (length buf) in
        let clip x := if x <? 0 then Z.max (x + n) 0 else Z.min x n in
        let a := clip start_addr in
        let b := Z.max a (clip (start_addr + Z.of_nat (length data))) in
        (Ok tt, {| attrs := attrs m; _reg_list := _reg_list m;
                   _mem := Some (take (Z.to_nat a) buf ++ data
                                   ++ drop (Z.to_nat b) buf)%list |})
    end.

(** ** Instruction methods and the ISA object *)

(** The field set handed to an instruction: the [SimpleNamespace] made of
    the [fields] dictionary, read by [getattr(ifield, name)]. *)
Abbreviation namespace := (gmap string Z).

Definition field (ifield : namespace) (name : string) : result Z :=
  match ifield !! name with
  | Some v => Ok v
  | None => Raise AttributeError
  end.

(** A method of an ISA class: its name in the class namespace, its
    docstring ([None] when it has none) and its body. *)
Record method : Type := {
  __name__ : string;
  __doc__ : option string;
  call : namespace -> M unit;
}.

(** An ISA class: the methods of its body in the order the source declares
    them, and [finalize_execution] when the class defines that hook. *)
Record pyclass : Type := {
  methods : list method;
  finalize_hook : option (method * namespace -> M unit);
}.

Inductive endianness : Type := big | little.

(** The part of [self] that stays as [__init__] left it: the catalog, the
    byte order, the instruction width in bytes and the hook found by
    [hasattr(self, 'finalize_execution')]. *)
Record IsaDefinition : Type := {
  _ifuncs : list method;
  endian : endianness;
  isize : nat;
  finalize_execution : option (method * namespace -> M unit);
}.

(** [dir(self)]: the names of the namespace, each once, sorted.  Names
    inherited from [IsaDefinition] itself never start with [instruction_],
    so only the names of the class body are listed. *)
Fixpoint insert_name (n : string) (l : list string) : list string :=
  match l with
  | [] => [n]
  | x :: r =>
      match String.compare n x with
      | Lt => n :: l
      | Eq => l
      | Gt => x :: insert_name n r
      end
  end.

Definition dir (cls : pyclass) : list string :=
  fold_left (fun acc f => insert_name (__name__ f) acc) (methods cls) [].

(** [getattr(self, name)] for a method: a later [def] of the same name
    replaces an earlier one. *)
Definition class_getattr (cls : pyclass) (name : string) : option method :=
  List.find (fun f => String.eqb (__name__ f) name) (rev (methods cls)).

(** [IsaDefinition.__init__]:
    [self._ifuncs = [getattr(self,f) for f in dir(self) if f.startswith('instruction_')]] *)
Definition IsaDefinition__init__ (cls : pyclass) : result (IsaDefinition * machine) :=
  Ok ({| _ifuncs :=
           omap (class_getattr cls)
                (List.filter (fun f => startswith f "instruction_") (dir cls));
         endian := big;
         isize := 4;
         finalize_execution := finalize_hook cls |},
      {| attrs := ∅; _reg_list := []; _mem := None |}).

(** ** Pattern decode *)

(** [def _extract_pattern(self, func)] *)
Definition _extract_pattern (self : IsaDefinition) (func : method) : result string :=
  match __doc__ func with
  | None => Raise AttributeError
  | Some docstring =>
      (let? clean_format :=
         py_index (py_split_on ":" (replace_char " " "" docstring)) 1 in
       if negb (String.length clean_format =? isize self * 8)%nat
       then Raise (ISAError FormatBits)
       else Ok clean_format)%result
  end.

(** [int.from_bytes(instr, endian)] *)
Definition from_bytes (e : endianness) (instr : list byte) : Z :=
  let be := fold_left (fun acc b => Z.lor (Z.shiftl acc 8) (Z.of_N (Byte.to_N b))) in
  match e with
  | big => be instr 0
  | little => be (rev instr) 0
  end.

(** [[(n >> (s-1)) & 0x1 for s in range(width, 0, -1)]] *)
Definition bits_of (n : Z) (width : nat) : list Z :=
  (fun s => Z.land (Z.shiftr n (Z.of_nat s - 1)) 1) <$> rev (seq 1 width).

(** The loop of [_pattern_match] over [zip(pattern, instr_as_list_of_bits)];
    [fields] is a [defaultdict(int)], so a missing key reads as 0. *)
Fixpoint match_bits (pattern : string) (bits : list Z) (fields : namespace)
    : option namespace :=
  match pattern, bits with
  | String bpattern pattern', bit :: bits' =>
      if Ascii.eqb bpattern "0" && (bit =? 1) then None
      else if Ascii.eqb bpattern "1" && (bit =? 0) then None
      else
        let k := String bpattern EmptyString in
        match_bits pattern' bits'
          (<[k := Z.lor (Z.shiftl (default 0 (fields !! k)) 1) bit]> fields)
  | _, _ => Some fields
  end.

(** [def _pattern_match(self, ifunc, instr)] *)
Definition _pattern_match (self : IsaDefinition) (ifunc : method) (instr : list byte)
    : result (option namespace) :=
  if negb (length instr =? isize self)%nat then Raise (ISAError InstructionBytes)
  else
    (let? pattern := _extract_pattern self ifunc in
     let instr_as_integer := from_bytes (endian self) instr in
     let instr_as_list_of_bits := bits_of instr_as_integer (isize self * 8) in
     Ok (match_bits pattern instr_as_list_of_bits ∅))%result.

(** [def decode(self, instr)]: the loop over [self._ifuncs]. *)
Fixpoint decode_loop (self : IsaDefinition) (ifuncs : list method) (instr : list byte)
    : result (method * namespace) :=
  match ifuncs with
  | [] => Raise (ISAError UnableToDecode)
  | ifunc :: rest =>
      (let? r := _pattern_match self ifunc instr in
       match r with
       | Some ifield => Ok (ifunc, ifield)
       | None => decode_loop self rest instr
       end)%result
  end.

Definition decode (self : IsaDefinition) (instr : list byte) : result (method * namespace) :=
  decode_loop self (_ifuncs self) instr.

(** ** Disassembly *)

(** [def _extract_asm(self, ifunction)] *)
Definition _extract_asm (ifunction : method) : result string :=
  match __doc__ ifunction with
  | None => Raise AttributeError
  | Some docstring =>
      (let? asm_pattern := py_index (py_split_on ":" docstring) 2 in
       let clean_pattern := strip (replace_char "," " " asm_pattern) in
       Ok (String.concat " " (py_split clean_pattern)))%result
  end.

(** The inner [operand_field(part, indicator)] of [_format_asm]. *)
Definition operand_field (ifield : namespace) (part : string) : result Z :=
  let fchar := tail_from_1 part in
  if negb (String.length fchar =? 1)%nat then Raise AssertionError
  else field ifield fchar.

(** One turn of the loop of [_format_asm]: the token appended for [part]
    at position [i]. *)
Definition format_part (ifield : namespace) (i : nat) (part : string) : result string :=
  if (i =? 0)%nat then Ok part
  else if startswith part "$" then
    (let? rnum := operand_field ifield part in Ok ("$" +:+ py_str rnum))%result
  else if startswith part "@" then
    (let? addr := operand_field ifield part in
     let? shifted := py_lshift addr 2 in
     Ok (py_hex shifted))%result
  else if startswith part "!" then
    (let? immed := operand_field ifield part in Ok (py_hex immed))%result
  else Raise (ISAError UnknownOperandSpecifier).

Fixpoint format_parts (ifield : namespace) (i : nat) (parts : list string)
    : result (list string) :=
  match parts with
  | [] => Ok []
  | part :: rest =>
      (let? tok := format_part ifield i part in
       let? toks := format_parts ifield (S i) rest in
       Ok (tok :: toks))%result
  end.

(** [def _format_asm(self, asm_pattern, ifield)] *)
Definition _format_asm (asm_pattern : string) (ifield : namespace) : result string :=
  (let? instruction := format_parts ifield 0 (py_split asm_pattern) in
   Ok (String.concat " " instruction))%result.

(** [def istring(self, decoded_instr)] *)
Definition istring (decoded_instr : method * namespace) : result string :=
  let '(ifunction, ifield) := decoded_instr in
  (let? asm_pattern := _extract_asm ifunction in
   _format_asm asm_pattern ifield)%result.

(** ** The step loop *)

(** [def fetch(self)]: [self.mem_read(self.PC, self.isize)]; the slice
    bounds must be integers. *)
Definition fetch (self : IsaDefinition) : M (list byte) :=
  fun m =>
    ((let? pc_val := getattr m "PC" in
      let? pc := as_int pc_val in
      mem_read m pc (Z.of_nat (isize self)))%result, m).

(** [def execute(self, decoded_instr)] *)
Definition execute (decoded_instr : method * namespace) : M unit :=
  let '(ifunction, ifield) := decoded_instr in call ifunction ifield.

(** [def step(self)] *)
Definition step (self : IsaDefinition) : M string :=
  (let! instr_mem := fetch self in
   let! decoded_instr := lift (decode self instr_mem) in
   do! execute decoded_instr in
   do! match finalize_execution self with
       | Some hook => hook decoded_instr
       | None => ret tt
       end in
   lift (istring decoded_instr))%machine.

(** [self.name] as an expression inside a method. *)
Definition self_attr (name : string) : M value :=
  fun m => (getattr m name, m).

(** ** The MIPS machine ([mips.py]) *)

Section Mips.

(** [from helpers import sign_extend, bit_select]: the module [helpers]
    is not part of the sources, so the two functions are parameters
    ([helpers_bit_select] is called with three arguments only). *)
Variable helpers_sign_extend : Z -> Z -> result Z.
Variable helpers_bit_select : Z -> Z -> Z -> result Z.

Definition mips_rnames : gmap Z string :=
  list_to_map
    [(0, "$0");    (1, "$at");   (2, "$v0");   (3, "$v1");
     (4, "$a0");   (5, "$a1");   (6, "$a2");   (7, "$a3");
     (8, "$t0");   (9, "$t1");   (10, "$t2");  (11, "$t3");
     (12, "$t4");  (13, "$t5");  (14, "$t6");  (15, "$t7");
     (16, "$s0");  (17, "$s1");  (18, "$s2");  (19, "$s3");
     (20, "$s4");  (21, "$s5");  (22, "$s6");  (23, "$s7");
     (24, "$t8");  (25, "$t9");  (26, "$k0");  (27, "$k1");
     (28, "$gp");  (29, "$sp");  (30, "$fp");  (31, "$ra")].

Definition instruction_j : method :=
  {| __name__ := "instruction_j";
     __doc__ := Some "jump: 000010 aaaaaaaaaaaaaaaaaaaaaaaaaa : j @a";
     call := fun ifield =>
       (let! pc := get_int "PC" in
        let! upper_bits := lift (helpers_bit_select (pc + 4) 31 28) in
        let! a := lift (field ifield "a") in
        let! target := lift (py_lshift a 2) in
        setattr "PC" (VInt (upper_bits + target)))%machine |}.

Definition instruction_add : method :=
  {| __name__ := "instruction_add";
     __doc__ := Some "add : 000000 sssss ttttt ddddd xxxxx 100000: addi $d $s $t";
     call := fun ifield =>
       (let! r1 := self_attr "R" in
        let! s := lift (field ifield "s") in
        let! x := lift (subscript r1 s) in
        let! r2 := self_attr "R" in
        let! t := lift (field ifield "t") in
        let! y := lift (subscript r2 t) in
        let! d := lift (field ifield "d") in
        set_item "R" d (x + y))%machine |}.

Definition instruction_addi : method :=
  {| __name__ := "instruction_addi";
     __doc__ := Some "add immediate : 001000 sssss ttttt iiiiiiiiiiiiiiii : addi $t $s !i";
     call := fun ifield =>
       (let! r1 := self_attr "R" in
        let! s := lift (field ifield "s") in
        let! x := lift (subscript r1 s) in
        let! i := lift (field ifield "i") in
        let! y := lift (helpers_sign_extend i 16) in
        let! t := lift (field ifield "t") in
        set_item "R" t (x + y))%machine |}.

Definition instruction_nop : method :=
  {| __name__ := "instruction_nop";
     __doc__ := Some "nop : 000000 00000 00000 00000 00000 000000 : nop";
     call := fun _ => ret tt |}.

(** [self.jumps = set([self.instruction_j])]: within one object a bound
    method is identified by its name. *)
Definition jumps : list string := ["instruction_j"].

Definition in_jumps (ifunction : method) : bool :=
  existsb (String.eqb (__name__ ifunction)) jumps.

(** [def finalize_execution(self, decoded_instr)] *)
Definition Mips_finalize_execution (decoded_instr : method * namespace) : M unit :=
  let '(ifunction, ifields) := decoded_instr in
  (do! set_item "R" 0 0 in
   if negb (in_jumps ifunction) then
     let! pc := get_int "PC" in
     setattr "PC" (VInt (pc + 4))
   else ret tt)%machine.

(** [class Mips(IsaDefinition)], methods in the order of the source. *)
Definition Mips_class : pyclass :=
  {| methods := [instruction_j; instruction_add; instruction_addi; instruction_nop];
     finalize_hook := Some Mips_finalize_execution |}.

(** [Mips.__init__] *)
Definition Mips__init__ : result (IsaDefinition * machine) :=
  (let? sm := IsaDefinition__init__ Mips_class in
   let '(self, m) := sm in
   let m := make_register_file "R" 32 32 (Some mips_rnames) m in
   let m := make_register "PC" 32 m in
   let m := make_register "HI" 32 m in
   let m := make_register "LO" 32 m in
   Ok ({| _ifuncs := _ifuncs self;
          endian := big;
          isize := isize self;
          finalize_execution := finalize_execution self |}, m))%result.

End Mips.

(** The machine with the two helpers bound to the functions of the same
    names that [isa.py] defines. *)
Definition Mips_new : result (IsaDefinition * machine) :=
  Mips__init__ sign_extend (fun v u l => bit_select v u l false).

(** ** Reference definitions for the statements below *)

(** The bits found where the template has the character [c], in scan
    order (most significant first). *)
Fixpoint select_bits (c : ascii) (pattern : string) (bits : list Z) : list Z :=
  match pattern, bits with
  | String p pattern', b :: bits' =>
      if Ascii.eqb p c then b :: select_bits c pattern' bits'
      else select_bits c pattern' bits'
  | _, _ => []
  end.

(** The number read off a bit sequence, each bit becoming the new least
    significant one. *)
Definition msb_value (bits : list Z) : Z :=
  fold_left (fun acc b => 2 * acc + b) bits 0.

(** Every literal ['0'] or ['1'] of the template equals the bit below it. *)
Fixpoint literals_match (pattern : string) (bits : list Z) : bool :=
  match pattern, bits with
  | String p pattern', b :: bits' =>
      (if Ascii.eqb p "0" then b =? 0
       else if Ascii.eqb p "1" then b =? 1
       else true) && literals_match pattern' bits'
  | _, _ => true
  end.

(** How often, and whether, a character occurs in a template. *)
Fixpoint count_char (c : ascii) (pattern : string) : nat :=
  match pattern with
  | EmptyString => 0
  | String p pattern' => (if Ascii.eqb p c then 1 else 0) + count_char c pattern'
  end.

Definition occurs (c : ascii) (pattern : string) : bool :=
  negb (count_char c pattern =? 0)%nat.

(** The bit sequence [_pattern_match] scans for the buffer [instr]. *)
Definition instr_bits (self : IsaDefinition) (instr : list byte) : list Z :=
  bits_of (from_bytes (endian self) instr) (isize self * 8).

(** A bit of the scanned sequence. *)
Definition is_bit (b : Z) : Prop := b = 0 \/ b = 1.

(** What a scan leaves under the key [k] when it started from [fields] and
    selected the bits [sel] for it: the selected bits pushed onto the value
    the dictionary held (0 when it held none). *)
Definition scanned (fields : namespace) (k : string) (sel : list Z) : option Z :=
  match sel with
  | [] => fields !! k
  | _ => Some (fold_left (fun acc b => 2 * acc + b) sel (default 0 (fields !! k)))
  end.

(** The order of [dir]: [str] comparison, code point by code point. *)
Definition name_lt (a b : string) : Prop := String.compare a b = Lt.

(** The name of the method [decode] returns. *)
Definition decode_name (self : IsaDefinition) (instr : list byte) : result string :=
  (let? d := decode self instr in Ok (__name__ (fst d)))%result.

(** Whether the literal bits of an entry match a buffer. *)
Definition matches (self : IsaDefinition) (ifunc : method) (instr : list byte) : bool :=
  match _pattern_match self ifunc instr with
  | Ok (Some _) => true
  | _ => false
  end.

(** The reading of "declaration order is the match priority": the first
    instruction method of the class body, in source order, whose literal
    bits match. *)
Definition first_declared_match (self : IsaDefinition) (cls : pyclass)
    (instr : list byte) : option string :=
  __name__ <$>
    List.find (fun f => startswith (__name__ f) "instruction_" && matches self f instr)
              (methods cls).

(** A catch-all entry for the register-format opcode, and a class that
    declares [instruction_nop] before it. *)
Definition instruction_alu : method :=
  {| __name__ := "instruction_alu";
     __doc__ := Some "alu : 000000 sssss ttttt ddddd hhhhh ffffff : alu $d $s $t";
     call := fun _ => ret tt |}.

Definition nop_first_class : pyclass :=
  {| methods := [instruction_nop; instruction_alu];
     finalize_hook := None |}.

(** A class whose only template is one character short (15 [i]s). *)
Definition short_template_class : pyclass :=
  {| methods :=
       [ {| __name__ := "instruction_addi";
            __doc__ := Some "add immediate : 001000 sssss ttttt iiiiiiiiiiiiiii : addi $t $s !i";
            call := fun _ => ret tt |} ];
     finalize_hook := None |}.

(** [IsaDefinition] itself: a class body without instruction methods. *)
Definition bare_class : pyclass :=
  {| methods := []; finalize_hook := None |}.

(** What [step] runs once [decode] has returned: execute, the optional
    hook, then the disassembly. *)
Definition after_decode (self : IsaDefinition) (decoded_instr : method * namespace)
    : M string :=
  (do! execute decoded_instr in
   do! match finalize_execution self with
       | Some hook => hook decoded_instr
       | None => ret tt
       end in
   lift (istring decoded_instr))%machine.

(** The entry [i] of the register file [name], when the machine has it. *)
Definition file_entry (m : machine) (name : string) (i : Z) : option Z :=
  match attrs m !! name with
  | Some (VDict d) => d !! i
  | _ => None
  end.

(** An instruction that writes a register and whose disassembly template
    ends in the bare token [i]. *)
Definition instruction_li : method :=
  {| __name__ := "instruction_li";
     __doc__ := Some "load immediate : 001111 00000 ttttt iiiiiiiiiiiiiiii : li $t, i";
     call := fun ifield =>
       (let! i := lift (field ifield "i") in
        let! t := lift (field ifield "t") in
        set_item "R" t i)%machine |}.

Definition li_class : pyclass :=
  {| methods := [instruction_li]; finalize_hook := None |}.

(** [li_class] after construction: 32 registers, a program counter at 0,
    and 16 bytes of memory holding [li $8, 5] at address 0. *)
Definition li_machine : result (IsaDefinition * machine) :=
  (let? sm := IsaDefinition__init__ li_class in
   let '(self, m) := sm in
   let m := make_register_file "R" 32 32 None m in
   let m := make_register "PC" 32 m in
   let m := snd (mem_map 0 16 m) in
   let m := snd (mem_write 0 [x3c; x08; x00; x05] m) in
   Ok (self, m))%result.

(** The MIPS machine of [Mips_new] with 16 bytes of memory mapped and
    [addi $8, $8, 4] stored at address 0. *)
Definition Mips_loaded : result (IsaDefinition * machine) :=
  (let? sm := Mips_new in
   let '(self, m) := sm in
   let m := snd (mem_map 0 16 m) in
   let m := snd (mem_write 0 [x21; x08; x00; x04] m) in
   Ok (self, m))%result.

(** ** Operand tokens of a disassembly template *)

Inductive sigil : Type := SRegister | SAddress | SImmediate.

Definition sigil_char (s : sigil) : ascii :=
  match s with
  | SRegister => "$"
  | SAddress => "@"
  | SImmediate => "!"
  end.

(** An operand reference: the sigil followed by a one-character field
    identifier. *)
Definition operand_token (s : sigil) (c : ascii) : string :=
  String (sigil_char s) (String c EmptyString).

(** The rendering of an operand whose field holds [v]. *)
Definition render (s : sigil) (v : Z) : string :=
  match s with
  | SRegister => "$" +:+ py_str v
  | SAddress => py_hex (Z.shiftl v 2)
  | SImmediate => py_hex v
  end.

(** ** Register declarations *)

(** A call of [make_register] or of [make_register_file] ([rnames] is
    [None] when the caller leaves the default). *)
Inductive decl : Type :=
| DeclRegister (name : string) (bits : Z)
| DeclFile (name : string) (size bits : Z) (rnames : option (gmap Z string)).

Definition decl_name (d : decl) : string :=
  match d with
  | DeclRegister name _ => name
  | DeclFile name _ _ _ => name
  end.

Definition declare (d : decl) (m : machine) : machine :=
  match d with
  | DeclRegister name bits => make_register name bits m
  | DeclFile name size bits rnames => make_register_file name size bits rnames m
  end.

Definition declare_all (ds : list decl) (m : machine) : machine :=
  fold_left (fun m d => declare d m) ds m.

(** The machine as [IsaDefinition.__init__] leaves it. *)
Definition new_machine : machine :=
  {| attrs := ∅; _reg_list := []; _mem := None |}.

(** The names an [IsaDefinition] object has before any register is
    declared: the attributes [__init__] assigns and the methods of the
    class ([finalize_execution] is the name [step] looks up with
    [hasattr]). *)
Definition IsaDefinition_names : list string :=
  ["_ifuncs"; "_reg_list"; "_mem"; "endian"; "isize";
   "make_register"; "make_register_file"; "registers";
   "_extract_pattern"; "_pattern_match"; "_extract_asm"; "_format_asm";
   "fetch"; "decode"; "execute"; "istring"; "step";
   "mem_map"; "mem_read"; "mem_write"; "finalize_execution"].

(** Whether an object of class [cls] uses [name] for itself: one of the
    names above, a method of the class body, or a name that starts with
    two underscores (the attributes every Python object inherits, such as
    [__class__], [__dict__] and [__init__], all do). *)
Definition object_attribute (cls : pyclass) (name : string) : bool :=
  existsb (String.eqb name) IsaDefinition_names
  || existsb (fun f => String.eqb name (__name__ f)) (methods cls)
  || startswith name "__".

(** No declared register is named like an attribute of the object. *)
Definition register_names (cls : pyclass) (ds : list decl) : bool :=
  forallb (fun d => negb (object_attribute cls (decl_name d))) ds.

(** Every supplied table of display names has a name for each index of
    its file. *)
Definition overrides_cover (ds : list decl) : bool :=
  forallb (fun d =>
             match d with
             | DeclFile _ size _ (Some r) =>
                 forallb (fun i => bool_decide (is_Some (r !! i))) (py_range size)
             | _ => true
             end) ds.

(** The machines reached from the declared one by writing registers: an
    integer into a declared scalar, or an integer into an entry of a
    declared file at an index below its size. *)
Inductive written (ds : list decl) : machine -> Prop :=
| written_declared : written ds (declare_all ds new_machine)
| written_register m name bits v :
    written ds m ->
    DeclRegister name bits ∈ ds ->
    written ds (snd (setattr name (VInt v) m))
| written_entry m name size bits rnames i v :
    written ds m ->
    DeclFile name size bits rnames ∈ ds ->
    0 <= i < size ->
    written ds (snd (set_item name i v m)).

(** The display name of entry [i] of a file: the supplied one, else
    ["$<name><index>"]. *)
Definition display_name (name : string) (rnames : option (gmap Z string)) (i : Z)
    : string :=
  match rnames with
  | Some r => default "" (r !! i)
  | None => "$" +:+ name +:+ py_str i
  end.

(** The triples of one declaration, with the values the machine holds. *)
Definition triples_of (m : machine) (d : decl) : list (string * Z * value) :=
  match d with
  | DeclRegister name bits => [(name, bits, default (VInt 0) (attrs m !! name))]
  | DeclFile name size bits rnames =>
      (fun i => (display_name name rnames i, bits,
                 VInt (default 0 (file_entry m name i)))) <$> py_range size
  end.

(** The entry a declaration appends to [_reg_list]. *)
Definition entry_of (d : decl) : reg_entry :=
  match d with
  | DeclRegister name bits => RegEntry name bits
  | DeclFile name size bits rnames =>
      FileEntry name bits size
        match rnames with
        | None => dict_of_range size (fun x => "$" +:+ name +:+ py_str x)
        | Some r => r
        end
  end.

(** The attribute a declaration creates. *)
Definition init_value (d : decl) : value :=
  match d with
  | DeclRegister _ _ => VInt 0
  | DeclFile _ size _ _ => VDict (dict_of_range size (fun _ => 0))
  end.

(** The attributes fit the declarations: a scalar holds an integer, a file
    holds a dictionary with every index below its size. *)
Definition shaped (ds : list decl) (m : machine) : Prop :=
  _reg_list m = entry_of <$> ds /\
  forall d, d ∈ ds ->
    match d with
    | DeclRegister name _ => exists v, attrs m !! name = Some (VInt v)
    | DeclFile name size _ _ =>
        exists f, attrs m !! name = Some (VDict f) /\
                  forall i, 0 <= i < size -> is_Some (f !! i)
    end.

(** What [Mips_new] returns, written out: the catalog in the order of
    [dir], and the registers in the order of their declarations. *)
Definition Mips_isa : IsaDefinition :=
  {| _ifuncs := [instruction_add; instruction_addi sign_extend;
                 instruction_j (fun v u l => bit_select v u l false);
                 instruction_nop];
     endian := big;
     isize := 4;
     finalize_execution := Some Mips_finalize_execution |}.

Definition Mips_registers : machine :=
  declare_all [DeclFile "R" 32 32 (Some mips_rnames); DeclRegister "PC" 32;
               DeclRegister "HI" 32; DeclRegister "LO" 32] new_machine.

(** ** Reference definitions for the further properties *)

(** Some position holds a literal of the template and the opposite bit. *)
Definition literal_clash (pattern : string) (bits : list Z) : Prop :=
  exists n c b,
    String.get n pattern = Some c /\ bits !! n = Some b /\
    ((c = "0"%char /\ b = 1) \/ (c = "1"%char /\ b = 0)).

(** A string without whitespace. *)
Fixpoint spaceless (s : string) : bool :=
  match s with
  | EmptyString => true
  | String c r => negb (isspace c) && spaceless r
  end.

(** The clipping of a slice bound to a buffer of length [n]. *)
Definition clip (n x : Z) : Z :=
  if x <? 0 then Z.max (x + n) 0 else Z.min x n.

(** The machine with one attribute set: what [setattr] leaves. *)
Definition with_attr (m : machine) (name : string) (v : value) : machine :=
  {| attrs := <[name := v]> (attrs m);
     _reg_list := _reg_list m;
     _mem := _mem m |}.

(** A state of the MIPS machine: the register file [R] is a dictionary
    [d] with all 32 indices and [PC] holds the integer [pc]. *)
Definition Mips_state (m : machine) (d : gmap Z Z) (pc : Z) : Prop :=
  attrs m !! "R" = Some (VDict d) /\
  attrs m !! "PC" = Some (VInt pc) /\
  forall i, 0 <= i < 32 -> is_Some (d !! i).

(** The machine after a MIPS instruction that wrote the register file
    (or left it, for [d' = d]) and after [finalize_execution]: register 0
    cleared, [PC] set to [pc']. *)
Definition Mips_after (m : machine) (d' : gmap Z Z) (pc' : Z) : machine :=
  with_attr (with_attr m "R" (VDict (<[0 := 0]> d'))) "PC" (VInt pc').

(** The MIPS machine after construction, with 16 bytes of memory mapped and
    [data] written at address 0. *)
Definition Mips_with_program (data : list byte) : machine :=
  snd (mem_write 0 data (snd (mem_map 0 16 Mips_registers))).

(** A run of [k] copies of the character [c], as a field occupies in a
    template. *)
Fixpoint run_of (c : ascii) (k : nat) : string :=
  match k with
  | O => ""
  | S k' => String c (run_of c k')
  end.

(** What [registers] yields for a MIPS machine whose register file is [d]
    and whose [PC], [HI] and [LO] hold [pc], [hi] and [lo]. *)
Definition Mips_view (d : gmap Z Z) (pc : Z) (hi lo : value)
    : list (string * Z * value) :=
  ((fun i => (default "" (mips_rnames !! i), 32, VInt (default 0 (d !! i))))
     <$> py_range 32)
  ++ [("PC", 32, VInt pc); ("HI", 32, hi); ("LO", 32, lo)].

(** * Checks on concrete inputs *)

(** The module-level assertions of [isa.py]. *)
Example mask_assert : mask 3 = Ok 7.
Proof. reflexivity. Qed.

Example bit_select_asserts :
  bit_select 63 3 1 false = Ok 14 /\
  bit_select 56 3 1 false = Ok 8 /\
  bit_select 63 2 2 false = Ok 4 /\
  bit_select 56 3 1 true = Ok 4 /\
  bit_select 63 2 2 true = Ok 1.
Proof. repeat split. Qed.

Example sign_extend_asserts :
  sign_extend 15 4 = Ok (-1) /\
  sign_extend 8 4 = Ok (-8) /\
  sign_extend 0 4 = Ok 0 /\
  sign_extend 7 4 = Ok 7.
Proof. repeat split. Qed.

Example py_str_ex : py_str 0 = "0" /\ py_str 31 = "31" /\ py_str (-7) = "-7".
Proof. repeat split. Qed.

Example py_hex_ex :
  py_hex 0 = "0x0" /\ py_hex 255 = "0xff" /\ py_hex (-26) = "-0x1a".
Proof. repeat split. Qed.

Example py_split_on_ex :
  py_split_on ":" "a:b::c" = ["a"; "b"; ""; "c"] /\ py_split_on ":" "" = [""].
Proof. repeat split. Qed.

Example py_split_ex : py_split "  addi $t   $s !i " = ["addi"; "$t"; "$s"; "!i"].
Proof. reflexivity. Qed.

Example strip_ex : strip "  j @a  " = "j @a" /\ strip "   " = "".
Proof. repeat split. Qed.


Example Mips_catalog_order :
  (fun sm => __name__ <$> _ifuncs (fst sm)) <$>
    (match Mips_new with Ok sm => Some sm | Raise _ => None end)
  = Some ["instruction_add"; "instruction_addi"; "instruction_j"; "instruction_nop"].
Proof. reflexivity. Qed.

(** The register file [R] is declared before [PC], [HI] and [LO], and is
    enumerated before them. *)
Example Mips_registers_order :
  match Mips_new with
  | Ok (_, m) =>
      (fun l => (fun t => fst (fst t)) <$> (take 2 l ++ drop 31 l)%list) <$>
        (match registers m with Ok l => Some l | Raise _ => None end)
  | Raise _ => None
  end
  = Some ["$0"; "$at"; "$ra"; "PC"; "HI"; "LO"].
Proof. vm_compute. reflexivity. Qed.

Example Mips_step_addi :
  match Mips_loaded with
  | Ok (self, m) =>
      let '(r, m') := step self m in
      Some (r, attrs m' !! "PC", file_entry m' "R" 8)
  | Raise _ => None
  end
  = Some (Ok "addi $8 $8 0x4", Some (VInt 4), Some 4).
Proof. vm_compute. reflexivity. Qed.

Example Mips_new_unfolded : Mips_new = Ok (Mips_isa, Mips_registers).
Proof. reflexivity. Qed.

(** * Properties *)

(** ** Bit utilities *)

Lemma mask_nonneg (n : Z) : 0 <= n -> mask n = Ok (Z.ones n).
Proof.
  intros Hn. unfold mask, py_lshift.
  destruct (n <? 0) eqn:E; [apply Z.ltb_lt in E; lia |].
  cbn. now rewrite Z.ones_equiv, Z.shiftl_1_l, Z.sub_1_r.
Qed.

Lemma mask_negative (n : Z) : n < 0 -> mask n = Raise ValueError.
Proof.
  intros Hn. unfold mask, py_lshift.
  apply Z.ltb_lt in Hn. now rewrite Hn.
Qed.

(** [i & ~mask(bits)] keeps exactly the bits at positions [bits] and up. *)
Lemma upper_bits_spec (i bits k : Z) :
  0 <= bits -> 0 <= k ->
  Z.testbit (Z.land i (Z.lnot (Z.ones bits))) k = Z.testbit i k && (bits <=? k).
Proof.
  intros Hb Hk. rewrite Z.land_spec, Z.lnot_spec by lia.
  destruct (Z.leb_spec bits k).
  - rewrite Z.ones_spec_high by lia. reflexivity.
  - rewrite Z.ones_spec_low by lia. cbn. now rewrite andb_false_r.
Qed.

Lemma upper_bits_zero (i bits : Z) :
  0 <= bits -> 0 <= i < 2 ^ bits -> Z.land i (Z.lnot (Z.ones bits)) = 0.
Proof.
  intros Hb Hi. apply Z.bits_inj'. intros k Hk.
  rewrite upper_bits_spec, Z.bits_0 by lia.
  destruct (Z.leb_spec bits k); [| now rewrite andb_false_r].
  rewrite andb_true_r.
  destruct (Z.eq_dec i 0) as [-> | Hne]; [apply Z.bits_0 |].
  apply Z.bits_above_log2; [lia |].
  assert (Z.log2 i < bits) by (apply Z.log2_lt_pow2; lia). lia.
Qed.

Lemma top_bit_test (i bits : Z) :
  1 <= bits ->
  (Z.land i (Z.shiftl 1 (bits - 1)) =? 0) = negb (Z.testbit i (bits - 1)).
Proof.
  intros Hb. rewrite Z.shiftl_1_l.
  destruct (Z.testbit i (bits - 1)) eqn:T; cbn.
  - apply Z.eqb_neq. intros H0.
    assert (Z.testbit (Z.land i (2 ^ (bits - 1))) (bits - 1) = true) as Hbit.
    { rewrite Z.land_spec, T, Z.pow2_bits_true by lia. reflexivity. }
    rewrite H0, Z.bits_0 in Hbit. discriminate.
  - apply Z.eqb_eq, Z.bits_inj'. intros k Hk.
    rewrite Z.land_spec, Z.bits_0, Z.pow2_bits_eqb by lia.
    destruct (Z.eqb_spec (bits - 1) k) as [<- | _].
    + now rewrite T.
    + apply andb_false_r.
Qed.

Lemma lor_upper_mask (i bits : Z) :
  0 <= bits -> 0 <= i < 2 ^ bits ->
  Z.lor i (Z.lnot (Z.ones bits)) = i - 2 ^ bits.
Proof.
  intros Hb Hi.
  pose proof (upper_bits_zero i bits Hb Hi) as Hz.
  rewrite <- Z.lxor_lor by exact Hz.
  rewrite <- Z.add_nocarry_lxor by exact Hz.
  rewrite Z.ones_equiv. unfold Z.lnot. lia.
Qed.

(** C7. For every [bits >= 1]: on [0 <= i < 2^bits], [sign_extend i bits]
    returns [i] when bit [bits-1] of [i] is clear and [i - 2^bits] when it
    is set; and when [i] has a bit set at some position [>= bits] it raises
    the ISAError of [sign_extend] ("upper bits of i not 0"). *)
Theorem sign_extend_spec (i bits : Z) :
  1 <= bits ->
  (0 <= i < 2 ^ bits ->
   sign_extend i bits = Ok (if Z.testbit i (bits - 1) then i - 2 ^ bits else i)) /\
  ((exists k, bits <= k /\ Z.testbit i k = true) ->
   sign_extend i bits = Raise (ISAError UpperBitsNotZero)).
Proof.
  intros Hb. unfold sign_extend. rewrite mask_nonneg by lia. cbn [rbind].
  split.
  - intros Hi. rewrite upper_bits_zero by lia. cbn.
    unfold py_lshift. destruct (bits - 1 <? 0) eqn:E; [apply Z.ltb_lt in E; lia |].
    cbn [rbind]. rewrite top_bit_test by lia.
    destruct (Z.testbit i (bits - 1)); cbn.
    + now rewrite lor_upper_mask by lia.
    + reflexivity.
  - intros (k & Hk & Hbit).
    destruct (Z.eqb_spec (Z.land i (Z.lnot (Z.ones bits))) 0) as [H0 | _]; [| reflexivity].
    exfalso.
    assert (Z.testbit (Z.land i (Z.lnot (Z.ones bits))) k = true) as Hu.
    { rewrite upper_bits_spec, Hbit by lia. cbn. now apply Z.leb_le. }
    rewrite H0, Z.bits_0 in Hu. discriminate.
Qed.

Lemma sign_extend_spec_witness :
  sign_extend 8 4 = Ok (-8) /\ sign_extend 7 4 = Ok 7 /\
  sign_extend 16 4 = Raise (ISAError UpperBitsNotZero).
Proof.
  split; [| split].
  - apply (proj1 (sign_extend_spec 8 4 ltac:(lia))). cbn. lia.
  - apply (proj1 (sign_extend_spec 7 4 ltac:(lia))). cbn. lia.
  - apply (proj2 (sign_extend_spec 16 4 ltac:(lia))).
    exists 4. split; [lia | reflexivity].
Defined.

(** ** The scan of [_pattern_match] *)

Lemma bits_of_is_bit (n : Z) (width : nat) : Forall is_bit (bits_of n width).
Proof.
  unfold bits_of. apply Forall_fmap, Forall_forall. intros s _. cbn.
  generalize (Z.shiftr n (Z.of_nat s - 1)). intros x.
  change (Z.land x 1) with (Z.land x (Z.ones 1)). rewrite Z.land_ones by lia.
  unfold is_bit. change (2 ^ 1) with 2.
  pose proof (Z.mod_pos_bound x 2 ltac:(lia)). lia.
Qed.

Lemma length_bits_of (n : Z) (width : nat) : length (bits_of n width) = width.
Proof. unfold bits_of. now rewrite length_fmap, length_rev, length_seq. Qed.

Lemma append_bit (acc b : Z) :
  is_bit b -> Z.lor (Z.shiftl acc 1) b = 2 * acc + b.
Proof.
  intros Hb. rewrite Z.shiftl_mul_pow2 by lia. change (2 ^ 1) with 2.
  assert (Z.land (acc * 2) b = 0) as Hz.
  { destruct Hb as [-> | ->]; [apply Z.land_0_r |].
    change 1 with (Z.ones 1). rewrite Z.land_ones by lia.
    change (2 ^ 1) with 2. now rewrite Z.mod_mul. }
  rewrite <- Z.lxor_lor, <- Z.add_nocarry_lxor by exact Hz. lia.
Qed.

Lemma match_bits_literals (pattern : string) :
  forall bits fields,
    Forall is_bit bits ->
    is_Some (match_bits pattern bits fields) <-> literals_match pattern bits = true.
Proof.
  induction pattern as [| p pattern IH]; intros bits fields Hbits; cbn.
  - split; eauto.
  - destruct bits as [| b bits]; [split; eauto |].
    inversion Hbits as [| ? ? Hb Hbits']; subst.
    destruct (Ascii.eqb_spec p "0") as [-> | Hp0]; cbn.
    + destruct Hb as [-> | ->]; cbn.
      * apply IH, Hbits'.
      * split; [intros [? ?]; discriminate | discriminate].
    + destruct (Ascii.eqb_spec p "1") as [-> | Hp1]; cbn.
      * destruct Hb as [-> | ->]; cbn.
        -- split; [intros [? ?]; discriminate | discriminate].
        -- apply IH, Hbits'.
      * apply IH, Hbits'.
Qed.

Lemma match_bits_lookup (pattern : string) :
  forall bits fields flds,
    Forall is_bit bits ->
    match_bits pattern bits fields = Some flds ->
    (forall c, flds !! String c "" =
               scanned fields (String c "") (select_bits c pattern bits)) /\
    (forall k, String.length k <> 1%nat -> flds !! k = fields !! k).
Proof.
  induction pattern as [| p pattern IH]; intros bits fields flds Hbits Hm; cbn in Hm.
  - inversion Hm; subst. split; reflexivity || eauto.
  - destruct bits as [| b bits]; [inversion Hm; subst; split; reflexivity || eauto |].
    inversion Hbits as [| ? ? Hb Hbits']; subst.
    destruct (Ascii.eqb p "0" && (b =? 1)); [discriminate |].
    destruct (Ascii.eqb p "1" && (b =? 0)); [discriminate |].
    rewrite append_bit in Hm by exact Hb.
    destruct (IH _ _ _ Hbits' Hm) as [IH1 IH2]. split.
    + intros c. rewrite IH1. cbn [select_bits].
      destruct (Ascii.eqb_spec p c) as [-> | Hne].
      * unfold scanned. rewrite lookup_insert_eq. cbn.
        destruct (select_bits c pattern bits); reflexivity.
      * unfold scanned. rewrite lookup_insert_ne by congruence. reflexivity.
    + intros k Hk. rewrite IH2 by exact Hk.
      apply lookup_insert_ne. intros <-. apply Hk. reflexivity.
Qed.

Lemma select_bits_nil (c : ascii) (pattern : string) :
  forall bits,
    String.length pattern = length bits ->
    (select_bits c pattern bits = [] <-> occurs c pattern = false).
Proof.
  unfold occurs.
  induction pattern as [| p pattern IH]; intros bits Hlen; cbn.
  - split; reflexivity || eauto.
  - destruct bits as [| b bits]; [discriminate |].
    destruct (Ascii.eqb p c); cbn.
    + split; discriminate.
    + apply IH. cbn in Hlen. lia.
Qed.

Lemma length_select_bits (c : ascii) (pattern : string) :
  forall bits,
    String.length pattern = length bits ->
    length (select_bits c pattern bits) = count_char c pattern.
Proof.
  induction pattern as [| p pattern IH]; intros bits Hlen; cbn; [reflexivity |].
  destruct bits as [| b bits]; [discriminate |].
  cbn in Hlen. destruct (Ascii.eqb p c); cbn; rewrite IH by lia; reflexivity.
Qed.

(** The field set of a successful scan from the empty dictionary. *)
Lemma match_bits_fields (pattern : string) (bits : list Z) (flds : namespace) :
  Forall is_bit bits ->
  String.length pattern = length bits ->
  match_bits pattern bits ∅ = Some flds ->
  forall c, flds !! String c "" =
            if occurs c pattern then Some (msb_value (select_bits c pattern bits))
            else None.
Proof.
  intros Hbits Hlen Hm c.
  destruct (match_bits_lookup _ _ _ _ Hbits Hm) as [H1 _].
  rewrite H1. unfold scanned, msb_value.
  pose proof (select_bits_nil c pattern bits Hlen) as Hnil.
  destruct (occurs c pattern) eqn:Eo.
  - destruct (select_bits c pattern bits) eqn:Esel.
    + destruct Hnil as [Hnil _]. specialize (Hnil eq_refl). discriminate.
    + rewrite lookup_empty. reflexivity.
  - destruct Hnil as [_ Hnil]. rewrite (Hnil eq_refl). apply lookup_empty.
Qed.

Lemma extract_pattern_length (self : IsaDefinition) (func : method) (pattern : string) :
  _extract_pattern self func = Ok pattern ->
  String.length pattern = (isize self * 8)%nat.
Proof.
  unfold _extract_pattern. destruct (__doc__ func) as [doc |]; [| discriminate].
  destruct (py_index _ 1) as [cf | e]; cbn; [| discriminate].
  destruct (Nat.eqb_spec (String.length cf) (isize self * 8)); cbn; [| discriminate].
  intros [= <-]. assumption.
Qed.

(** [_pattern_match] on a buffer of the right length and a well-formed
    template: it answers [None] exactly when a literal disagrees. *)
Lemma pattern_match_scan (self : IsaDefinition) (ifunc : method) (instr : list byte)
    (pattern : string) :
  length instr = isize self ->
  _extract_pattern self ifunc = Ok pattern ->
  _pattern_match self ifunc instr = Ok (match_bits pattern (instr_bits self instr) ∅).
Proof.
  intros Hlen Hpat. unfold _pattern_match.
  rewrite Hlen, Nat.eqb_refl, Hpat. reflexivity.
Qed.

(** ** The decode loop *)

Lemma pattern_match_inv (self : IsaDefinition) (ifunc : method) (instr : list byte)
    (flds : namespace) :
  _pattern_match self ifunc instr = Ok (Some flds) ->
  length instr = isize self /\
  exists pattern,
    _extract_pattern self ifunc = Ok pattern /\
    match_bits pattern (instr_bits self instr) ∅ = Some flds.
Proof.
  unfold _pattern_match.
  destruct (Nat.eqb_spec (length instr) (isize self)) as [Hlen | _]; cbn; [| discriminate].
  destruct (_extract_pattern self ifunc) as [pattern | e]; cbn; [| discriminate].
  intros [= Hm]. split; [exact Hlen |]. exists pattern. split; [reflexivity | exact Hm].
Qed.

Lemma pattern_match_wrong_length (self : IsaDefinition) (ifunc : method)
    (instr : list byte) :
  length instr <> isize self ->
  _pattern_match self ifunc instr = Raise (ISAError InstructionBytes).
Proof.
  intros Hlen. unfold _pattern_match.
  destruct (Nat.eqb_spec (length instr) (isize self)); [contradiction | reflexivity].
Qed.

Lemma decode_loop_first (self : IsaDefinition) (instr : list byte) (pre : list method) :
  forall f post,
    Forall (fun g => _pattern_match self g instr = Ok None) pre ->
    decode_loop self (pre ++ f :: post) instr =
    (let? r := _pattern_match self f instr in
     match r with
     | Some flds => Ok (f, flds)
     | None => decode_loop self post instr
     end)%result.
Proof.
  induction pre as [| g pre IH]; intros f post Hpre; [reflexivity |].
  inversion Hpre as [| ? ? Hg Hpre']; subst.
  cbn. rewrite Hg. cbn. apply IH, Hpre'.
Qed.

Lemma decode_loop_inv (self : IsaDefinition) (instr : list byte) (l : list method) :
  forall f flds,
    decode_loop self l instr = Ok (f, flds) ->
    exists pre post,
      l = (pre ++ f :: post)%list /\
      Forall (fun g => _pattern_match self g instr = Ok None) pre /\
      _pattern_match self f instr = Ok (Some flds).
Proof.
  induction l as [| g l IH]; intros f flds Hd; cbn in Hd; [discriminate |].
  destruct (_pattern_match self g instr) as [[flds' |] | e] eqn:Hg; cbn in Hd;
    [| | discriminate].
  - inversion Hd; subst. exists [], l. repeat split; [constructor | exact Hg].
  - destruct (IH _ _ Hd) as (pre & post & -> & Hpre & Hf).
    exists (g :: pre), post. repeat split; [constructor; assumption | exact Hf].
Qed.

Lemma decode_name_ok (self : IsaDefinition) (instr : list byte) (ifunc : method)
    (flds : namespace) :
  decode self instr = Ok (ifunc, flds) ->
  decode_name self instr = Ok (__name__ ifunc).
Proof. intros H. unfold decode_name. now rewrite H. Qed.

(** ** The order of the catalog *)

Lemma ascii_compare_trans (a b c : ascii) (r : comparison) :
  Ascii.compare a b = r -> Ascii.compare b c = r -> Ascii.compare a c = r.
Proof.
  unfold Ascii.compare. intros Hab Hbc. destruct r.
  - apply N.compare_eq_iff in Hab, Hbc. apply N.compare_eq_iff. congruence.
  - rewrite N.compare_lt_iff in *. eapply N.lt_trans; eassumption.
  - rewrite N.compare_gt_iff in *. eapply N.lt_trans; eassumption.
Qed.

Lemma name_lt_trans (a : string) :
  forall b c, name_lt a b -> name_lt b c -> name_lt a c.
Proof.
  unfold name_lt.
  induction a as [| x a IH]; intros [| y b] [| z c]; cbn; try discriminate; try reflexivity.
  destruct (Ascii.compare x y) eqn:Exy; try discriminate;
    destruct (Ascii.compare y z) eqn:Eyz; try discriminate; intros Hab Hbc.
  - rewrite (ascii_compare_trans _ _ _ _ Exy Eyz). eauto.
  - apply Ascii.compare_eq_iff in Exy. subst y. now rewrite Eyz.
  - apply Ascii.compare_eq_iff in Eyz. subst z. now rewrite Exy.
  - now rewrite (ascii_compare_trans _ _ _ _ Exy Eyz).
Qed.

Lemma name_lt_irrefl (a : string) : ~ name_lt a a.
Proof.
  unfold name_lt. intros H.
  pose proof (String.compare_antisym a a) as Ha. rewrite H in Ha. discriminate.
Qed.

Lemma insert_name_elem (n : string) (l : list string) (x : string) :
  x ∈ insert_name n l <-> x = n \/ x ∈ l.
Proof.
  induction l as [| y l IH]; cbn.
  - rewrite list_elem_of_singleton. split; [now left |].
    intros [H | H]; [exact H | inversion H].
  - destruct (String.compare n y) eqn:E.
    + apply String.compare_eq_iff in E. subst y. rewrite elem_of_cons. tauto.
    + rewrite (elem_of_cons (y :: l)). tauto.
    + rewrite !elem_of_cons, IH. tauto.
Qed.

Lemma insert_name_sorted (n : string) (l : list string) :
  StronglySorted name_lt l -> StronglySorted name_lt (insert_name n l).
Proof.
  induction l as [| y l IH]; intros Hs; cbn.
  - repeat constructor.
  - inversion Hs as [| ? ? Hs' Hy]; subst.
    destruct (String.compare n y) eqn:E.
    + exact Hs.
    + constructor; [exact Hs |]. constructor; [exact E |].
      eapply Forall_impl; [exact Hy |]. intros z Hz. eapply name_lt_trans; eassumption.
    + constructor; [apply IH, Hs' |].
      apply Forall_forall. intros z Hz. apply insert_name_elem in Hz.
      destruct Hz as [-> | Hz].
      * unfold name_lt. rewrite String.compare_antisym, E. reflexivity.
      * rewrite Forall_forall in Hy. apply Hy, Hz.
Qed.

Lemma dir_fold_spec (fs : list method) :
  forall acc,
    StronglySorted name_lt acc ->
    StronglySorted name_lt (fold_left (fun acc f => insert_name (__name__ f) acc) fs acc) /\
    (forall x, x ∈ fold_left (fun acc f => insert_name (__name__ f) acc) fs acc <->
               x ∈ acc \/ exists f, f ∈ fs /\ __name__ f = x).
Proof.
  induction fs as [| f fs IH]; intros acc Hacc; cbn.
  - split; [exact Hacc |]. intros x. split; [eauto |].
    intros [H | (f & Hf & _)]; [exact H | inversion Hf].
  - destruct (IH (insert_name (__name__ f) acc) (insert_name_sorted _ _ Hacc)) as [Hs Hin].
    split; [exact Hs |]. intros x. rewrite Hin, insert_name_elem. split.
    + intros [[-> | H] | (g & Hg & Hgx)]; eauto.
      * right. exists f. split; [left | reflexivity].
      * right. exists g. split; [now right | exact Hgx].
    + intros [H | (g & Hg & Hgx)]; [eauto |].
      apply elem_of_cons in Hg. destruct Hg as [-> | Hg]; eauto.
Qed.

Lemma dir_sorted (cls : pyclass) : StronglySorted name_lt (dir cls).
Proof. apply dir_fold_spec. constructor. Qed.

Lemma dir_elem (cls : pyclass) (x : string) :
  x ∈ dir cls <-> exists f, f ∈ methods cls /\ __name__ f = x.
Proof.
  unfold dir. rewrite (proj2 (dir_fold_spec (methods cls) [] (SSorted_nil _))).
  split; [intros [H | H]; [inversion H | exact H] | eauto].
Qed.

Lemma class_getattr_name (cls : pyclass) (n : string) (f : method) :
  class_getattr cls n = Some f -> __name__ f = n.
Proof.
  unfold class_getattr. intros H. apply find_some in H.
  now apply String.eqb_eq.
Qed.

Lemma class_getattr_defined (cls : pyclass) (n : string) :
  n ∈ dir cls -> exists f, class_getattr cls n = Some f /\ f ∈ methods cls.
Proof.
  intros Hn. apply dir_elem in Hn. destruct Hn as (g & Hg & Hgn).
  unfold class_getattr.
  destruct (List.find _ (rev (methods cls))) as [f |] eqn:E.
  - exists f. split; [reflexivity |]. apply find_some in E.
    apply list_elem_of_In. apply in_rev. tauto.
  - exfalso. eapply find_none in E.
    + rewrite Hgn, String.eqb_refl in E. discriminate.
    + apply in_rev. rewrite rev_involutive. apply list_elem_of_In, Hg.
Qed.

Lemma filter_sorted (P : string -> bool) (l : list string) :
  StronglySorted name_lt l -> StronglySorted name_lt (List.filter P l).
Proof.
  induction l as [| x l IH]; intros Hs; cbn; [constructor |].
  inversion Hs as [| ? ? Hs' Hx]; subst.
  destruct (P x); [| apply IH, Hs'].
  constructor; [apply IH, Hs' |].
  apply Forall_forall. intros z Hz. apply list_elem_of_In, filter_In in Hz.
  rewrite Forall_forall in Hx. apply Hx, list_elem_of_In. tauto.
Qed.

Lemma omap_getattr_names (cls : pyclass) (names : list string) :
  (forall n, n ∈ names -> n ∈ dir cls) ->
  __name__ <$> omap (class_getattr cls) names = names.
Proof.
  induction names as [| n names IH]; intros Hall; [reflexivity |].
  cbn. destruct (class_getattr_defined cls n) as (f & Hf & _).
  { apply Hall. left. }
  rewrite Hf. cbn. rewrite (class_getattr_name _ _ _ Hf). f_equal.
  apply IH. intros x Hx. apply Hall. now right.
Qed.

(** The catalog [__init__] builds: the instruction methods of the class,
    one per name, in ascending order of name. *)
Lemma init_catalog_names (cls : pyclass) (self : IsaDefinition) (m : machine) :
  IsaDefinition__init__ cls = Ok (self, m) ->
  __name__ <$> _ifuncs self
  = List.filter (fun f => startswith f "instruction_") (dir cls).
Proof.
  intros [= <- _]. cbn. apply omap_getattr_names.
  intros n Hn. apply list_elem_of_In, filter_In in Hn. apply list_elem_of_In. tauto.
Qed.

Lemma sorted_after (l1 : list string) (x : string) (l2 : list string) (y : string) :
  StronglySorted name_lt (l1 ++ x :: l2) -> y ∈ l2 -> name_lt x y.
Proof.
  induction l1 as [| z l1 IH]; cbn; intros Hs Hy.
  - inversion Hs as [| ? ? _ Hx]; subst. rewrite Forall_forall in Hx. apply Hx, Hy.
  - inversion Hs; subst. apply IH; assumption.
Qed.

(** The loop of [decode] stops at the first entry whose
    [_pattern_match] does not answer [None]. *)
Lemma decode_loop_cases (self : IsaDefinition) (instr : list byte) (l : list method) :
  (Forall (fun g => _pattern_match self g instr = Ok None) l /\
   decode_loop self l instr = Raise (ISAError UnableToDecode)) \/
  (exists pre f post,
      l = (pre ++ f :: post)%list /\
      Forall (fun g => _pattern_match self g instr = Ok None) pre /\
      ((exists flds, _pattern_match self f instr = Ok (Some flds) /\
                     decode_loop self l instr = Ok (f, flds)) \/
       (exists e, _pattern_match self f instr = Raise e /\
                  decode_loop self l instr = Raise e))).
Proof.
  induction l as [| g l IH]; [left; split; [constructor | reflexivity] |].
  cbn [decode_loop].
  destruct (_pattern_match self g instr) as [[flds |] | e] eqn:Hg; cbn [rbind].
  - right. exists [], g, l. split; [reflexivity |]. split; [constructor |].
    left. exists flds. split; [exact Hg | reflexivity].
  - destruct IH as [[Hall Hd] | (pre & f & post & -> & Hpre & Hf)].
    + left. split; [constructor; assumption | exact Hd].
    + right. exists (g :: pre), f, post. split; [reflexivity |].
      split; [constructor; assumption | exact Hf].
  - right. exists [], g, l. split; [reflexivity |]. split; [constructor |].
    right. exists e. split; [exact Hg | reflexivity].
Qed.

(** C1 (amended).  The catalog [_ifuncs] that [__init__] builds from
    [dir(self)] holds the instruction methods of the class in ascending
    order of method name, whatever the order of their declarations.  For
    every object with that catalog, whatever its [isize], [endian] and
    hook, and every buffer, [decode] walks the catalog and stops at the
    first entry whose [_pattern_match] does not answer [None]: when that
    entry matches, [decode] returns it with its field set, although later
    entries may match too; when it raises, [decode] raises its exception,
    although later entries may match; when there is no such entry,
    [decode] raises its own error.  So whenever [decode] returns, the
    entry returned has the least method name among the entries whose
    literal bits match: the priority is the order of the names, not the
    order of the declarations. *)
Theorem decode_priority_is_name_order (cls : pyclass) (self0 self : IsaDefinition)
    (m : machine) :
  IsaDefinition__init__ cls = Ok (self0, m) ->
  _ifuncs self = _ifuncs self0 ->
  StronglySorted name_lt (__name__ <$> _ifuncs self) /\
  (forall n, n ∈ (__name__ <$> _ifuncs self) <->
             startswith n "instruction_" = true /\
             exists f, f ∈ methods cls /\ __name__ f = n) /\
  (forall instr,
      (Forall (fun g => _pattern_match self g instr = Ok None) (_ifuncs self) /\
       decode self instr = Raise (ISAError UnableToDecode)) \/
      (exists pre f post,
          _ifuncs self = (pre ++ f :: post)%list /\
          Forall (fun g => _pattern_match self g instr = Ok None) pre /\
          ((exists flds, _pattern_match self f instr = Ok (Some flds) /\
                         decode self instr = Ok (f, flds)) \/
           (exists e, _pattern_match self f instr = Raise e /\
                      decode self instr = Raise e)))) /\
  (forall instr pre f post flds,
      _ifuncs self = (pre ++ f :: post)%list ->
      Forall (fun g => _pattern_match self g instr = Ok None) pre ->
      _pattern_match self f instr = Ok (Some flds) ->
      decode self instr = Ok (f, flds)) /\
  (forall instr pre f post e,
      _ifuncs self = (pre ++ f :: post)%list ->
      Forall (fun g => _pattern_match self g instr = Ok None) pre ->
      _pattern_match self f instr = Raise e ->
      decode self instr = Raise e) /\
  (forall instr f flds g,
      decode self instr = Ok (f, flds) ->
      g ∈ _ifuncs self ->
      matches self g instr = true ->
      __name__ g = __name__ f \/ name_lt (__name__ f) (__name__ g)).
Proof.
  intros Hinit Hsame. pose proof (init_catalog_names _ _ _ Hinit) as Hnames.
  rewrite <- Hsame in Hnames.
  assert (StronglySorted name_lt (__name__ <$> _ifuncs self)) as Hsorted.
  { rewrite Hnames. apply filter_sorted, dir_sorted. }
  split; [exact Hsorted |]. split; [| split; [| split; [| split]]].
  - intros n. rewrite Hnames, list_elem_of_In, filter_In, <- list_elem_of_In, dir_elem.
    tauto.
  - intros instr. apply decode_loop_cases.
  - intros instr pre f post flds Hcat Hpre Hf. unfold decode.
    rewrite Hcat, decode_loop_first by exact Hpre. now rewrite Hf.
  - intros instr pre f post e Hcat Hpre Hf. unfold decode.
    rewrite Hcat, decode_loop_first by exact Hpre. now rewrite Hf.
  - intros instr f flds g Hd Hg Hm. unfold decode in Hd.
    destruct (decode_loop_inv _ _ _ _ _ Hd) as (pre & post & Hcat & Hpre & Hf).
    rewrite Hcat in Hg, Hsorted.
    apply elem_of_app in Hg. destruct Hg as [Hg | Hg].
    + rewrite Forall_forall in Hpre. unfold matches in Hm.
      rewrite (Hpre g Hg) in Hm. discriminate.
    + apply elem_of_cons in Hg. destruct Hg as [-> | Hg]; [now left | right].
      rewrite fmap_app, fmap_cons in Hsorted.
      eapply sorted_after; [exact Hsorted |]. apply list_elem_of_fmap. eauto.
Qed.

Lemma decode_priority_is_name_order_witness :
  let self0 := {| _ifuncs := [instruction_alu; instruction_nop]; endian := big;
                  isize := 4; finalize_execution := None |} in
  let self := {| _ifuncs := [instruction_alu; instruction_nop]; endian := little;
                 isize := 4; finalize_execution := None |} in
  let word := [x00; x00; x00; x00] in
  let flds := match _pattern_match self instruction_alu word with
              | Ok (Some flds) => flds
              | _ => ∅
              end in
  IsaDefinition__init__ nop_first_class = Ok (self0, new_machine) /\
  matches self instruction_nop word = true /\
  decode self word = Ok (instruction_alu, flds) /\
  name_lt (__name__ instruction_alu) (__name__ instruction_nop) /\
  decode self [x00; x00; x00] = Raise (ISAError InstructionBytes).
Proof.
  intros self0 self word flds.
  assert (IsaDefinition__init__ nop_first_class = Ok (self0, new_machine)) as Hinit
    by reflexivity.
  destruct (decode_priority_is_name_order nop_first_class self0 self new_machine
              Hinit eq_refl)
    as (_ & _ & _ & Hfirst & Hraise & Hleast).
  assert (matches self instruction_nop word = true) as Hnop
    by (vm_compute; reflexivity).
  assert (decode self word = Ok (instruction_alu, flds)) as Hd.
  { apply (Hfirst word [] instruction_alu [instruction_nop] flds).
    - reflexivity.
    - constructor.
    - vm_compute. reflexivity. }
  repeat (split; [assumption |]).
  split.
  - destruct (Hleast word instruction_alu flds instruction_nop Hd) as [Heq | Hlt].
    + right. left.
    + exact Hnop.
    + discriminate Heq.
    + exact Hlt.
  - apply (Hraise [x00; x00; x00] [] instruction_alu [instruction_nop]).
    + reflexivity.
    + constructor.
    + vm_compute. reflexivity.
Defined.

(** C1, as stated, fails: the class declares [instruction_nop] first and
    [instruction_alu] second, both match the all-zero word, and [decode]
    returns [instruction_alu]. *)
Lemma decode_declaration_order_counterexample :
  match IsaDefinition__init__ nop_first_class with
  | Ok (self, _) =>
      Some (first_declared_match self nop_first_class [x00; x00; x00; x00],
            decode_name self [x00; x00; x00; x00])
  | Raise _ => None
  end
  = Some (Some "instruction_nop", Ok "instruction_alu").
Proof. vm_compute. reflexivity. Qed.

(** ** Field sets *)

(** C2.  On a buffer of the instruction width whose bits agree with every
    literal of the template, [_pattern_match] returns a field set in which
    each field identifier of the template holds the bits found under it,
    read most significant first (each bit becoming the new least
    significant one, whether or not the positions are contiguous), and no
    other identifier is present; [decode] returns such a field set; and the
    bytes 0x21 0x08 0x00 0x04 decode on the MIPS machine to [addi] with
    [s=8], [t=8], [i=4]. *)
Theorem decode_field_set :
  (forall self ifunc instr pattern,
      length instr = isize self ->
      _extract_pattern self ifunc = Ok pattern ->
      literals_match pattern (instr_bits self instr) = true ->
      exists flds,
        _pattern_match self ifunc instr = Ok (Some flds) /\
        forall c, c <> "0"%char -> c <> "1"%char ->
          flds !! String c "" =
          if occurs c pattern
          then Some (msb_value (select_bits c pattern (instr_bits self instr)))
          else None) /\
  (forall self instr ifunc flds,
      decode self instr = Ok (ifunc, flds) ->
      exists pattern,
        _extract_pattern self ifunc = Ok pattern /\
        literals_match pattern (instr_bits self instr) = true /\
        forall c, c <> "0"%char -> c <> "1"%char ->
          flds !! String c "" =
          if occurs c pattern
          then Some (msb_value (select_bits c pattern (instr_bits self instr)))
          else None) /\
  (forall self m,
      Mips_new = Ok (self, m) ->
      (let? d := decode self [x21; x08; x00; x04] in
       Ok (__doc__ (fst d), snd d !! "s", snd d !! "t", snd d !! "i"))%result
      = Ok (Some "add immediate : 001000 sssss ttttt iiiiiiiiiiiiiiii : addi $t $s !i",
            Some 8, Some 8, Some 4)).
Proof.
  split; [| split].
  - intros self ifunc instr pattern Hlen Hpat Hlit.
    pose proof (bits_of_is_bit (from_bytes (endian self) instr) (isize self * 8)) as Hbits.
    fold (instr_bits self instr) in Hbits.
    destruct (proj2 (match_bits_literals pattern (instr_bits self instr) ∅ Hbits) Hlit)
      as [flds Hm].
    exists flds. rewrite (pattern_match_scan _ _ _ _ Hlen Hpat), Hm.
    split; [reflexivity |]. intros c _ _.
    apply match_bits_fields; [exact Hbits | | exact Hm].
    rewrite (extract_pattern_length _ _ _ Hpat). unfold instr_bits.
    now rewrite length_bits_of.
  - intros self instr ifunc flds Hd. unfold decode in Hd.
    destruct (decode_loop_inv _ _ _ _ _ Hd) as (_ & _ & _ & _ & Hf).
    destruct (pattern_match_inv _ _ _ _ Hf) as (Hlen & pattern & Hpat & Hm).
    pose proof (bits_of_is_bit (from_bytes (endian self) instr) (isize self * 8)) as Hbits.
    fold (instr_bits self instr) in Hbits.
    exists pattern. split; [exact Hpat |]. split.
    + apply (match_bits_literals pattern (instr_bits self instr) ∅ Hbits). eauto.
    + intros c _ _. apply match_bits_fields; [exact Hbits | | exact Hm].
      rewrite (extract_pattern_length _ _ _ Hpat). unfold instr_bits.
      now rewrite length_bits_of.
  - intros self m [= <- _]. vm_compute. reflexivity.
Qed.

Lemma decode_field_set_witness :
  let word := [x21; x08; x00; x04] in
  let flds := match _pattern_match Mips_isa (instruction_addi sign_extend) word with
              | Ok (Some flds) => flds
              | _ => ∅
              end in
  _pattern_match Mips_isa (instruction_addi sign_extend) word = Ok (Some flds) /\
  decode Mips_isa word = Ok (instruction_addi sign_extend, flds) /\
  flds !! "s" = Some 8 /\ flds !! "t" = Some 8 /\ flds !! "i" = Some 4.
Proof.
  intros word flds.
  destruct decode_field_set as (Hmatch & Hdecode & _).
  destruct (Hmatch Mips_isa (instruction_addi sign_extend) word
              "001000ssssstttttiiiiiiiiiiiiiiii"
              ltac:(reflexivity) ltac:(vm_compute; reflexivity)
              ltac:(vm_compute; reflexivity)) as (flds' & Hm & Hf).
  assert (flds' = flds) as ->.
  { unfold flds. rewrite Hm. reflexivity. }
  assert (decode Mips_isa word = Ok (instruction_addi sign_extend, flds)) as Hd.
  { unfold decode. cbn [_ifuncs Mips_isa decode_loop].
    replace (_pattern_match Mips_isa instruction_add word)
      with (@Ok (option namespace) None) by (vm_compute; reflexivity).
    cbn [rbind]. rewrite Hm. reflexivity. }
  split; [exact Hm |]. split; [exact Hd |].
  destruct (Hdecode _ _ _ _ Hd) as (pattern & Hpat & _ & Hg).
  assert (pattern = "001000ssssstttttiiiiiiiiiiiiiiii") as ->.
  { vm_compute in Hpat. congruence. }
  split; [| split].
  - rewrite (Hg "s"%char ltac:(discriminate) ltac:(discriminate)).
    vm_compute. reflexivity.
  - rewrite (Hf "t"%char ltac:(discriminate) ltac:(discriminate)).
    vm_compute. reflexivity.
  - rewrite (Hf "i"%char ltac:(discriminate) ltac:(discriminate)).
    vm_compute. reflexivity.
Defined.

(** ** The literal keys of a field set *)

Lemma select_literal_zero (pattern : string) :
  forall bits,
    literals_match pattern bits = true ->
    Forall (fun b => b = 0) (select_bits "0" pattern bits).
Proof.
  induction pattern as [| p pattern IH]; intros bits Hlit; cbn; [constructor |].
  destruct bits as [| b bits]; [constructor |].
  cbn in Hlit. apply andb_true_iff in Hlit. destruct Hlit as [Hp Hrest].
  destruct (Ascii.eqb p "0"); [| apply IH, Hrest].
  constructor; [now apply Z.eqb_eq | apply IH, Hrest].
Qed.

Lemma select_literal_one (pattern : string) :
  forall bits,
    literals_match pattern bits = true ->
    Forall (fun b => b = 1) (select_bits "1" pattern bits).
Proof.
  induction pattern as [| p pattern IH]; intros bits Hlit; cbn; [constructor |].
  destruct bits as [| b bits]; [constructor |].
  cbn in Hlit. apply andb_true_iff in Hlit. destruct Hlit as [Hp Hrest].
  destruct (Ascii.eqb_spec p "1") as [-> | _]; [| apply IH, Hrest].
  constructor; [now apply Z.eqb_eq | apply IH, Hrest].
Qed.

Lemma msb_value_zeros (bits : list Z) :
  Forall (fun b => b = 0) bits -> msb_value bits = 0.
Proof.
  unfold msb_value. induction 1 as [| b bits -> _ IH]; [reflexivity | exact IH].
Qed.

Lemma fold_ones (bits : list Z) :
  Forall (fun b => b = 1) bits ->
  forall acc,
    fold_left (fun acc b => 2 * acc + b) bits acc
    = (acc + 1) * 2 ^ Z.of_nat (length bits) - 1.
Proof.
  induction 1 as [| b bits -> _ IH]; intros acc; cbn [fold_left length].
  - cbn. lia.
  - rewrite IH, Nat2Z.inj_succ, Z.pow_succ_r by lia. lia.
Qed.

Lemma msb_value_ones (bits : list Z) :
  Forall (fun b => b = 1) bits -> msb_value bits = 2 ^ Z.of_nat (length bits) - 1.
Proof. intros H. unfold msb_value. rewrite fold_ones by exact H. lia. Qed.

(** C10 (amended).  In the field set of a successful decode the key ['0']
    is present exactly when the template has a ['0'] literal, and then holds
    0; the key ['1'] is present exactly when the template has a ['1']
    literal, and then holds [2^k - 1] for [k] the number of ['1'] literals.
    The field set is not restricted to field identifiers, but a literal
    that the template does not use leaves no key. *)
Theorem decode_literal_keys (self : IsaDefinition) (instr : list byte)
    (ifunc : method) (flds : namespace) :
  decode self instr = Ok (ifunc, flds) ->
  exists pattern,
    _extract_pattern self ifunc = Ok pattern /\
    flds !! "0" = (if occurs "0" pattern then Some 0 else None) /\
    flds !! "1" = (if occurs "1" pattern
                   then Some (2 ^ Z.of_nat (count_char "1" pattern) - 1)
                   else None).
Proof.
  intros Hd. unfold decode in Hd.
  destruct (decode_loop_inv _ _ _ _ _ Hd) as (_ & _ & _ & _ & Hf).
  destruct (pattern_match_inv _ _ _ _ Hf) as (Hlen & pattern & Hpat & Hm).
  pose proof (bits_of_is_bit (from_bytes (endian self) instr) (isize self * 8)) as Hbits.
  fold (instr_bits self instr) in Hbits.
  assert (String.length pattern = length (instr_bits self instr)) as Hl.
  { rewrite (extract_pattern_length _ _ _ Hpat). unfold instr_bits.
    now rewrite length_bits_of. }
  assert (literals_match pattern (instr_bits self instr) = true) as Hlit.
  { apply (match_bits_literals pattern _ ∅ Hbits). eauto. }
  exists pattern. split; [exact Hpat |]. split.
  - rewrite (match_bits_fields _ _ _ Hbits Hl Hm "0"%char).
    destruct (occurs "0" pattern); [| reflexivity].
    now rewrite msb_value_zeros by (apply select_literal_zero, Hlit).
  - rewrite (match_bits_fields _ _ _ Hbits Hl Hm "1"%char).
    destruct (occurs "1" pattern); [| reflexivity].
    rewrite msb_value_ones by (apply select_literal_one, Hlit).
    now rewrite length_select_bits by exact Hl.
Qed.

Lemma decode_literal_keys_witness :
  let self := {| _ifuncs := [instruction_add; instruction_addi sign_extend];
                 endian := big; isize := 4; finalize_execution := None |} in
  let flds :=
    match _pattern_match self (instruction_addi sign_extend) [x21; x08; x00; x04] with
    | Ok (Some flds) => flds
    | _ => ∅
    end in
  decode self [x21; x08; x00; x04] = Ok (instruction_addi sign_extend, flds) /\
  flds !! "0" = Some 0 /\ flds !! "1" = Some 1.
Proof.
  intros self flds.
  assert (decode self [x21; x08; x00; x04] = Ok (instruction_addi sign_extend, flds))
    as Hd.
  { unfold decode. cbn [_ifuncs self decode_loop].
    replace (_pattern_match self instruction_add [x21; x08; x00; x04])
      with (@Ok (option namespace) None) by (vm_compute; reflexivity).
    cbn [rbind].
    replace (_pattern_match self (instruction_addi sign_extend) [x21; x08; x00; x04])
      with (Ok (Some flds)) by (vm_compute; reflexivity).
    reflexivity. }
  split; [exact Hd |].
  destruct (decode_literal_keys self _ _ flds Hd) as (pattern & Hpat & H0 & H1).
  assert (pattern = "001000ssssstttttiiiiiiiiiiiiiiii") as ->.
  { vm_compute in Hpat. congruence. }
  split; [exact H0 | exact H1].
Defined.

(** C10, as stated, fails on the [nop] entry of the MIPS machine: its
    template has ['0'] literals only, and the field set of the all-zero
    word has the key ['0'] and no key ['1']. *)
Lemma decode_literal_keys_counterexample :
  match Mips_new with
  | Ok (self, _) =>
      (let? d := decode self [x00; x00; x00; x00] in
       Ok (__name__ (fst d), snd d !! "0", snd d !! "1"))%result
  | Raise e => Raise e
  end
  = Ok ("instruction_nop", Some 0, None).
Proof. vm_compute. reflexivity. Qed.

(** ** Errors of construction and of decode *)

(** C3 (amended).  Construction never looks at a template: [__init__]
    returns the ISA object for every class, whatever the length of its
    templates.  A template whose length differs from the instruction width
    raises the ISAError of [_extract_pattern] inside [decode], when the loop
    reaches that entry: the buffer has the right length and no earlier entry
    matched. *)
Theorem template_length_checked_by_decode :
  (forall cls, exists self m, IsaDefinition__init__ cls = Ok (self, m)) /\
  (forall self instr pre f post doc clean_format,
      _ifuncs self = (pre ++ f :: post)%list ->
      length instr = isize self ->
      Forall (fun g => _pattern_match self g instr = Ok None) pre ->
      __doc__ f = Some doc ->
      py_index (py_split_on ":" (replace_char " " "" doc)) 1 = Ok clean_format ->
      String.length clean_format <> (isize self * 8)%nat ->
      decode self instr = Raise (ISAError FormatBits)).
Proof.
  split.
  - intros cls. unfold IsaDefinition__init__. eauto.
  - intros self instr pre f post doc cf Hcat Hlen Hpre Hdoc Hcf Hne.
    unfold decode. rewrite Hcat, decode_loop_first by exact Hpre.
    unfold _pattern_match, _extract_pattern.
    rewrite Hlen, Nat.eqb_refl, Hdoc, Hcf. cbn.
    destruct (Nat.eqb_spec (String.length cf) (isize self * 8)); [contradiction |].
    reflexivity.
Qed.

Lemma template_length_checked_by_decode_witness :
  let f := {| __name__ := "instruction_addi";
              __doc__ := Some "add immediate : 001000 sssss ttttt iiiiiiiiiiiiiii : addi $t $s !i";
              call := fun _ => ret tt |} in
  let self := {| _ifuncs := [f]; endian := big; isize := 4;
                 finalize_execution := None |} in
  decode self [x21; x08; x00; x04] = Raise (ISAError FormatBits).
Proof.
  intros f self.
  apply (proj2 template_length_checked_by_decode self [x21; x08; x00; x04] [] f []
           "add immediate : 001000 sssss ttttt iiiiiiiiiiiiiii : addi $t $s !i"
           "001000ssssstttttiiiiiiiiiiiiiii").
  - reflexivity.
  - reflexivity.
  - constructor.
  - reflexivity.
  - vm_compute. reflexivity.
  - vm_compute. lia.
Defined.

(** C3, as stated, fails: the class with a 31-character template is
    constructed without an error, and the error comes out of the first
    [decode]. *)
Lemma template_length_construction_counterexample :
  match IsaDefinition__init__ short_template_class with
  | Ok (self, _) =>
      Some (__name__ <$> _ifuncs self, decode_name self [x21; x08; x00; x04])
  | Raise _ => None
  end
  = Some (["instruction_addi"], Raise (ISAError FormatBits)).
Proof. vm_compute. reflexivity. Qed.

(** C8 (amended).  When the catalog has at least one entry, every buffer
    whose length differs from the instruction width makes [decode] raise
    the ISAError of the length check of [_pattern_match], on the first
    entry and before its template is read; no entry is ever matched against
    such a buffer.  With an empty catalog [decode] raises its own ISAError
    ("Unable to decode") for every buffer. *)
Theorem decode_wrong_length (self : IsaDefinition) (instr : list byte) :
  length instr <> isize self ->
  (forall ifunc, _pattern_match self ifunc instr = Raise (ISAError InstructionBytes)) /\
  (_ifuncs self <> [] -> decode self instr = Raise (ISAError InstructionBytes)) /\
  (_ifuncs self = [] -> decode self instr = Raise (ISAError UnableToDecode)).
Proof.
  intros Hlen. split; [| split].
  - intros ifunc. apply pattern_match_wrong_length, Hlen.
  - unfold decode. destruct (_ifuncs self) as [| f l]; [congruence |]. intros _.
    cbn. now rewrite pattern_match_wrong_length by exact Hlen.
  - unfold decode. intros ->. reflexivity.
Qed.

Lemma decode_wrong_length_witness :
  let self := {| _ifuncs := [instruction_nop]; endian := big; isize := 4;
                 finalize_execution := None |} in
  decode self [x00; x00; x00] = Raise (ISAError InstructionBytes).
Proof.
  intros self.
  apply (proj1 (proj2 (decode_wrong_length self [x00; x00; x00] ltac:(cbn; lia)))).
  discriminate.
Defined.

(** C8, as stated, fails on [IsaDefinition] itself, whose catalog is
    empty: a three-byte buffer makes [decode] raise "Unable to decode",
    not the length error. *)
Lemma decode_wrong_length_counterexample :
  match IsaDefinition__init__ bare_class with
  | Ok (self, _) =>
      Some (isize self, length (_ifuncs self), decode_name self [x00; x00; x00])
  | Raise _ => None
  end
  = Some (4%nat, 0%nat, Raise (ISAError UnableToDecode)).
Proof. vm_compute. reflexivity. Qed.

(** ** The step loop *)

Lemma bind_ok {A B} (c : M A) (k : A -> M B) (m m' : machine) (b : B) :
  bind c k m = (Ok b, m') ->
  exists a m1, c m = (Ok a, m1) /\ k a m1 = (Ok b, m').
Proof.
  unfold bind. destruct (c m) as [[a | e] m1]; [eauto | discriminate].
Qed.

Lemma lift_ok {A} (r : result A) (m m' : machine) (a : A) :
  lift r m = (Ok a, m') -> r = Ok a /\ m' = m.
Proof. unfold lift. intros [= -> ->]. auto. Qed.

Lemma self_attr_ok (name : string) (m m' : machine) (v : value) :
  self_attr name m = (Ok v, m') -> attrs m !! name = Some v /\ m' = m.
Proof.
  unfold self_attr, getattr. destruct (attrs m !! name); intros [= <- <-]; auto.
Qed.

Lemma get_int_ok (name : string) (m m' : machine) (n : Z) :
  get_int name m = (Ok n, m') -> attrs m !! name = Some (VInt n) /\ m' = m.
Proof.
  unfold get_int, getattr. destruct (attrs m !! name) as [[x | d] |]; cbn;
    intros [= <- <-]; auto.
Qed.

Lemma setattr_ok (name : string) (v : value) (m m' : machine) (r : result unit) :
  setattr name v m = (r, m') ->
  r = Ok tt /\ attrs m' = <[name := v]> (attrs m) /\ _mem m' = _mem m /\
  _reg_list m' = _reg_list m.
Proof. unfold setattr. intros [= <- <-]. auto. Qed.

Lemma set_item_ok (name : string) (i x : Z) (m m' : machine) :
  set_item name i x m = (Ok tt, m') ->
  exists d, attrs m !! name = Some (VDict d) /\
            attrs m' = <[name := VDict (<[i := x]> d)]> (attrs m) /\
            _mem m' = _mem m /\ _reg_list m' = _reg_list m.
Proof.
  unfold set_item, getattr. destruct (attrs m !! name) as [[n | d] |]; cbn;
    try discriminate.
  intros H. apply setattr_ok in H. exists d. tauto.
Qed.

Lemma fetch_pure (self : IsaDefinition) (m : machine) : snd (fetch self m) = m.
Proof. reflexivity. Qed.

Lemma fetch_ok (self : IsaDefinition) (m m' : machine) (instr : list byte) :
  fetch self m = (Ok instr, m') ->
  m' = m /\
  exists pc buf,
    attrs m !! "PC" = Some (VInt pc) /\ _mem m = Some buf /\
    instr = py_slice buf pc (pc + Z.of_nat (isize self)).
Proof.
  unfold fetch, getattr, mem_read. intros [= H <-]. split; [reflexivity |].
  destruct (attrs m !! "PC") as [[pc | d] |]; cbn in H; try discriminate.
  destruct (_mem m) as [buf |]; [| discriminate].
  injection H as <-. eauto.
Qed.

(** C4 (amended).  [fetch] and [decode] do not touch the machine, so a
    [step] that fails in either of them hands the machine back exactly as
    it was; a [step] whose decode succeeds continues with execute, the
    hook and the disassembly, and a failure there keeps whatever these had
    written before it. *)
Theorem step_failure_before_execute (self : IsaDefinition) (m : machine) :
  (forall e, fst (fetch self m) = Raise e -> step self m = (Raise e, m)) /\
  (forall instr e,
      fst (fetch self m) = Ok instr ->
      decode self instr = Raise e ->
      step self m = (Raise e, m)) /\
  (forall instr decoded_instr,
      fst (fetch self m) = Ok instr ->
      decode self instr = Ok decoded_instr ->
      step self m = after_decode self decoded_instr m).
Proof.
  pose proof (fetch_pure self m) as Hpure.
  unfold step, after_decode, bind.
  destruct (fetch self m) as [[instr | e0] m0]; cbn in Hpure; subst m0;
    cbn [fst]; (split; [| split]).
  - discriminate.
  - intros ? e [= <-] Hd. unfold lift. now rewrite Hd.
  - intros ? d [= <-] Hd. unfold lift at 1. now rewrite Hd.
  - intros e [= <-]. reflexivity.
  - discriminate.
  - discriminate.
Qed.

Lemma step_failure_before_execute_witness :
  let self := {| _ifuncs := [instruction_li]; endian := big; isize := 4;
                 finalize_execution := None |} in
  let unmapped := {| attrs := {[ "PC" := VInt 0 ]}; _reg_list := [];
                     _mem := None |} in
  let m := {| attrs := {[ "PC" := VInt 0 ]}; _reg_list := [];
              _mem := Some [xff; xff; xff; xff] |} in
  step self unmapped = (Raise TypeError, unmapped) /\
  step self m = (Raise (ISAError UnableToDecode), m).
Proof.
  intros self unmapped m. split.
  - apply (proj1 (step_failure_before_execute self unmapped)).
    vm_compute. reflexivity.
  - apply (proj1 (proj2 (step_failure_before_execute self m)) [xff; xff; xff; xff]).
    + vm_compute. reflexivity.
    + vm_compute. reflexivity.
Defined.

(** C4, as stated, fails: the step of [li $8, 5] writes register 8 and then
    fails in the disassembly, on the token [i] of its template; the machine
    it leaves has the new register value. *)
Lemma step_atomic_counterexample :
  match li_machine with
  | Ok (self, m) =>
      let '(r, m') := step self m in
      Some (r, file_entry m "R" 8, file_entry m' "R" 8)
  | Raise _ => None
  end
  = Some (Raise (ISAError UnknownOperandSpecifier), Some 0, Some 5).
Proof. vm_compute. reflexivity. Qed.

(** ** The MIPS hook *)

Ltac inv_step H :=
  let a := fresh "a" in
  let m1 := fresh "m" in
  let H1 := fresh "H" in
  apply bind_ok in H; destruct H as (a & m1 & H1 & H);
  first
    [ apply lift_ok in H1; destruct H1 as [H1 ->]
    | apply self_attr_ok in H1; destruct H1 as [H1 ->]
    | apply get_int_ok in H1; destruct H1 as [H1 ->]
    | idtac ].

Section MipsStep.

Variable helpers_sign_extend : Z -> Z -> result Z.
Variable helpers_bit_select : Z -> Z -> Z -> result Z.

Lemma Mips_init_fields (self : IsaDefinition) (m0 : machine) :
  Mips__init__ helpers_sign_extend helpers_bit_select = Ok (self, m0) ->
  _ifuncs self = [instruction_add; instruction_addi helpers_sign_extend;
                  instruction_j helpers_bit_select; instruction_nop] /\
  isize self = 4%nat /\
  finalize_execution self = Some Mips_finalize_execution.
Proof. intros [= <- _]. split; [reflexivity | split; reflexivity]. Qed.

Lemma add_keeps_PC (ifield : namespace) (m m1 : machine) :
  call instruction_add ifield m = (Ok tt, m1) ->
  attrs m1 !! "PC" = attrs m !! "PC".
Proof.
  cbn [call instruction_add]. intros H.
  do 7 inv_step H.
  apply set_item_ok in H. destruct H as (d & _ & -> & _).
  now rewrite lookup_insert_ne.
Qed.

Lemma addi_keeps_PC (ifield : namespace) (m m1 : machine) :
  call (instruction_addi helpers_sign_extend) ifield m = (Ok tt, m1) ->
  attrs m1 !! "PC" = attrs m !! "PC".
Proof.
  cbn [call instruction_addi]. intros H.
  do 6 inv_step H.
  apply set_item_ok in H. destruct H as (d & _ & -> & _).
  now rewrite lookup_insert_ne.
Qed.

(** What the jump writes: the top four bits of [PC + 4], as the helper
    selects them, plus the word address of the field [a]. *)
Lemma j_assigns_PC (ifield : namespace) (m m1 : machine) :
  call (instruction_j helpers_bit_select) ifield m = (Ok tt, m1) ->
  exists pc upper_bits a,
    attrs m !! "PC" = Some (VInt pc) /\
    helpers_bit_select (pc + 4) 31 28 = Ok upper_bits /\
    ifield !! "a" = Some a /\
    attrs m1 !! "PC" = Some (VInt (upper_bits + Z.shiftl a 2)).
Proof.
  cbn [call instruction_j]. intros H.
  apply bind_ok in H. destruct H as (pc & ma & Hpc & H).
  apply get_int_ok in Hpc. destruct Hpc as [Hpc ->].
  apply bind_ok in H. destruct H as (ub & mb & Hub & H).
  apply lift_ok in Hub. destruct Hub as [Hub ->].
  apply bind_ok in H. destruct H as (av & mc & Ha & H).
  apply lift_ok in Ha. destruct Ha as [Ha ->].
  apply bind_ok in H. destruct H as (tg & md & Ht & H).
  apply lift_ok in Ht. destruct Ht as [Ht ->].
  apply setattr_ok in H. destruct H as (_ & -> & _).
  revert Ha. unfold field.
  destruct (ifield !! "a") as [a' |] eqn:Ea; [| discriminate].
  intros [= ->]. unfold py_lshift in Ht. change (2 <? 0) with false in Ht.
  injection Ht as <-.
  exists pc, ub, av. rewrite lookup_insert_eq. auto.
Qed.

Lemma finalize_ok (ifunction : method) (ifields : namespace) (m1 m2 : machine) :
  Mips_finalize_execution (ifunction, ifields) m1 = (Ok tt, m2) ->
  file_entry m2 "R" 0 = Some 0 /\
  (in_jumps ifunction = true -> attrs m2 !! "PC" = attrs m1 !! "PC") /\
  (in_jumps ifunction = false ->
   exists pc, attrs m1 !! "PC" = Some (VInt pc) /\
              attrs m2 !! "PC" = Some (VInt (pc + 4))).
Proof.
  unfold Mips_finalize_execution. intros H.
  apply bind_ok in H. destruct H as ([] & m & Hset & H).
  apply set_item_ok in Hset. destruct Hset as (d & _ & Hm & _).
  destruct (in_jumps ifunction); cbn [negb] in H.
  - injection H as <-. unfold file_entry. rewrite Hm, lookup_insert_eq, lookup_insert_eq.
    split; [reflexivity |]. split; [| discriminate].
    intros _. now rewrite lookup_insert_ne.
  - apply bind_ok in H. destruct H as (pc & mp & Hpc & H).
    apply get_int_ok in Hpc. destruct Hpc as [Hpc ->].
    apply setattr_ok in H. destruct H as (_ & Hm2 & _).
    unfold file_entry. rewrite Hm2, lookup_insert_ne, Hm, lookup_insert_eq by discriminate.
    rewrite lookup_insert_eq. split; [reflexivity |]. split; [discriminate |].
    intros _. exists pc. rewrite Hm, lookup_insert_ne in Hpc by discriminate.
    split; [exact Hpc |]. apply lookup_insert_eq.
Qed.

(** C5.  After every successful [step] of the MIPS machine, whatever
    state it started in: register 0 of the file [R] is 0; when the decoded
    instruction is not in [jumps] the program counter is its value before
    the step plus the instruction width (4 bytes); when it is in [jumps]
    the program counter is exactly what the action left in it. *)
Theorem Mips_step_zero_register_and_PC (self : IsaDefinition) (m0 m m' : machine)
    (out : string) :
  Mips__init__ helpers_sign_extend helpers_bit_select = Ok (self, m0) ->
  step self m = (Ok out, m') ->
  exists pc instr ifunc flds m1,
    attrs m !! "PC" = Some (VInt pc) /\
    fst (fetch self m) = Ok instr /\
    decode self instr = Ok (ifunc, flds) /\
    call ifunc flds m = (Ok tt, m1) /\
    file_entry m' "R" 0 = Some 0 /\
    (in_jumps ifunc = false ->
     attrs m' !! "PC" = Some (VInt (pc + Z.of_nat (isize self)))) /\
    (in_jumps ifunc = true ->
     attrs m' !! "PC" = attrs m1 !! "PC" /\
     exists upper_bits a,
       helpers_bit_select (pc + 4) 31 28 = Ok upper_bits /\
       flds !! "a" = Some a /\
       attrs m1 !! "PC" = Some (VInt (upper_bits + Z.shiftl a 2))).
Proof.
  intros Hinit Hstep.
  destruct (Mips_init_fields _ _ Hinit) as (Hcat & Hsize & Hhook).
  unfold step in Hstep. rewrite Hhook in Hstep.
  apply bind_ok in Hstep. destruct Hstep as (instr & mf & Hfetch & Hstep).
  destruct (fetch_ok _ _ _ _ Hfetch) as (-> & pc & buf & Hpc & _ & _).
  apply bind_ok in Hstep. destruct Hstep as ([ifunc flds] & md & Hdec & Hstep).
  apply lift_ok in Hdec. destruct Hdec as [Hdec ->].
  apply bind_ok in Hstep. destruct Hstep as ([] & m1 & Hexec & Hstep).
  apply bind_ok in Hstep. destruct Hstep as ([] & m2 & Hfin & Hstep).
  apply lift_ok in Hstep. destruct Hstep as [_ ->].
  cbn [execute] in Hexec.
  destruct (finalize_ok _ _ _ _ Hfin) as (Hzero & Hjump & Hseq).
  exists pc, instr, ifunc, flds, m1. rewrite Hfetch. cbn [fst].
  assert (ifunc ∈ [instruction_add; instruction_addi helpers_sign_extend;
                   instruction_j helpers_bit_select; instruction_nop]) as Hcases.
  { pose proof Hdec as Hd. unfold decode in Hd. apply decode_loop_inv in Hd.
    destruct Hd as (pre & post & Hin & _ & _). rewrite Hcat in Hin.
    rewrite Hin. apply elem_of_app. right. left. }
  repeat (split; [first [exact Hpc | reflexivity | assumption] |]).
  split.
  2:{ intros Hj. split; [exact (Hjump Hj) |].
      repeat (apply elem_of_cons in Hcases; destruct Hcases as [-> | Hcases]);
        try discriminate Hj; [| inversion Hcases].
      destruct (j_assigns_PC _ _ _ Hexec) as (pc' & ub & a & Hpc' & Hub & Ha & Hnew).
      rewrite Hpc in Hpc'. injection Hpc' as <-. eauto. }
  intros Hnj. destruct (Hseq Hnj) as (pc1 & Hpc1 & Hpc2).
  rewrite Hpc2, Hsize. do 2 f_equal.
  assert (attrs m1 !! "PC" = attrs m !! "PC") as Hkeep.
  { pose proof Hcases as Hmem.
    repeat (apply elem_of_cons in Hmem; destruct Hmem as [-> | Hmem]).
    - eapply add_keeps_PC, Hexec.
    - eapply addi_keeps_PC, Hexec.
    - discriminate Hnj.
    - cbn in Hexec. now injection Hexec as <-.
    - inversion Hmem. }
  rewrite Hkeep, Hpc in Hpc1. injection Hpc1 as <-. reflexivity.
Qed.

End MipsStep.

Lemma Mips_step_zero_register_and_PC_witness :
  let m := snd (mem_write 0 [x21; x08; x00; x04] (snd (mem_map 0 16 Mips_registers))) in
  let m' := snd (step Mips_isa m) in
  Mips_new = Ok (Mips_isa, Mips_registers) /\
  step Mips_isa m = (Ok "addi $8 $8 0x4", m') /\
  file_entry m' "R" 0 = Some 0 /\
  attrs m' !! "PC" = Some (VInt 4).
Proof.
  intros m m'.
  assert (Mips_new = Ok (Mips_isa, Mips_registers)) as Hinit by reflexivity.
  assert (step Mips_isa m = (Ok "addi $8 $8 0x4", m')) as Hstep
    by (vm_compute; reflexivity).
  split; [exact Hinit |]. split; [exact Hstep |].
  destruct (Mips_step_zero_register_and_PC sign_extend
              (fun v u l => bit_select v u l false)
              Mips_isa Mips_registers m m' _ Hinit Hstep)
    as (pc & instr & ifunc & flds & m1 & Hpc & Hf & Hd & _ & Hz & Hnj & _).
  split; [exact Hz |].
  assert (attrs m !! "PC" = Some (VInt 0)) as Hpc0 by (vm_compute; reflexivity).
  rewrite Hpc0 in Hpc. injection Hpc as <-.
  assert (fst (fetch Mips_isa m) = Ok [x21; x08; x00; x04]) as Hf0
    by (vm_compute; reflexivity).
  rewrite Hf0 in Hf. injection Hf as <-.
  assert (decode_name Mips_isa [x21; x08; x00; x04] = Ok "instruction_addi") as Hn
    by (vm_compute; reflexivity).
  pose proof (decode_name_ok _ _ _ _ Hd) as Hn'. rewrite Hn in Hn'.
  injection Hn' as Hn'.
  apply Hnj. unfold in_jumps. rewrite <- Hn'. reflexivity.
Defined.

(** ** Disassembly *)

Lemma format_part_operand (ifield : namespace) (i : nat) (s : sigil) (c : ascii) (v : Z) :
  ifield !! String c "" = Some v ->
  format_part ifield (S i) (operand_token s c) = Ok (render s v).
Proof.
  intros Hv. unfold format_part, operand_field, field. cbn [Nat.eqb].
  destruct s; cbn; rewrite Hv; reflexivity.
Qed.

Lemma format_part_unknown (ifield : namespace) (i : nat) (part : string) :
  startswith part "$" = false ->
  startswith part "@" = false ->
  startswith part "!" = false ->
  format_part ifield (S i) part = Raise (ISAError UnknownOperandSpecifier).
Proof.
  intros H1 H2 H3. unfold format_part. cbn [Nat.eqb]. now rewrite H1, H2, H3.
Qed.

Lemma format_parts_operands (ifield : namespace) (ops : list (sigil * ascii * Z)) :
  Forall (fun o => ifield !! String (snd (fst o)) "" = Some (snd o)) ops ->
  forall i,
    format_parts ifield (S i) ((fun o => operand_token (fst (fst o)) (snd (fst o))) <$> ops)
    = Ok ((fun o => render (fst (fst o)) (snd o)) <$> ops).
Proof.
  induction 1 as [| [[s c] v] ops Hv _ IH]; intros i; [reflexivity |].
  cbn [fmap list_fmap format_parts fst snd] in *.
  rewrite (format_part_operand _ _ _ _ _ Hv). cbn [rbind].
  rewrite IH. reflexivity.
Qed.

Lemma format_parts_unknown (ifield : namespace) (ops : list (sigil * ascii * Z))
    (bad : string) (rest : list string) :
  Forall (fun o => ifield !! String (snd (fst o)) "" = Some (snd o)) ops ->
  startswith bad "$" = false ->
  startswith bad "@" = false ->
  startswith bad "!" = false ->
  forall i,
    format_parts ifield (S i)
      (((fun o => operand_token (fst (fst o)) (snd (fst o))) <$> ops) ++ bad :: rest)
    = Raise (ISAError UnknownOperandSpecifier).
Proof.
  intros Hops H1 H2 H3.
  induction Hops as [| [[s c] v] ops Hv _ IH]; intros i.
  - cbn [fmap list_fmap app format_parts]. now rewrite format_part_unknown.
  - cbn [fmap list_fmap app format_parts fst snd] in *.
    rewrite (format_part_operand _ _ _ _ _ Hv). cbn [rbind].
    fold (@fmap list _ _ _ (fun o : sigil * ascii * Z =>
                              operand_token (fst (fst o)) (snd (fst o))) ops).
    rewrite IH. reflexivity.
Qed.

(** C6.  For a template whose tokens are a mnemonic followed by operand
    references to fields of the field set, [_format_asm] returns the
    mnemonic and one rendered token per operand, joined by single spaces: a
    register operand as ['$'] and the decimal field value, an address
    operand as the hexadecimal of the value shifted left by 2, an immediate
    operand as the hexadecimal of the value.  When such operands are
    followed by a token that starts with none of the three sigils,
    [_format_asm] raises the ISAError of the unknown operand specifier.
    On the MIPS machine the bytes of Scenario 1 are disassembled as
    ["addi $8 $8 0x4"]. *)
Theorem format_asm_spec :
  (forall asm_pattern ifield mnemonic (ops : list (sigil * ascii * Z)),
      py_split asm_pattern
      = mnemonic :: ((fun o => operand_token (fst (fst o)) (snd (fst o))) <$> ops) ->
      Forall (fun o => ifield !! String (snd (fst o)) "" = Some (snd o)) ops ->
      _format_asm asm_pattern ifield
      = Ok (String.concat " "
              (mnemonic :: ((fun o => render (fst (fst o)) (snd o)) <$> ops)))) /\
  (forall asm_pattern ifield mnemonic (ops : list (sigil * ascii * Z)) bad rest,
      py_split asm_pattern
      = mnemonic :: (((fun o => operand_token (fst (fst o)) (snd (fst o))) <$> ops)
                       ++ bad :: rest) ->
      Forall (fun o => ifield !! String (snd (fst o)) "" = Some (snd o)) ops ->
      startswith bad "$" = false ->
      startswith bad "@" = false ->
      startswith bad "!" = false ->
      _format_asm asm_pattern ifield = Raise (ISAError UnknownOperandSpecifier)) /\
  (forall self m,
      Mips_new = Ok (self, m) ->
      (let? d := decode self [x21; x08; x00; x04] in
       let? asm_pattern := _extract_asm (fst d) in
       let? text := istring d in
       Ok (asm_pattern, text))%result
      = Ok ("addi $t $s !i", "addi $8 $8 0x4")).
Proof.
  split; [| split].
  - intros asm_pattern ifield mnemonic ops Htok Hops.
    unfold _format_asm. rewrite Htok. cbn [format_parts format_part Nat.eqb rbind].
    rewrite format_parts_operands by exact Hops. reflexivity.
  - intros asm_pattern ifield mnemonic ops bad rest Htok Hops H1 H2 H3.
    unfold _format_asm. rewrite Htok. cbn [format_parts format_part Nat.eqb rbind].
    rewrite format_parts_unknown by assumption. reflexivity.
  - intros self m [= <- _]. vm_compute. reflexivity.
Qed.

Lemma format_asm_spec_witness :
  let ifield : namespace := <["s" := 8]> (<["t" := 8]> (<["i" := 4]> (<["a" := 3]> ∅))) in
  _format_asm "addi $t $s !i" ifield = Ok "addi $8 $8 0x4" /\
  _format_asm "j @a" ifield = Ok "j 0xc" /\
  _format_asm "li $t i" ifield = Raise (ISAError UnknownOperandSpecifier).
Proof.
  intros ifield. split; [| split].
  - apply (proj1 format_asm_spec "addi $t $s !i" ifield "addi"
             [(SRegister, "t"%char, 8); (SRegister, "s"%char, 8);
              (SImmediate, "i"%char, 4)]).
    + vm_compute. reflexivity.
    + repeat constructor.
  - apply (proj1 format_asm_spec "j @a" ifield "j" [(SAddress, "a"%char, 3)]).
    + vm_compute. reflexivity.
    + repeat constructor.
  - apply (proj1 (proj2 format_asm_spec) "li $t i" ifield "li"
             [(SRegister, "t"%char, 8)] "i" []).
    + vm_compute. reflexivity.
    + repeat constructor.
    + reflexivity.
    + reflexivity.
    + reflexivity.
Defined.

(** ** Register enumeration *)

Lemma py_range_elem (n i : Z) : i ∈ py_range n <-> 0 <= i < n.
Proof.
  unfold py_range. rewrite list_elem_of_fmap. split.
  - intros (k & -> & Hk). apply elem_of_seq in Hk. lia.
  - intros Hi. exists (Z.to_nat i). split; [lia |]. apply elem_of_seq. lia.
Qed.

Lemma py_range_NoDup (n : Z) : NoDup (py_range n).
Proof.
  unfold py_range. apply NoDup_fmap; [apply Nat2Z.inj' | apply NoDup_seq].
Qed.

Lemma dict_of_range_lookup {A} (size : Z) (f : Z -> A) (i : Z) :
  0 <= i < size -> dict_of_range size f !! i = Some (f i).
Proof.
  intros Hi. unfold dict_of_range. apply elem_of_list_to_map_1.
  - assert (forall l : list Z, ((fun x => (x, f x)) <$> l).*1 = l) as Hfst.
    { induction l as [| x l IH]; cbn; [reflexivity | now rewrite IH]. }
    rewrite Hfst. apply py_range_NoDup.
  - apply list_elem_of_fmap. exists i. split; [reflexivity |]. now apply py_range_elem.
Qed.

Lemma rmapM_ok {A B} (f : A -> result B) (g : A -> B) (l : list A) :
  (forall a, a ∈ l -> f a = Ok (g a)) -> rmapM f l = Ok (g <$> l).
Proof.
  induction l as [| a l IH]; intros Hall; [reflexivity |].
  cbn. rewrite (Hall a) by left. cbn. rewrite IH; [reflexivity |].
  intros b Hb. apply Hall. now right.
Qed.

Lemma declare_all_reg_list (ds : list decl) :
  forall m, _reg_list (declare_all ds m) = (_reg_list m ++ (entry_of <$> ds))%list.
Proof.
  induction ds as [| d ds IH]; intros m; cbn.
  - now rewrite app_nil_r.
  - unfold declare_all in IH. rewrite IH. destruct d; cbn; now rewrite <- app_assoc.
Qed.

Lemma declare_attrs (d : decl) (m : machine) :
  attrs (declare d m) = <[decl_name d := init_value d]> (attrs m).
Proof. destruct d; reflexivity. Qed.

Lemma declare_all_attrs_other (ds : list decl) (n : string) :
  forall m,
    n ∉ decl_name <$> ds ->
    attrs (declare_all ds m) !! n = attrs m !! n.
Proof.
  induction ds as [| d ds IH]; intros m Hn; [reflexivity |].
  cbn in Hn. apply not_elem_of_cons in Hn. destruct Hn as [Hne Hn].
  cbn. unfold declare_all in IH. rewrite IH by exact Hn.
  rewrite declare_attrs. now apply lookup_insert_ne.
Qed.

Lemma declare_all_attrs (ds : list decl) :
  forall m d,
    NoDup (decl_name <$> ds) ->
    d ∈ ds ->
    attrs (declare_all ds m) !! decl_name d = Some (init_value d).
Proof.
  induction ds as [| d0 ds IH]; intros m d Hnd Hd; [inversion Hd |].
  cbn in Hnd. apply NoDup_cons in Hnd. destruct Hnd as [Hfresh Hnd].
  apply elem_of_cons in Hd. destruct Hd as [-> | Hd].
  - cbn. fold (declare_all ds (declare d0 m)).
    rewrite declare_all_attrs_other by exact Hfresh.
    rewrite declare_attrs. apply lookup_insert_eq.
  - cbn. apply IH; assumption.
Qed.

Lemma decl_name_inj (ds : list decl) (d1 d2 : decl) :
  NoDup (decl_name <$> ds) ->
  d1 ∈ ds -> d2 ∈ ds -> decl_name d1 = decl_name d2 -> d1 = d2.
Proof.
  induction ds as [| d ds IH]; intros Hnd H1 H2 Hn; [inversion H1 |].
  cbn in Hnd. apply NoDup_cons in Hnd. destruct Hnd as [Hfresh Hnd].
  apply elem_of_cons in H1. apply elem_of_cons in H2.
  destruct H1 as [-> | H1], H2 as [-> | H2]; [reflexivity | | | now apply IH].
  - exfalso. apply Hfresh. rewrite Hn. apply list_elem_of_fmap. eauto.
  - exfalso. apply Hfresh. rewrite <- Hn. apply list_elem_of_fmap. eauto.
Qed.

Lemma declared_shaped (ds : list decl) :
  NoDup (decl_name <$> ds) -> shaped ds (declare_all ds new_machine).
Proof.
  intros Hnd. split; [apply declare_all_reg_list |].
  intros d Hd. pose proof (declare_all_attrs ds new_machine d Hnd Hd) as Ha.
  destruct d as [name bits | name size bits rnames]; cbn in Ha.
  - eauto.
  - eexists. split; [exact Ha |]. intros i Hi.
    rewrite dict_of_range_lookup by exact Hi. eauto.
Qed.

Lemma written_shaped (ds : list decl) (m : machine) :
  NoDup (decl_name <$> ds) -> written ds m -> shaped ds m.
Proof.
  intros Hnd. induction 1 as [| m name bits v _ IH Hin | m name size bits rnames i v _ IH Hin Hi].
  - now apply declared_shaped.
  - destruct IH as [Hlist Hattrs]. split; [exact Hlist |].
    intros d Hd. cbn [snd setattr attrs].
    destruct (decide (decl_name d = name)) as [Hn | Hn].
    + assert (d = DeclRegister name bits) as ->
        by (eapply decl_name_inj; eauto).
      exists v. apply lookup_insert_eq.
    + specialize (Hattrs d Hd). destruct d; cbn in Hn.
      * destruct Hattrs as (x & Hx). exists x.
        rewrite lookup_insert_ne by congruence. exact Hx.
      * destruct Hattrs as (g & Hg & Hcov). exists g.
        rewrite lookup_insert_ne by congruence. auto.
  - destruct IH as [Hlist Hattrs].
    destruct (Hattrs _ Hin) as (f & Hf & Hcover).
    unfold set_item, getattr. rewrite Hf. cbn [snd setattr attrs _reg_list].
    split; [exact Hlist |].
    intros d Hd. cbn [snd setattr attrs].
    destruct (decide (decl_name d = name)) as [Hn | Hn].
    + assert (d = DeclFile name size bits rnames) as ->
        by (eapply decl_name_inj; eauto).
      eexists. split; [apply lookup_insert_eq |].
      intros k Hk. destruct (decide (i = k)) as [-> | Hne].
      * rewrite lookup_insert_eq. eauto.
      * rewrite lookup_insert_ne by exact Hne. now apply Hcover.
    + specialize (Hattrs d Hd). destruct d; cbn in Hn.
      * destruct Hattrs as (x & Hx). exists x.
        rewrite lookup_insert_ne by congruence. exact Hx.
      * destruct Hattrs as (g & Hg & Hcov). exists g.
        rewrite lookup_insert_ne by congruence. auto.
Qed.

Lemma overrides_cover_lookup (ds : list decl) (name : string) (size bits : Z)
    (r : gmap Z string) (i : Z) :
  overrides_cover ds = true ->
  DeclFile name size bits (Some r) ∈ ds ->
  0 <= i < size ->
  r !! i = Some (default "" (r !! i)).
Proof.
  unfold overrides_cover. rewrite forallb_forall. intros Hcov Hd Hi.
  specialize (Hcov _ (proj1 (list_elem_of_In _ _) Hd)). cbn in Hcov.
  rewrite forallb_forall in Hcov.
  specialize (Hcov i (proj1 (list_elem_of_In _ _) (proj2 (py_range_elem _ _) Hi))).
  apply bool_decide_eq_true_1 in Hcov. destruct Hcov as [s ->]. reflexivity.
Qed.

Lemma registers_of_shaped (ds : list decl) (m : machine) :
  overrides_cover ds = true ->
  shaped ds m ->
  registers m = Ok (concat (triples_of m <$> ds)).
Proof.
  intros Hcov [Hlist Hattrs]. unfold registers. rewrite Hlist.
  assert (rmapM (registers_of_entry m) (entry_of <$> ds) = Ok (triples_of m <$> ds))
    as ->; [| reflexivity].
  assert (forall l, (forall d, d ∈ l -> d ∈ ds) ->
                    rmapM (registers_of_entry m) (entry_of <$> l)
                    = Ok (triples_of m <$> l)) as Hgen; [| now apply Hgen].
  induction l as [| d l IH]; intros Hsub; [reflexivity |].
  cbn [fmap list_fmap rmapM].
  fold (@fmap list _ _ _ entry_of l). fold (@fmap list _ _ _ (triples_of m) l).
  rewrite IH by (intros x Hx; apply Hsub; now right).
  assert (registers_of_entry m (entry_of d) = Ok (triples_of m d)) as ->;
    [| reflexivity].
  assert (d ∈ ds) as Hd by (apply Hsub; left).
  specialize (Hattrs d Hd).
  destruct d as [name bits | name size bits rnames]; cbn [entry_of registers_of_entry triples_of].
  - destruct Hattrs as (v & Hv). unfold getattr. rewrite Hv. reflexivity.
  - destruct Hattrs as (f & Hf & Hcover).
    apply rmapM_ok. intros i Hi. apply py_range_elem in Hi.
    unfold getattr, file_entry. rewrite Hf. cbn [rbind subscript].
    destruct (Hcover i Hi) as [x Hx]. rewrite Hx. cbn [default].
    destruct rnames as [r |]; cbn [display_name].
    + rewrite (overrides_cover_lookup _ _ _ _ _ _ Hcov Hd Hi). reflexivity.
    + rewrite dict_of_range_lookup by exact Hi. reflexivity.
Qed.

(** C9 (amended).  For an object of a class [cls] on which scalar
    registers and register files are declared under pairwise distinct
    names, none of them a name the object uses for itself
    ([object_attribute]: [setattr] would replace that attribute), in which
    every supplied table of display names has an entry for each index of
    its file, and for every state this machine reaches by register writes:
    every scalar holds an integer and every file a value at each index
    below its size, and [registers] yields one triple (display name, bit
    width, current value) per register, in declaration order, each file
    expanded as the indices [0 .. size-1], the display name of an entry
    being the supplied one or, without a table, ["$<name><index>"]. *)
Theorem registers_declaration_order (cls : pyclass) (ds : list decl) (m : machine) :
  register_names cls ds = true ->
  NoDup (decl_name <$> ds) ->
  overrides_cover ds = true ->
  written ds m ->
  shaped ds m /\
  registers m = Ok (concat (triples_of m <$> ds)).
Proof.
  intros _ Hnd Hcov Hw. pose proof (written_shaped ds m Hnd Hw) as Hs.
  split; [exact Hs |]. now apply registers_of_shaped.
Qed.

Lemma registers_declaration_order_witness :
  let ds := [DeclFile "R" 2 32 None; DeclRegister "PC" 32;
             DeclFile "F" 1 64 (Some {[ 0 := "$f" ]})] in
  let m := snd (set_item "R" 1 7 (declare_all ds new_machine)) in
  registers m
  = Ok [("$R0", 32, VInt 0); ("$R1", 32, VInt 7); ("PC", 32, VInt 0);
        ("$f", 64, VInt 0)].
Proof.
  intros ds m.
  assert (register_names bare_class ds = true) as Hfree by (vm_compute; reflexivity).
  assert (NoDup (decl_name <$> ds)) as Hnd
    by (apply (bool_decide_unpack _); vm_compute; reflexivity).
  assert (overrides_cover ds = true) as Hcov by (vm_compute; reflexivity).
  assert (written ds m) as Hw.
  { apply (written_entry ds _ "R" 2 32 None 1 7).
    - apply written_declared.
    - left.
    - lia. }
  rewrite (proj2 (registers_declaration_order bare_class ds m Hfree Hnd Hcov Hw)).
  vm_compute. reflexivity.
Defined.

(** C9, as stated, fails when a supplied table of display names lacks an
    index (the enumeration raises KeyError instead of falling back to
    ["$R1"]), and when two declarations share a name (the later [setattr]
    replaces the file by an integer, and the enumeration raises
    TypeError). *)
Lemma registers_declaration_order_counterexample :
  registers
    (declare_all [DeclFile "R" 2 32 (Some {[ 0 := "$zero" ]})] new_machine)
  = Raise KeyError /\
  registers
    (declare_all [DeclFile "A" 2 32 None; DeclRegister "A" 32] new_machine)
  = Raise TypeError.
Proof. split; vm_compute; reflexivity. Qed.

(** * Further properties of the bit utilities *)

Lemma bit_select_mask (upper_bit lower_bit k : Z) :
  0 <= lower_bit -> lower_bit <= upper_bit -> 0 <= k ->
  Z.testbit (Z.land (Z.ones (upper_bit + 1)) (Z.lnot (Z.ones lower_bit))) k
  = (lower_bit <=? k) && (k <=? upper_bit).
Proof.
  intros Hl Hu Hk. rewrite Z.land_spec, Z.lnot_spec by lia.
  assert (Z.testbit (Z.ones (upper_bit + 1)) k = (k <=? upper_bit)) as ->.
  { destruct (Z.leb_spec k upper_bit).
    - apply Z.ones_spec_low. lia.
    - apply Z.ones_spec_high. lia. }
  assert (Z.testbit (Z.ones lower_bit) k = negb (lower_bit <=? k)) as ->.
  { destruct (Z.leb_spec lower_bit k).
    - apply Z.ones_spec_high. lia.
    - apply Z.ones_spec_low. lia. }
  rewrite negb_involutive. apply andb_comm.
Qed.

Lemma bit_select_unfold (value upper_bit lower_bit : Z) (shift : bool) :
  0 <= lower_bit -> lower_bit <= upper_bit ->
  bit_select value upper_bit lower_bit shift
  = Ok (Z.shiftr (Z.land value (Z.land (Z.ones (upper_bit + 1))
                                       (Z.lnot (Z.ones lower_bit))))
                 (if shift then lower_bit else 0)).
Proof.
  intros Hl Hu. unfold bit_select.
  destruct (Z.ltb_spec upper_bit lower_bit); [lia |].
  rewrite !mask_nonneg by lia. cbn [rbind]. unfold py_rshift.
  destruct shift.
  - destruct (Z.ltb_spec lower_bit 0); [lia | reflexivity].
  - reflexivity.
Qed.

(** X1.  For [0 <= lower_bit <= upper_bit] and every integer [value],
    negative ones included: with [shift=True], [bit_select] returns the
    bits [lower_bit..upper_bit] of [value] moved down to bit 0, that is
    [(value / 2^lower_bit) mod 2^(upper_bit - lower_bit + 1)]; without
    [shift] it returns the same bits left in place. *)
Theorem bit_select_value (value upper_bit lower_bit : Z) :
  0 <= lower_bit -> lower_bit <= upper_bit ->
  bit_select value upper_bit lower_bit true
  = Ok ((value / 2 ^ lower_bit) mod 2 ^ (upper_bit - lower_bit + 1)) /\
  bit_select value upper_bit lower_bit false
  = Ok ((value / 2 ^ lower_bit) mod 2 ^ (upper_bit - lower_bit + 1) * 2 ^ lower_bit).
Proof.
  intros Hl Hu. rewrite !bit_select_unfold by lia. split; f_equal.
  - apply Z.bits_inj'. intros k Hk.
    rewrite Z.shiftr_spec, Z.land_spec, bit_select_mask by lia.
    destruct (Z.ltb_spec k (upper_bit - lower_bit + 1)).
    + rewrite Z.mod_pow2_bits_low, Z.div_pow2_bits by lia.
      destruct (Z.leb_spec lower_bit (k + lower_bit)); [| lia].
      destruct (Z.leb_spec (k + lower_bit) upper_bit); [| lia].
      apply andb_true_r.
    + rewrite Z.mod_pow2_bits_high by lia.
      destruct (Z.leb_spec (k + lower_bit) upper_bit); [lia |].
      now rewrite andb_false_r, andb_false_r.
  - rewrite Z.shiftr_0_r. apply Z.bits_inj'. intros k Hk.
    rewrite Z.land_spec, bit_select_mask by lia.
    rewrite Z.mul_pow2_bits by lia.
    destruct (Z.leb_spec lower_bit k).
    + destruct (Z.leb_spec k upper_bit).
      * rewrite Z.mod_pow2_bits_low, Z.div_pow2_bits by lia.
        replace (k - lower_bit + lower_bit) with k by lia. apply andb_true_r.
      * rewrite (Z.mod_pow2_bits_high _ _ (k - lower_bit)) by lia. apply andb_false_r.
    + rewrite (Z.testbit_neg_r _ (k - lower_bit)) by lia. apply andb_false_r.
Qed.

Lemma bit_select_value_witness :
  bit_select 56 3 1 true = Ok 4 /\ bit_select (-1) 31 28 false = Ok 4026531840.
Proof.
  split.
  - apply (proj1 (bit_select_value 56 3 1 ltac:(lia) ltac:(lia))).
  - apply (proj2 (bit_select_value (-1) 31 28 ltac:(lia) ltac:(lia))).
Defined.

(** X2.  [bit_select] raises its ISAError exactly when [upper_bit] is below
    [lower_bit]; with [lower_bit <= upper_bit] and a negative [lower_bit] it
    raises the ValueError of a negative shift count instead of returning. *)
Theorem bit_select_errors (value upper_bit lower_bit : Z) (shift : bool) :
  (upper_bit < lower_bit <->
   bit_select value upper_bit lower_bit shift = Raise (ISAError UpperLowerBit)) /\
  (lower_bit <= upper_bit -> lower_bit < 0 ->
   bit_select value upper_bit lower_bit shift = Raise ValueError).
Proof.
  split; [split |].
  - intros H. unfold bit_select. destruct (Z.ltb_spec upper_bit lower_bit); [reflexivity | lia].
  - unfold bit_select. destruct (Z.ltb_spec upper_bit lower_bit); [lia |].
    intros H0. exfalso.
    destruct (Z.lt_ge_cases (upper_bit + 1) 0).
    + rewrite mask_negative in H0 by lia. discriminate.
    + rewrite mask_nonneg in H0 by lia. cbn [rbind] in H0.
      destruct (Z.lt_ge_cases lower_bit 0).
      * rewrite mask_negative in H0 by lia. discriminate.
      * rewrite mask_nonneg in H0 by lia. cbn [rbind] in H0.
        unfold py_rshift in H0. destruct (_ <? 0); discriminate.
  - intros Hu Hl. unfold bit_select.
    destruct (Z.ltb_spec upper_bit lower_bit); [lia |].
    destruct (Z.lt_ge_cases (upper_bit + 1) 0).
    + now rewrite mask_negative by lia.
    + rewrite mask_nonneg by lia. cbn [rbind]. now rewrite mask_negative by lia.
Qed.

Lemma bit_select_errors_witness :
  bit_select 5 1 3 false = Raise (ISAError UpperLowerBit) /\
  bit_select 5 3 (-1) true = Raise ValueError.
Proof.
  split.
  - apply (proj1 (proj1 (bit_select_errors 5 1 3 false))). lia.
  - apply (proj2 (bit_select_errors 5 3 (-1) true)); lia.
Defined.

Lemma sign_extend_in_range (i bits : Z) :
  1 <= bits -> 0 <= i < 2 ^ bits ->
  sign_extend i bits = Ok (if Z.testbit i (bits - 1) then i - 2 ^ bits else i).
Proof.
  intros Hb Hi. unfold sign_extend. rewrite mask_nonneg by lia. cbn [rbind].
  rewrite upper_bits_zero by lia. cbn.
  unfold py_lshift. destruct (bits - 1 <? 0) eqn:E; [apply Z.ltb_lt in E; lia |].
  cbn [rbind]. rewrite top_bit_test by lia.
  destruct (Z.testbit i (bits - 1)); cbn; [| reflexivity].
  now rewrite lor_upper_mask by lia.
Qed.

Lemma top_bit_threshold (i bits : Z) :
  1 <= bits -> 0 <= i < 2 ^ bits ->
  Z.testbit i (bits - 1) = (2 ^ (bits - 1) <=? i).
Proof.
  intros Hb Hi.
  assert (2 ^ bits = 2 * 2 ^ (bits - 1)) as Hpow.
  { rewrite <- Z.pow_succ_r by lia. f_equal. lia. }
  assert (0 < 2 ^ (bits - 1)) as Hpos by (apply Z.pow_pos_nonneg; lia).
  rewrite Z.testbit_eqb by lia. change (2 ^ 1) with 2.
  destruct (Z.leb_spec (2 ^ (bits - 1)) i).
  - assert (i / 2 ^ (bits - 1) = 1) as ->; [| reflexivity].
    symmetry. apply (Z.div_unique i (2 ^ (bits - 1)) 1 (i - 2 ^ (bits - 1))); lia.
  - rewrite Z.div_small by lia. reflexivity.
Qed.

(** X3.  For [bits >= 1] and [0 <= i < 2^bits], [sign_extend] returns the
    two's-complement reading of [i]: a value [r] with
    [-2^(bits-1) <= r < 2^(bits-1)] that is congruent to [i] modulo
    [2^bits], so the field is recovered as [r mod 2^bits]. *)
Theorem sign_extend_range (i bits : Z) :
  1 <= bits -> 0 <= i < 2 ^ bits ->
  exists r,
    sign_extend i bits = Ok r /\
    - 2 ^ (bits - 1) <= r < 2 ^ (bits - 1) /\
    r mod 2 ^ bits = i.
Proof.
  intros Hb Hi. rewrite sign_extend_in_range by lia.
  rewrite top_bit_threshold by lia.
  assert (2 ^ bits = 2 * 2 ^ (bits - 1)) as Hpow.
  { rewrite <- Z.pow_succ_r by lia. f_equal. lia. }
  destruct (Z.leb_spec (2 ^ (bits - 1)) i); eexists; (split; [reflexivity |]); split.
  - lia.
  - symmetry. apply (Z.mod_unique_pos _ _ (-1)); lia.
  - lia.
  - apply Z.mod_small. lia.
Qed.

Lemma sign_extend_range_witness :
  exists r, sign_extend 65535 16 = Ok r /\ - 32768 <= r < 32768 /\ r mod 65536 = 65535.
Proof. apply (sign_extend_range 65535 16); lia. Defined.

(** X4.  Outside the range of a [bits]-bit field: a negative [i] makes
    [sign_extend] raise its ISAError for every [bits >= 0]; with
    [bits = 0] the value 0 raises the ValueError of the negative shift
    [1 << -1]; a negative [bits] raises the ValueError of [mask]. *)
Theorem sign_extend_edges (i bits : Z) :
  (0 <= bits -> i < 0 -> sign_extend i bits = Raise (ISAError UpperBitsNotZero)) /\
  (bits = 0 -> i = 0 -> sign_extend i bits = Raise ValueError) /\
  (bits < 0 -> sign_extend i bits = Raise ValueError).
Proof.
  split; [| split].
  - intros Hb Hi. unfold sign_extend. rewrite mask_nonneg by lia. cbn [rbind].
    destruct (Z.eqb_spec (Z.land i (Z.lnot (Z.ones bits))) 0) as [H0 | _]; [| reflexivity].
    exfalso. set (k := bits + Z.abs i).
    assert (Z.log2 (Z.abs i) < k) as Hk.
    { apply Z.log2_lt_pow2; [lia |].
      apply Z.le_lt_trans with k; [unfold k; lia |]. apply Z.pow_gt_lin_r; lia. }
    assert (Z.testbit i k = true) as Hbit by (apply (Z.bits_iff_neg i k Hk); lia).
    assert (Z.testbit (Z.land i (Z.lnot (Z.ones bits))) k = true) as Hu.
    { rewrite upper_bits_spec, Hbit by (unfold k; lia). cbn. apply Z.leb_le. unfold k. lia. }
    rewrite H0, Z.bits_0 in Hu. discriminate.
  - intros -> ->. reflexivity.
  - intros Hb. unfold sign_extend. now rewrite mask_negative by lia.
Qed.

Lemma sign_extend_edges_witness :
  sign_extend (-1) 4 = Raise (ISAError UpperBitsNotZero) /\
  sign_extend 0 0 = Raise ValueError /\
  sign_extend 3 (-2) = Raise ValueError.
Proof.
  split; [| split].
  - apply (proj1 (sign_extend_edges (-1) 4)); lia.
  - apply (proj1 (proj2 (sign_extend_edges 0 0))); reflexivity.
  - apply (proj2 (proj2 (sign_extend_edges 3 (-2)))). lia.
Defined.

(** * Further properties of the pattern scan *)

Lemma byte_range (b : byte) : 0 <= Z.of_N (Byte.to_N b) < 256.
Proof. pose proof (Byte.to_N_bounded b). lia. Qed.

Lemma lor_shift8 (acc b : Z) :
  0 <= b < 256 -> Z.lor (Z.shiftl acc 8) b = acc * 256 + b.
Proof.
  intros Hb. rewrite Z.shiftl_mul_pow2 by lia. change (2 ^ 8) with 256.
  assert (Z.land (acc * 256) b = 0) as Hz.
  { apply Z.bits_inj'. intros k Hk. rewrite Z.land_spec, Z.bits_0.
    destruct (Z.ltb_spec k 8).
    - change 256 with (2 ^ 8). rewrite Z.mul_pow2_bits, Z.testbit_neg_r by lia.
      reflexivity.
    - destruct (Z.eq_dec b 0) as [-> | Hne]; [now rewrite Z.bits_0, andb_false_r |].
      rewrite (Z.bits_above_log2 b k), andb_false_r; [reflexivity | lia |].
      assert (Z.log2 b < 8) by (apply Z.log2_lt_pow2; lia). lia. }
  rewrite <- Z.lxor_lor, <- Z.add_nocarry_lxor by exact Hz. reflexivity.
Qed.

Lemma be_fold_acc (bs : list byte) :
  forall acc,
    fold_left (fun acc b => Z.lor (Z.shiftl acc 8) (Z.of_N (Byte.to_N b))) bs acc
    = acc * 256 ^ Z.of_nat (length bs)
      + fold_left (fun acc b => Z.lor (Z.shiftl acc 8) (Z.of_N (Byte.to_N b))) bs 0 /\
    0 <= fold_left (fun acc b => Z.lor (Z.shiftl acc 8) (Z.of_N (Byte.to_N b))) bs 0
      < 256 ^ Z.of_nat (length bs).
Proof.
  induction bs as [| b bs IH]; intros acc; cbn [fold_left length].
  - cbn. lia.
  - pose proof (byte_range b) as Hb.
    rewrite !lor_shift8 by exact Hb.
    destruct (IH (acc * 256 + Z.of_N (Byte.to_N b))) as [-> Hbound].
    destruct (IH (0 * 256 + Z.of_N (Byte.to_N b))) as [-> _].
    rewrite Nat2Z.inj_succ, Z.pow_succ_r by lia.
    split; [lia |]. nia.
Qed.

Lemma msb_value_bits_of (z : Z) (width : nat) :
  forall acc,
    fold_left (fun acc b => 2 * acc + b) (bits_of z width) acc
    = acc * 2 ^ Z.of_nat width + z mod 2 ^ Z.of_nat width.
Proof.
  induction width as [| w IH]; intros acc.
  - cbn. rewrite Z.mod_1_r. lia.
  - unfold bits_of in *. rewrite seq_S, rev_app_distr. cbn [rev app fmap list_fmap fold_left].
    rewrite IH. replace (Z.of_nat (1 + w) - 1) with (Z.of_nat w) by lia.
    rewrite Nat2Z.inj_succ, Z.pow_succ_r by lia.
    change 1 with (Z.ones 1). rewrite Z.land_ones, Z.shiftr_div_pow2 by lia.
    change (Z.ones 1) with 1.
    assert (0 < 2 ^ Z.of_nat w) as Hpos by (apply Z.pow_pos_nonneg; lia).
    rewrite (Z.mul_comm 2 (2 ^ Z.of_nat w)).
    rewrite (Z.rem_mul_r z (2 ^ Z.of_nat w) 2) by lia.
    change (2 ^ 1) with 2. ring.
Qed.

Lemma msb_value_bound (bits : list Z) :
  Forall is_bit bits ->
  forall acc,
    0 <= acc ->
    acc * 2 ^ Z.of_nat (length bits)
    <= fold_left (fun acc b => 2 * acc + b) bits acc
    < (acc + 1) * 2 ^ Z.of_nat (length bits).
Proof.
  induction 1 as [| b bits Hb _ IH]; intros acc Hacc; cbn [fold_left length].
  - cbn. lia.
  - assert (0 <= 2 * acc + b) as Hn by (destruct Hb; lia).
    specialize (IH (2 * acc + b) Hn).
    rewrite Nat2Z.inj_succ, Z.pow_succ_r by lia.
    assert (0 < 2 ^ Z.of_nat (length bits)) by (apply Z.pow_pos_nonneg; lia).
    destruct Hb as [-> | ->]; nia.
Qed.

(** X5.  [int.from_bytes] as the decoder uses it: the first byte is the
    most significant one for ['big'] and the least significant one for
    ['little']; the integer of an [n]-byte buffer lies in [0, 256^n); and
    for a buffer of the instruction width the bit sequence that
    [_pattern_match] scans is the binary expansion of that integer, most
    significant bit first (no bit of the buffer is lost or added). *)
Theorem instr_bits_value :
  (forall b bs,
      from_bytes big (b :: bs)
      = Z.of_N (Byte.to_N b) * 256 ^ Z.of_nat (length bs) + from_bytes big bs) /\
  (forall b bs,
      from_bytes little (b :: bs)
      = Z.of_N (Byte.to_N b) + 256 * from_bytes little bs) /\
  (forall e bs, 0 <= from_bytes e bs < 256 ^ Z.of_nat (length bs)) /\
  (forall self instr,
      length instr = isize self ->
      msb_value (instr_bits self instr) = from_bytes (endian self) instr).
Proof.
  assert (forall e bs, 0 <= from_bytes e bs < 256 ^ Z.of_nat (length bs)) as Hbound.
  { intros [] bs; unfold from_bytes.
    - apply be_fold_acc. exact 0.
    - rewrite <- (length_rev bs). apply be_fold_acc. exact 0. }
  split; [| split; [| split]].
  - intros b bs. unfold from_bytes. cbn [fold_left].
    rewrite lor_shift8 by apply byte_range.
    destruct (be_fold_acc bs (0 * 256 + Z.of_N (Byte.to_N b))) as [-> _]. lia.
  - intros b bs. unfold from_bytes. cbn [rev]. rewrite fold_left_app. cbn [fold_left].
    rewrite lor_shift8 by apply byte_range. lia.
  - exact Hbound.
  - intros self instr Hlen. unfold msb_value, instr_bits.
    rewrite msb_value_bits_of. rewrite Z.mod_small; [lia |].
    pose proof (Hbound (endian self) instr) as Hb. rewrite Hlen in Hb.
    replace (2 ^ Z.of_nat (isize self * 8)) with (256 ^ Z.of_nat (isize self)).
    + exact Hb.
    + change 256 with (2 ^ 8). rewrite <- Z.pow_mul_r by lia. f_equal. lia.
Qed.

Lemma instr_bits_value_witness :
  let self := {| _ifuncs := []; endian := little; isize := 2;
                 finalize_execution := None |} in
  msb_value (instr_bits self [x04; x21]) = from_bytes little [x04; x21] /\
  from_bytes little [x04; x21] = 8452 /\ from_bytes big [x04; x21] = 1057.
Proof.
  intros self. split.
  - apply (proj2 (proj2 (proj2 instr_bits_value)) self [x04; x21]). reflexivity.
  - split; vm_compute; reflexivity.
Defined.

Lemma select_bits_is_bit (c : ascii) (pattern : string) :
  forall bits, Forall is_bit bits -> Forall is_bit (select_bits c pattern bits).
Proof.
  induction pattern as [| p pattern IH]; intros bits Hbits; cbn; [constructor |].
  destruct bits as [| b bits]; [constructor |].
  inversion Hbits; subst.
  destruct (Ascii.eqb p c); [constructor |]; auto.
Qed.

Lemma instr_bits_shape (self : IsaDefinition) (instr : list byte) :
  Forall is_bit (instr_bits self instr) /\
  length (instr_bits self instr) = (isize self * 8)%nat.
Proof. split; [apply bits_of_is_bit | apply length_bits_of]. Qed.

(** X6.  The keys of the field set of a successful [_pattern_match] are
    exactly the one-character strings of the characters that occur in the
    template (spaces removed): nothing else is ever an attribute of the
    namespace handed to an instruction. *)
Theorem field_set_keys (self : IsaDefinition) (ifunc : method) (instr : list byte)
    (flds : namespace) :
  _pattern_match self ifunc instr = Ok (Some flds) ->
  exists pattern,
    _extract_pattern self ifunc = Ok pattern /\
    forall k, is_Some (flds !! k) <->
              exists c, k = String c "" /\ occurs c pattern = true.
Proof.
  intros Hpm. destruct (pattern_match_inv _ _ _ _ Hpm) as (Hlen & pattern & Hpat & Hm).
  destruct (instr_bits_shape self instr) as [Hbits Hl].
  assert (String.length pattern = length (instr_bits self instr)) as Hlp
    by (rewrite Hl; now apply extract_pattern_length with ifunc).
  exists pattern. split; [exact Hpat |]. intros k. split.
  - intros Hk. destruct k as [| c [| c' k']].
    + destruct (match_bits_lookup _ _ _ _ Hbits Hm) as [_ Hother].
      rewrite (Hother "") in Hk by (cbn; lia). rewrite lookup_empty in Hk.
      destruct Hk as [? Hk]. discriminate.
    + exists c. split; [reflexivity |].
      rewrite (match_bits_fields _ _ _ Hbits Hlp Hm c) in Hk.
      destruct (occurs c pattern); [reflexivity |].
      destruct Hk as [? Hk]. discriminate.
    + destruct (match_bits_lookup _ _ _ _ Hbits Hm) as [_ Hother].
      rewrite (Hother (String c (String c' k'))) in Hk by (cbn; lia).
      rewrite lookup_empty in Hk. destruct Hk as [? Hk]. discriminate.
  - intros (c & -> & Hc).
    rewrite (match_bits_fields _ _ _ Hbits Hlp Hm c), Hc. eauto.
Qed.

Lemma field_set_keys_witness :
  let flds := match _pattern_match Mips_isa instruction_nop [x00; x00; x00; x00] with
              | Ok (Some flds) => flds
              | _ => ∅
              end in
  is_Some (flds !! "0") /\ ~ is_Some (flds !! "1") /\ ~ is_Some (flds !! "s").
Proof.
  intros flds.
  assert (_pattern_match Mips_isa instruction_nop [x00; x00; x00; x00] = Ok (Some flds))
    as Hpm by (vm_compute; reflexivity).
  destruct (field_set_keys _ _ _ _ Hpm) as (pattern & Hpat & Hkeys).
  assert (pattern = "00000000000000000000000000000000") as ->
    by (vm_compute in Hpat; congruence).
  split; [| split].
  - apply Hkeys. exists "0"%char. split; reflexivity.
  - intros H. apply Hkeys in H. destruct H as (c & [= <-] & Hc). discriminate Hc.
  - intros H. apply Hkeys in H. destruct H as (c & [= <-] & Hc). discriminate Hc.
Defined.

(** X7.  Every value of the field set of a successful [_pattern_match] is
    an unsigned number that fits in as many bits as its character has
    positions in the template: [0 <= v < 2^n] for a character with [n]
    positions.  (For the MIPS templates: register numbers below 32, the
    immediate below 2^16, the jump target below 2^26.) *)
Theorem field_value_bound (self : IsaDefinition) (ifunc : method) (instr : list byte)
    (flds : namespace) :
  _pattern_match self ifunc instr = Ok (Some flds) ->
  exists pattern,
    _extract_pattern self ifunc = Ok pattern /\
    forall c v, flds !! String c "" = Some v ->
                0 <= v < 2 ^ Z.of_nat (count_char c pattern).
Proof.
  intros Hpm. destruct (pattern_match_inv _ _ _ _ Hpm) as (Hlen & pattern & Hpat & Hm).
  destruct (instr_bits_shape self instr) as [Hbits Hl].
  assert (String.length pattern = length (instr_bits self instr)) as Hlp
    by (rewrite Hl; now apply extract_pattern_length with ifunc).
  exists pattern. split; [exact Hpat |]. intros c v Hv.
  rewrite (match_bits_fields _ _ _ Hbits Hlp Hm c) in Hv.
  destruct (occurs c pattern); [| discriminate]. injection Hv as <-.
  pose proof (msb_value_bound _ (select_bits_is_bit c pattern _ Hbits) 0 ltac:(lia))
    as Hb.
  rewrite length_select_bits in Hb by exact Hlp.
  unfold msb_value. lia.
Qed.

Lemma field_value_bound_witness :
  let flds := match _pattern_match Mips_isa (instruction_addi sign_extend)
                      [x23; xff; xff; xff] with
              | Ok (Some flds) => flds
              | _ => ∅
              end in
  flds !! "i" = Some 65535 /\ 0 <= 65535 < 2 ^ 16.
Proof.
  intros flds.
  assert (_pattern_match Mips_isa (instruction_addi sign_extend) [x23; xff; xff; xff]
          = Ok (Some flds)) as Hpm by (vm_compute; reflexivity).
  assert (flds !! "i" = Some 65535) as Hv by (vm_compute; reflexivity).
  split; [exact Hv |].
  destruct (field_value_bound _ _ _ _ Hpm) as (pattern & Hpat & Hb).
  assert (pattern = "001000ssssstttttiiiiiiiiiiiiiiii") as ->
    by (vm_compute in Hpat; congruence).
  exact (Hb "i"%char 65535 Hv).
Defined.

Lemma literals_match_false_iff (pattern : string) :
  forall bits,
    Forall is_bit bits ->
    literals_match pattern bits = false <-> literal_clash pattern bits.
Proof.
  unfold literal_clash.
  induction pattern as [| p pattern IH]; intros bits Hbits.
  - cbn. split; [discriminate |]. intros (n & c & b & Hc & _). destruct n; discriminate.
  - destruct bits as [| b bits].
    + cbn. split; [discriminate |]. intros (n & c & b & _ & Hb & _). discriminate.
    + inversion Hbits as [| ? ? Hb Hbits']; subst.
      cbn [literals_match]. rewrite andb_false_iff, (IH bits Hbits'). split.
      * intros [Hhead | (n & c & b' & Hc & Hb' & Hclash)].
        -- exists 0%nat, p, b. split; [reflexivity |]. split; [reflexivity |].
           destruct (Ascii.eqb_spec p "0") as [-> | _].
           ++ left. split; [reflexivity |]. apply Z.eqb_neq in Hhead.
              destruct Hb; [contradiction | assumption].
           ++ destruct (Ascii.eqb_spec p "1") as [-> | _]; [| discriminate].
              right. split; [reflexivity |]. apply Z.eqb_neq in Hhead.
              destruct Hb; [assumption | contradiction].
        -- exists (S n), c, b'. auto.
      * intros (n & c & b' & Hc & Hb' & Hclash). destruct n as [| n].
        -- left. cbn in Hc, Hb'. injection Hc as ->. injection Hb' as ->.
           destruct Hclash as [[-> ->] | [-> ->]]; reflexivity.
        -- right. exists n, c, b'. auto.
Qed.

(** X8.  On a buffer of the instruction width and a template of the
    right length, [_pattern_match] answers [None] exactly when some
    position holds a literal ['0'] over a 1 bit or a literal ['1'] over a 0
    bit; every other buffer yields a field set, whatever the field bits
    are. *)
Theorem pattern_match_none (self : IsaDefinition) (ifunc : method) (instr : list byte)
    (pattern : string) :
  length instr = isize self ->
  _extract_pattern self ifunc = Ok pattern ->
  (_pattern_match self ifunc instr = Ok None <->
   literal_clash pattern (instr_bits self instr)) /\
  ((exists flds, _pattern_match self ifunc instr = Ok (Some flds)) <->
   ~ literal_clash pattern (instr_bits self instr)).
Proof.
  intros Hlen Hpat. rewrite (pattern_match_scan _ _ _ _ Hlen Hpat).
  destruct (instr_bits_shape self instr) as [Hbits _].
  rewrite <- (literals_match_false_iff pattern _ Hbits).
  pose proof (match_bits_literals pattern (instr_bits self instr) ∅ Hbits) as Hiff.
  destruct (match_bits pattern (instr_bits self instr) ∅) as [flds |] eqn:Em.
  - assert (literals_match pattern (instr_bits self instr) = true) as ->
      by (apply Hiff; eauto).
    split; split; try discriminate; eauto.
  - destruct (literals_match pattern (instr_bits self instr)) eqn:El.
    + destruct (proj2 Hiff eq_refl) as [? H]. discriminate.
    + split; split; try reflexivity; try congruence.
      intros (flds & H). discriminate.
Qed.

Lemma pattern_match_none_witness :
  _pattern_match Mips_isa (instruction_addi sign_extend) [x00; x08; x00; x04] = Ok None.
Proof.
  apply (proj1 (pattern_match_none Mips_isa (instruction_addi sign_extend)
                  [x00; x08; x00; x04] "001000ssssstttttiiiiiiiiiiiiiiii"
                  ltac:(reflexivity) ltac:(vm_compute; reflexivity))).
  exists 2%nat, "1"%char, 0. repeat split; try reflexivity. right. split; reflexivity.
Defined.

(** * Further properties of decode *)

Lemma extract_pattern_raises (self : IsaDefinition) (func : method) (e : exn) :
  _extract_pattern self func = Raise e ->
  e = AttributeError \/ e = IndexError \/ e = ISAError FormatBits.
Proof.
  unfold _extract_pattern. destruct (__doc__ func) as [doc |]; [| intros [= <-]; auto].
  unfold py_index. destruct (_ !! 1%nat); cbn; [| intros [= <-]; auto].
  destruct (negb _); [intros [= <-]; auto | discriminate].
Qed.

Lemma pattern_match_raises (self : IsaDefinition) (ifunc : method) (instr : list byte)
    (e : exn) :
  _pattern_match self ifunc instr = Raise e ->
  e = ISAError InstructionBytes \/ e = AttributeError \/ e = IndexError
  \/ e = ISAError FormatBits.
Proof.
  unfold _pattern_match. destruct (negb _); [intros [= <-]; auto |].
  destruct (_extract_pattern self ifunc) as [pattern | e'] eqn:E; cbn; [discriminate |].
  intros [= <-]. apply extract_pattern_raises in E. tauto.
Qed.

Lemma decode_loop_raise (self : IsaDefinition) (instr : list byte) (l : list method) :
  forall e,
    decode_loop self l instr = Raise e ->
    (e = ISAError UnableToDecode /\
     Forall (fun g => _pattern_match self g instr = Ok None) l) \/
    exists pre f post,
      l = (pre ++ f :: post)%list /\
      Forall (fun g => _pattern_match self g instr = Ok None) pre /\
      _pattern_match self f instr = Raise e.
Proof.
  induction l as [| g l IH]; intros e Hd; cbn in Hd.
  - injection Hd as <-. left. split; [reflexivity | constructor].
  - destruct (_pattern_match self g instr) as [[flds |] | e'] eqn:Hg; cbn in Hd.
    + discriminate.
    + destruct (IH _ Hd) as [[-> Hall] | (pre & f & post & -> & Hpre & Hf)].
      * left. split; [reflexivity | constructor; assumption].
      * right. exists (g :: pre), f, post. repeat split; [constructor; assumption | exact Hf].
    + injection Hd as <-. right. exists [], g, l. repeat split; [constructor | exact Hg].
Qed.

Lemma decode_loop_all_none (self : IsaDefinition) (instr : list byte) (l : list method) :
  Forall (fun g => _pattern_match self g instr = Ok None) l ->
  decode_loop self l instr = Raise (ISAError UnableToDecode).
Proof.
  induction 1 as [| g l Hg _ IH]; [reflexivity |]. cbn. rewrite Hg. exact IH.
Qed.

(** X9.  [decode] raises its own ISAError ("Unable to decode bytes as
    instruction") exactly when every entry of the catalog answered [None]:
    no other failure is reported under that error, and no buffer that some
    entry matches is reported as undecodable. *)
Theorem decode_unable_iff (self : IsaDefinition) (instr : list byte) :
  decode self instr = Raise (ISAError UnableToDecode) <->
  Forall (fun g => _pattern_match self g instr = Ok None) (_ifuncs self).
Proof.
  unfold decode. split; [| apply decode_loop_all_none].
  intros Hd. destruct (decode_loop_raise _ _ _ _ Hd)
    as [[_ Hall] | (pre & f & post & _ & _ & Hf)]; [exact Hall |].
  apply pattern_match_raises in Hf.
  destruct Hf as [Hf | [Hf | [Hf | Hf]]]; discriminate Hf.
Qed.

Lemma decode_unable_iff_witness :
  decode Mips_isa [xff; xff; xff; xff] = Raise (ISAError UnableToDecode).
Proof.
  apply (proj2 (decode_unable_iff Mips_isa [xff; xff; xff; xff])).
  repeat constructor.
Defined.

(** X10.  What [decode] hands back comes from the catalog: a returned
    method is an entry of [_ifuncs] whose own [_pattern_match] produced the
    returned field set.  An entry that raises is not skipped: when the
    entries before it answered [None], its exception is the result of
    [decode], even if a later entry would have matched; and every exception
    of [decode] other than its own comes from such an entry. *)
Theorem decode_outcome (self : IsaDefinition) (instr : list byte) :
  (forall ifunc flds,
      decode self instr = Ok (ifunc, flds) ->
      ifunc ∈ _ifuncs self /\ _pattern_match self ifunc instr = Ok (Some flds)) /\
  (forall pre f post e,
      _ifuncs self = (pre ++ f :: post)%list ->
      Forall (fun g => _pattern_match self g instr = Ok None) pre ->
      _pattern_match self f instr = Raise e ->
      decode self instr = Raise e) /\
  (forall e,
      decode self instr = Raise e ->
      e <> ISAError UnableToDecode ->
      exists f, f ∈ _ifuncs self /\ _pattern_match self f instr = Raise e).
Proof.
  unfold decode. split; [| split].
  - intros ifunc flds Hd.
    destruct (decode_loop_inv _ _ _ _ _ Hd) as (pre & post & -> & _ & Hf).
    split; [| exact Hf]. apply elem_of_app. right. left.
  - intros pre f post e -> Hpre Hf. rewrite decode_loop_first by exact Hpre.
    now rewrite Hf.
  - intros e Hd Hne.
    destruct (decode_loop_raise _ _ _ _ Hd)
      as [[-> _] | (pre & f & post & -> & _ & Hf)]; [contradiction |].
    exists f. split; [| exact Hf]. apply elem_of_app. right. left.
Qed.

Lemma decode_outcome_witness :
  let undocumented := {| __name__ := "instruction_a"; __doc__ := None;
                         call := fun _ => ret tt |} in
  let self := {| _ifuncs := [undocumented; instruction_nop]; endian := big;
                 isize := 4; finalize_execution := None |} in
  matches self instruction_nop [x00; x00; x00; x00] = true /\
  decode self [x00; x00; x00; x00] = Raise AttributeError.
Proof.
  intros undocumented self. split; [vm_compute; reflexivity |].
  apply (proj1 (proj2 (decode_outcome self [x00; x00; x00; x00]))
           [] undocumented [instruction_nop]).
  - reflexivity.
  - constructor.
  - reflexivity.
Defined.

(** * Docstring parsing *)

Lemma count_char_app (c : ascii) (s1 s2 : string) :
  count_char c (s1 +:+ s2) = (count_char c s1 + count_char c s2)%nat.
Proof.
  induction s1 as [| x s1 IH]; [reflexivity |].
  change (String x s1 +:+ s2) with (String x (s1 +:+ s2)).
  cbn [count_char]. rewrite IH. lia.
Qed.

Lemma replace_char_removes (old : ascii) (s : string) :
  count_char old (replace_char old "" s) = 0%nat.
Proof.
  induction s as [| x s IH]; cbn; [reflexivity |].
  destruct (Ascii.eqb x old) eqn:E; cbn; [exact IH |]. now rewrite E.
Qed.

Lemma replace_char_keeps (old c : ascii) (new s : string) :
  count_char c new = 0%nat -> c <> old ->
  count_char c (replace_char old new s) = count_char c s.
Proof.
  intros Hnew Hne. induction s as [| x s IH]; cbn; [reflexivity |].
  destruct (Ascii.eqb_spec x old) as [-> | Hx].
  - rewrite count_char_app, Hnew, IH.
    destruct (Ascii.eqb_spec old c); [congruence | reflexivity].
  - cbn. now rewrite IH.
Qed.

Lemma split_char_pieces (sep c : ascii) (s : string) :
  count_char c s = 0%nat \/ c = sep ->
  count_char c (fst (split_char sep s)) = 0%nat /\
  Forall (fun x => count_char c x = 0%nat) (snd (split_char sep s)).
Proof.
  induction s as [| x s IH]; intros Hc; cbn; [split; [reflexivity | constructor] |].
  destruct (split_char sep s) as [h t] eqn:E. cbn [fst snd] in IH.
  assert (count_char c s = 0%nat \/ c = sep) as Hc'.
  { destruct Hc as [Hc | Hc]; [left | now right]. cbn in Hc. lia. }
  destruct (IH Hc') as [Hh Ht].
  destruct (Ascii.eqb_spec x sep) as [-> | Hx]; cbn [fst snd].
  - split; [reflexivity | constructor; assumption].
  - split; [| exact Ht]. cbn. rewrite Hh.
    destruct (Ascii.eqb_spec x c) as [-> | _]; [| reflexivity].
    destruct Hc as [Hc | Hc]; [| congruence].
    cbn in Hc. rewrite Ascii.eqb_refl in Hc. discriminate.
Qed.

Lemma split_char_no_sep (sep : ascii) (s : string) :
  count_char sep s = 0%nat -> split_char sep s = (s, []).
Proof.
  induction s as [| x s IH]; cbn; [reflexivity |].
  destruct (Ascii.eqb x sep); [discriminate |]. cbn. intros H.
  now rewrite IH.
Qed.

Lemma py_split_on_pieces (sep c : ascii) (s : string) :
  count_char c s = 0%nat \/ c = sep ->
  Forall (fun x => count_char c x = 0%nat) (py_split_on sep s).
Proof.
  intros Hc. unfold py_split_on.
  pose proof (split_char_pieces sep c s Hc) as [Hh Ht].
  destruct (split_char sep s). constructor; assumption.
Qed.

(** X11.  [_extract_pattern] on a method without a docstring raises
    AttributeError; on a docstring without a colon it raises IndexError;
    and a template it returns has exactly [isize*8] characters, none of
    them a space or a colon: the spaces of the docstring only group the
    bits for the reader, and the template ends at the second colon. *)
Theorem extract_pattern_spec (self : IsaDefinition) (func : method) :
  (__doc__ func = None -> _extract_pattern self func = Raise AttributeError) /\
  (forall doc,
      __doc__ func = Some doc -> count_char ":" doc = 0%nat ->
      _extract_pattern self func = Raise IndexError) /\
  (forall pattern,
      _extract_pattern self func = Ok pattern ->
      String.length pattern = (isize self * 8)%nat /\
      count_char " " pattern = 0%nat /\ count_char ":" pattern = 0%nat).
Proof.
  split; [| split].
  - intros H. unfold _extract_pattern. now rewrite H.
  - intros doc Hdoc Hcolon. unfold _extract_pattern. rewrite Hdoc.
    unfold py_split_on. rewrite split_char_no_sep; [reflexivity |].
    rewrite replace_char_keeps; [exact Hcolon | reflexivity | discriminate].
  - intros pattern Hpat. split; [now apply extract_pattern_length with func |].
    revert Hpat. unfold _extract_pattern.
    destruct (__doc__ func) as [doc |]; [| discriminate].
    unfold py_index.
    destruct (py_split_on ":" (replace_char " " "" doc) !! 1%nat) as [cf |] eqn:E;
      cbn [rbind]; [| discriminate].
    destruct (negb _); [discriminate |]. intros [= <-].
    apply list_elem_of_lookup_2 in E. split.
    + pose proof (py_split_on_pieces ":" " " (replace_char " " "" doc)
                    (or_introl (replace_char_removes " " doc))) as Hall.
      rewrite Forall_forall in Hall. now apply Hall.
    + pose proof (py_split_on_pieces ":" ":" (replace_char " " "" doc)
                    (or_intror eq_refl)) as Hall.
      rewrite Forall_forall in Hall. now apply Hall.
Qed.

Lemma extract_pattern_spec_witness :
  let undocumented := {| __name__ := "instruction_a"; __doc__ := None;
                         call := fun _ => ret tt |} in
  let uncoloned := {| __name__ := "instruction_b"; __doc__ := Some "nop 0000";
                      call := fun _ => ret tt |} in
  _extract_pattern Mips_isa undocumented = Raise AttributeError /\
  _extract_pattern Mips_isa uncoloned = Raise IndexError /\
  String.length "001000ssssstttttiiiiiiiiiiiiiiii" = 32%nat.
Proof.
  intros undocumented uncoloned. split; [| split].
  - apply (proj1 (extract_pattern_spec Mips_isa undocumented)). reflexivity.
  - apply (proj1 (proj2 (extract_pattern_spec Mips_isa uncoloned)) "nop 0000");
      reflexivity.
  - apply (proj2 (proj2 (extract_pattern_spec Mips_isa (instruction_addi sign_extend)))
             "001000ssssstttttiiiiiiiiiiiiiiii").
    vm_compute. reflexivity.
Defined.

Lemma append_nil_r (s : string) : s +:+ "" = s.
Proof.
  induction s as [| c s IH]; [reflexivity |].
  change (String c s +:+ "") with (String c (s +:+ "")). now rewrite IH.
Qed.

Lemma append_assoc (s1 s2 s3 : string) : (s1 +:+ s2) +:+ s3 = s1 +:+ (s2 +:+ s3).
Proof.
  induction s1 as [| c s1 IH]; [reflexivity |].
  change ((String c s1 +:+ s2) +:+ s3) with (String c ((s1 +:+ s2) +:+ s3)).
  now rewrite IH.
Qed.

Lemma append_nonempty (s : string) (c : ascii) : String.eqb (s +:+ String c "") "" = false.
Proof. destruct s; reflexivity. Qed.

Lemma spaceless_app (s1 s2 : string) :
  spaceless (s1 +:+ s2) = spaceless s1 && spaceless s2.
Proof.
  induction s1 as [| c s1 IH]; [reflexivity |].
  change (String c s1 +:+ s2) with (String c (s1 +:+ s2)).
  cbn [spaceless]. rewrite IH. now rewrite andb_assoc.
Qed.

Lemma split_ws_word (w : string) :
  spaceless w = true ->
  forall cur rest, split_ws cur (w +:+ rest) = split_ws (cur +:+ w) rest.
Proof.
  induction w as [| c w IH]; intros Hw cur rest.
  - now rewrite append_nil_r.
  - cbn [spaceless] in Hw. apply andb_true_iff in Hw. destruct Hw as [Hc Hw].
    change (String c w +:+ rest) with (String c (w +:+ rest)).
    cbn [split_ws]. apply negb_true_iff in Hc. rewrite Hc.
    rewrite IH by exact Hw. now rewrite append_assoc.
Qed.

Lemma split_ws_words (s : string) :
  forall cur,
    spaceless cur = true ->
    Forall (fun w => w <> "" /\ spaceless w = true) (split_ws cur s).
Proof.
  induction s as [| c s IH]; intros cur Hcur; cbn [split_ws].
  - destruct (String.eqb_spec cur ""); [constructor |].
    constructor; [split; assumption | constructor].
  - destruct (isspace c) eqn:Hc.
    + destruct (String.eqb_spec cur "").
      * apply IH. reflexivity.
      * constructor; [split; assumption |]. apply IH. reflexivity.
    + apply IH. rewrite spaceless_app, Hcur. cbn. now rewrite Hc.
Qed.

Lemma py_split_concat (ws : list string) :
  Forall (fun w => w <> "" /\ spaceless w = true) ws ->
  py_split (String.concat " " ws) = ws.
Proof.
  unfold py_split.
  induction 1 as [| w ws [Hne Hw] Hws IH]; [reflexivity |].
  destruct ws as [| w' ws'].
  - cbn [String.concat]. rewrite <- (append_nil_r w) at 1.
    rewrite split_ws_word by exact Hw. change ("" +:+ w) with w.
    cbn [split_ws].
    destruct (String.eqb_spec w ""); [contradiction | reflexivity].
  - change (String.concat " " (w :: w' :: ws'))
      with (w +:+ (" " +:+ String.concat " " (w' :: ws'))).
    rewrite split_ws_word by exact Hw.
    change ("" +:+ w) with w.
    change (" " +:+ String.concat " " (w' :: ws'))
      with (String " " (String.concat " " (w' :: ws'))).
    cbn [split_ws]. change (isspace " ") with true. cbn match.
    destruct (String.eqb_spec w ""); [contradiction |]. now rewrite IH.
Qed.

Lemma split_ws_lstrip (s : string) : split_ws "" (lstrip s) = split_ws "" s.
Proof.
  induction s as [| c s IH]; [reflexivity |]. cbn [lstrip split_ws].
  destruct (isspace c) eqn:Hc; [exact IH |]. cbn [split_ws]. now rewrite Hc.
Qed.

Lemma split_ws_rstrip (s : string) :
  forall cur, split_ws cur (rstrip s) = split_ws cur s.
Proof.
  induction s as [| c s IH]; intros cur; [reflexivity |]. cbn [rstrip].
  destruct (rstrip s) as [| c' r'] eqn:Er.
  - destruct (isspace c) eqn:Hc.
    + cbn [split_ws]. rewrite Hc.
      destruct (String.eqb cur ""); rewrite <- (IH ""); reflexivity.
    + cbn [split_ws]. rewrite Hc. rewrite <- (IH (cur +:+ String c "")). reflexivity.
  - cbn [split_ws]. destruct (isspace c); [| apply IH].
    destruct (String.eqb cur ""); [apply IH | f_equal; apply IH].
Qed.

Lemma py_split_strip (s : string) : py_split (strip s) = py_split s.
Proof. unfold py_split, strip. now rewrite split_ws_rstrip, split_ws_lstrip. Qed.

(** X12.  [_extract_asm] raises AttributeError without a docstring and
    IndexError when the docstring has fewer than two colons.  The template
    it returns is normalised: split again at whitespace, as [_format_asm]
    does, it gives exactly the words of the third docstring segment with
    commas read as separators.  So [istring] renders the same text whether
    the operands of the docstring are separated by commas, by several
    spaces or by one. *)
Theorem extract_asm_words (ifunction : method) :
  (__doc__ ifunction = None -> _extract_asm ifunction = Raise AttributeError) /\
  (forall doc,
      __doc__ ifunction = Some doc ->
      py_split_on ":" doc !! 2%nat = None ->
      _extract_asm ifunction = Raise IndexError) /\
  (forall doc segment ifield,
      __doc__ ifunction = Some doc ->
      py_split_on ":" doc !! 2%nat = Some segment ->
      exists asm_pattern,
        _extract_asm ifunction = Ok asm_pattern /\
        py_split asm_pattern = py_split (replace_char "," " " segment) /\
        istring (ifunction, ifield)
        = _format_asm (replace_char "," " " segment) ifield).
Proof.
  split; [| split].
  - intros H. unfold _extract_asm. now rewrite H.
  - intros doc Hdoc Hseg. unfold _extract_asm, py_index. now rewrite Hdoc, Hseg.
  - intros doc segment ifield Hdoc Hseg.
    assert (_extract_asm ifunction
            = Ok (String.concat " " (py_split (strip (replace_char "," " " segment)))))
      as Hasm by (unfold _extract_asm, py_index; now rewrite Hdoc, Hseg).
    assert (py_split (String.concat " " (py_split (strip (replace_char "," " " segment))))
            = py_split (replace_char "," " " segment)) as Hwords.
    { rewrite py_split_concat by (apply split_ws_words; reflexivity).
      apply py_split_strip. }
    eexists. split; [exact Hasm |]. split; [exact Hwords |].
    unfold istring. rewrite Hasm. cbn [rbind]. unfold _format_asm. now rewrite Hwords.
Qed.

Lemma extract_asm_words_witness :
  let commas := {| __name__ := "instruction_c";
                   __doc__ := Some "add immediate : 001000 : addi   $t,$s ,  !i ";
                   call := fun _ => ret tt |} in
  let short := {| __name__ := "instruction_s"; __doc__ := Some "nop : 0000";
                  call := fun _ => ret tt |} in
  let ifield : namespace := <["s" := 8]> (<["t" := 9]> (<["i" := 4]> ∅)) in
  _extract_asm short = Raise IndexError /\
  _extract_asm commas = Ok "addi $t $s !i" /\
  istring (commas, ifield) = Ok "addi $9 $8 0x4".
Proof.
  intros commas short ifield. split; [| split].
  - apply (proj1 (proj2 (extract_asm_words short)) "nop : 0000"); reflexivity.
  - vm_compute. reflexivity.
  - destruct (proj2 (proj2 (extract_asm_words commas))
                "add immediate : 001000 : addi   $t,$s ,  !i " " addi   $t,$s ,  !i "
                ifield eq_refl ltac:(vm_compute; reflexivity))
      as (asm & _ & _ & ->).
    vm_compute. reflexivity.
Defined.

(** * Memory *)

Lemma py_slice_clip {A} (l : list A) (a b : Z) :
  py_slice l a b
  = take (Z.to_nat (clip (Z.of_nat (length l)) b - clip (Z.of_nat (length l)) a))
         (drop (Z.to_nat (clip (Z.of_nat (length l)) a)) l).
Proof. reflexivity. Qed.

Lemma clip_range (n x : Z) : 0 <= n -> 0 <= clip n x <= n.
Proof. intros Hn. unfold clip. destruct (Z.ltb_spec x 0); lia. Qed.

Lemma py_slice_in_range {A} (l : list A) (a b : Z) :
  0 <= a -> a <= b -> b <= Z.of_nat (length l) ->
  py_slice l a b = take (Z.to_nat (b - a)) (drop (Z.to_nat a) l).
Proof.
  intros Ha Hab Hb. rewrite py_slice_clip. unfold clip.
  destruct (Z.ltb_spec a 0), (Z.ltb_spec b 0); try lia.
  now rewrite !Z.min_l by lia.
Qed.

Lemma py_slice_length {A} (l : list A) (a size : Z) :
  0 <= size -> (length (py_slice l a (a + size)) <= Z.to_nat size)%nat.
Proof.
  intros Hs. rewrite py_slice_clip, length_take. unfold clip.
  destruct (Z.ltb_spec a 0), (Z.ltb_spec (a + size) 0); lia.
Qed.

Lemma py_slice_ext {A} (l1 l2 : list A) (a b : Z) :
  length l1 = length l2 ->
  (forall j : nat,
      clip (Z.of_nat (length l1)) a <= Z.of_nat j < clip (Z.of_nat (length l1)) b ->
      l1 !! j = l2 !! j) ->
  py_slice l1 a b = py_slice l2 a b.
Proof.
  intros Hlen Hagree. rewrite !py_slice_clip, <- Hlen.
  pose proof (clip_range (Z.of_nat (length l1)) a ltac:(lia)) as Ha.
  set (ca := clip (Z.of_nat (length l1)) a) in *.
  set (cb := clip (Z.of_nat (length l1)) b) in *.
  apply list_eq. intros i.
  destruct (decide (i < Z.to_nat (cb - ca))%nat) as [Hi | Hi].
  - rewrite !lookup_take_lt, !lookup_drop by exact Hi. apply Hagree. lia.
  - rewrite !lookup_take_ge by lia. reflexivity.
Qed.

(** X13.  [mem_map] replaces the memory by [size] zero bytes, whatever was
    mapped before and whatever [start_address] is given, and leaves the
    registers alone; every read of the fresh memory returns zero bytes
    only.  A negative size raises ValueError and changes nothing. *)
Theorem mem_map_spec (start_address size : Z) (m : machine) :
  (0 <= size ->
   exists m',
     mem_map start_address size m = (Ok tt, m') /\
     _mem m' = Some (replicate (Z.to_nat size) x00) /\
     attrs m' = attrs m /\ _reg_list m' = _reg_list m /\
     forall a n, exists l, mem_read m' a n = Ok l /\ Forall (fun b => b = x00) l) /\
  (size < 0 -> mem_map start_address size m = (Raise ValueError, m)).
Proof.
  unfold mem_map. split.
  - intros Hs. destruct (Z.ltb_spec size 0); [lia |].
    eexists. split; [reflexivity |]. cbn. repeat split.
    intros a n. unfold mem_read. cbn. eexists. split; [reflexivity |].
    rewrite py_slice_clip. apply Forall_take, Forall_drop, Forall_replicate. reflexivity.
  - intros Hs. destruct (Z.ltb_spec size 0); [reflexivity | lia].
Qed.

Lemma mem_map_spec_witness :
  mem_read (snd (mem_map 4096 8 Mips_registers)) 2 3 = Ok [x00; x00; x00] /\
  mem_map 0 (-1) new_machine = (Raise ValueError, new_machine).
Proof.
  split.
  - destruct (proj1 (mem_map_spec 4096 8 Mips_registers) ltac:(lia))
      as (m' & Hm & Hmem & _).
    rewrite Hm. cbn [snd]. unfold mem_read. rewrite Hmem. vm_compute. reflexivity.
  - apply (proj2 (mem_map_spec 0 (-1) new_machine)). lia.
Defined.

Lemma written_buffer_lookup (buf data : list byte) (s j : nat) :
  (s + length data <= length buf)%nat ->
  (j < s \/ s + length data <= j)%nat ->
  (take s buf ++ data ++ drop (s + length data) buf)%list !! j = buf !! j.
Proof.
  intros Hin Hj. destruct Hj as [Hj | Hj].
  - rewrite lookup_app_l by (rewrite length_take; lia). now apply lookup_take_lt.
  - rewrite lookup_app_r by (rewrite length_take; lia).
    rewrite length_take, Nat.min_l by lia.
    rewrite lookup_app_r by lia. rewrite lookup_drop. f_equal. lia.
Qed.

(** X14.  A write that lies inside the mapped memory
    ([0 <= start_addr] and [start_addr + len(data) <= len(memory)]) keeps
    the size of the memory, is read back unchanged by [mem_read] at the same
    address, leaves every byte outside the written range as it was, and
    does not touch the registers. *)
Theorem mem_write_read (m : machine) (buf data : list byte) (start_addr : Z) :
  _mem m = Some buf ->
  0 <= start_addr ->
  start_addr + Z.of_nat (length data) <= Z.of_nat (length buf) ->
  exists m' buf',
    mem_write start_addr data m = (Ok tt, m') /\
    _mem m' = Some buf' /\ length buf' = length buf /\
    attrs m' = attrs m /\ _reg_list m' = _reg_list m /\
    mem_read m' start_addr (Z.of_nat (length data)) = Ok data /\
    forall a n,
      0 <= a -> 0 <= n ->
      a + n <= start_addr \/ start_addr + Z.of_nat (length data) <= a ->
      mem_read m' a n = mem_read m a n.
Proof.
  intros Hmem Hs Hin. unfold mem_write. rewrite Hmem.
  set (s := Z.to_nat start_addr).
  assert (Z.to_nat (Z.min start_addr (Z.of_nat (length buf))) = s) as Ha by lia.
  assert (Z.to_nat (Z.max (Z.min start_addr (Z.of_nat (length buf)))
                      (Z.min (start_addr + Z.of_nat (length data))
                             (Z.of_nat (length buf))))
          = (s + length data)%nat) as Hb by lia.
  destruct (Z.ltb_spec start_addr 0); [lia |].
  destruct (Z.ltb_spec (start_addr + Z.of_nat (length data)) 0); [lia |].
  rewrite Ha, Hb.
  assert (length (take s buf ++ data ++ drop (s + length data) buf)%list = length buf)
    as Hlen.
  { rewrite !length_app, length_take, length_drop. lia. }
  eexists _, _. split; [reflexivity |]. cbn [_mem attrs _reg_list].
  split; [reflexivity |]. split; [exact Hlen |]. split; [reflexivity |].
  split; [reflexivity |]. split.
  - unfold mem_read. cbn [_mem]. f_equal.
    rewrite py_slice_in_range by lia.
    replace (Z.to_nat (start_addr + Z.of_nat (length data) - start_addr))
      with (length data) by lia.
    fold s. rewrite drop_app_length' by (rewrite length_take; lia).
    now rewrite take_app_length.
  - intros a n Ha0 Hn Hout. unfold mem_read. cbn [_mem]. rewrite Hmem. f_equal.
    apply py_slice_ext; [exact Hlen |]. rewrite Hlen. intros j Hj.
    apply written_buffer_lookup; [lia |].
    unfold clip in Hj.
    destruct (Z.ltb_spec a 0), (Z.ltb_spec (a + n) 0); lia.
Qed.

Lemma mem_write_read_witness :
  let m := snd (mem_map 0 8 new_machine) in
  let m' := snd (mem_write 2 [x21; x08] m) in
  mem_read m' 2 2 = Ok [x21; x08] /\ mem_read m' 4 4 = Ok [x00; x00; x00; x00].
Proof.
  intros m m'.
  destruct (mem_write_read m (replicate 8 x00) [x21; x08] 2 eq_refl
              ltac:(lia) ltac:(cbn; lia))
    as (m1 & buf' & Hw & _ & _ & _ & _ & Hread & Hout).
  assert (m' = m1) as -> by (unfold m'; now rewrite Hw).
  split; [exact Hread |].
  rewrite (Hout 4 4) by (cbn; lia). vm_compute. reflexivity.
Defined.

(** X15.  [mem_read] raises TypeError before [mem_map] and never raises
    afterwards: a range inside the memory yields exactly the [size] bytes
    at [start_addr]; a range that runs past the end is cut short, and one
    that starts at or past the end is empty; a negative [start_addr] counts
    from the end of the memory.  No read returns more than [size] bytes. *)
Theorem mem_read_spec (m : machine) (start_addr size : Z) :
  (_mem m = None -> mem_read m start_addr size = Raise TypeError) /\
  (forall buf,
      _mem m = Some buf ->
      exists l,
        mem_read m start_addr size = Ok l /\
        (0 <= size -> Z.of_nat (length l) <= size) /\
        (0 <= start_addr -> 0 <= size ->
         start_addr + size <= Z.of_nat (length buf) ->
         l = take (Z.to_nat size) (drop (Z.to_nat start_addr) buf) /\
         Z.of_nat (length l) = size) /\
        (0 <= start_addr -> 0 <= size ->
         Z.of_nat (length l)
         = Z.max 0 (Z.min (start_addr + size) (Z.of_nat (length buf)) - start_addr)) /\
        (- Z.of_nat (length buf) <= start_addr -> 0 <= size -> start_addr + size < 0 ->
         l = take (Z.to_nat size)
               (drop (Z.to_nat (Z.of_nat (length buf) + start_addr)) buf))).
Proof.
  unfold mem_read. split; [now intros -> |].
  intros buf ->. eexists. split; [reflexivity |].
  split; [| split; [| split]].
  - intros Hs. pose proof (py_slice_length buf start_addr size Hs). lia.
  - intros Ha Hs Hin. rewrite py_slice_in_range by lia.
    replace (start_addr + size - start_addr) with size by lia.
    split; [reflexivity |]. rewrite length_take, length_drop. lia.
  - intros Ha Hs. rewrite py_slice_clip, length_take, length_drop. unfold clip.
    destruct (Z.ltb_spec start_addr 0), (Z.ltb_spec (start_addr + size) 0); lia.
  - intros Ha Hs Hneg. rewrite py_slice_clip. unfold clip.
    destruct (Z.ltb_spec start_addr 0), (Z.ltb_spec (start_addr + size) 0); try lia.
    f_equal; [lia |]. f_equal. lia.
Qed.

Lemma mem_read_spec_witness :
  let m := snd (mem_write 0 [x01; x02; x03; x04; x05; x06] (snd (mem_map 0 6 new_machine))) in
  mem_read new_machine 0 4 = Raise TypeError /\
  mem_read m 1 2 = Ok [x02; x03] /\
  mem_read m 4 4 = Ok [x05; x06] /\
  mem_read m (-3) 2 = Ok [x04; x05].
Proof.
  intros m.
  assert (_mem m = Some [x01; x02; x03; x04; x05; x06]) as Hm by reflexivity.
  split; [apply (proj1 (mem_read_spec new_machine 0 4)); reflexivity |].
  split; [| split].
  - destruct (proj2 (mem_read_spec m 1 2) _ Hm) as (l & -> & _ & Hin & _).
    destruct Hin as [-> _]; cbn; try lia. reflexivity.
  - destruct (proj2 (mem_read_spec m 4 4) _ Hm) as (l & Hl & _ & _ & Hlen & _).
    rewrite Hl. vm_compute in Hl. injection Hl as <-. reflexivity.
  - destruct (proj2 (mem_read_spec m (-3) 2) _ Hm) as (l & -> & _ & _ & _ & Hneg).
    rewrite Hneg; cbn; try lia. reflexivity.
Defined.

(** X16.  A write that runs past the end of the memory is not clipped
    and not refused: the bytearray grows.  The memory becomes the bytes
    below [start_addr] followed by the data; when [start_addr] is at or past
    the end, the data are appended directly after the last byte, so they
    end up at the old length rather than at [start_addr]. *)
Theorem mem_write_grows (m : machine) (buf data : list byte) (start_addr : Z) :
  _mem m = Some buf ->
  0 <= start_addr ->
  Z.of_nat (length buf) < start_addr + Z.of_nat (length data) ->
  exists m',
    mem_write start_addr data m = (Ok tt, m') /\
    _mem m' = Some (take (Z.to_nat start_addr) buf ++ data)%list /\
    (Z.of_nat (length buf) <= start_addr -> _mem m' = Some (buf ++ data)%list) /\
    attrs m' = attrs m.
Proof.
  intros Hmem Hs Hpast. unfold mem_write. rewrite Hmem.
  destruct (Z.ltb_spec start_addr 0); [lia |].
  destruct (Z.ltb_spec (start_addr + Z.of_nat (length data)) 0); [lia |].
  eexists. split; [reflexivity |]. cbn [_mem attrs].
  assert (drop (Z.to_nat (Z.max (Z.min start_addr (Z.of_nat (length buf)))
                            (Z.min (start_addr + Z.of_nat (length data))
                                   (Z.of_nat (length buf))))) buf = []) as ->
    by (apply drop_ge; lia).
  rewrite app_nil_r.
  assert (take (Z.to_nat (Z.min start_addr (Z.of_nat (length buf)))) buf
          = take (Z.to_nat start_addr) buf) as ->.
  { destruct (Z.le_gt_cases start_addr (Z.of_nat (length buf))).
    - now rewrite Z.min_l by lia.
    - rewrite !take_ge by lia. reflexivity. }
  split; [reflexivity |]. split; [| reflexivity].
  intros Hge. now rewrite take_ge by lia.
Qed.

Lemma mem_write_grows_witness :
  let m := snd (mem_map 0 2 new_machine) in
  _mem (snd (mem_write 100 [x21; x08] m)) = Some [x00; x00; x21; x08].
Proof.
  intros m.
  destruct (mem_write_grows m (replicate 2 x00) [x21; x08] 100 eq_refl
              ltac:(lia) ltac:(cbn; lia)) as (m' & -> & _ & Hgrow & _).
  cbn [snd]. rewrite Hgrow by (cbn; lia). reflexivity.
Defined.

(** X17.  A [step] whose program counter points so close to the end of
    the memory (or past it) that fewer than [isize] bytes are left fetches
    a short buffer without an error; with a catalog that is not empty (and
    a positive instruction width) the step then fails with the ISAError of the length check of
    [_pattern_match], and the machine is unchanged. *)
Theorem step_past_end (self : IsaDefinition) (m : machine) (buf : list byte) (pc : Z) :
  _ifuncs self <> [] ->
  isize self <> 0%nat ->
  attrs m !! "PC" = Some (VInt pc) ->
  _mem m = Some buf ->
  0 <= pc ->
  Z.of_nat (length buf) < pc + Z.of_nat (isize self) ->
  step self m = (Raise (ISAError InstructionBytes), m).
Proof.
  intros Hcat Hsize Hpc Hmem Hpos Hpast. unfold step, bind, fetch, getattr, mem_read.
  rewrite Hpc, Hmem. cbn [rbind as_int lift].
  assert (length (py_slice buf pc (pc + Z.of_nat (isize self))) <> isize self) as Hlen.
  { rewrite py_slice_clip, length_take, length_drop. unfold clip.
    destruct (Z.ltb_spec pc 0), (Z.ltb_spec (pc + Z.of_nat (isize self)) 0); lia. }
  unfold decode. destruct (_ifuncs self) as [| f l]; [contradiction |].
  cbn [decode_loop]. now rewrite pattern_match_wrong_length by exact Hlen.
Qed.

Lemma step_past_end_witness :
  let m := snd (setattr "PC" (VInt 14) (snd (mem_map 0 16 Mips_registers))) in
  step Mips_isa m = (Raise (ISAError InstructionBytes), m).
Proof.
  intros m.
  apply (step_past_end Mips_isa m (replicate 16 x00) 14).
  - discriminate.
  - discriminate.
  - vm_compute. reflexivity.
  - reflexivity.
  - lia.
  - cbn. lia.
Defined.

(** * The MIPS catalog *)

Lemma literals_match_at (pattern : string) :
  forall bits n c b,
    literals_match pattern bits = true ->
    String.get n pattern = Some c ->
    bits !! n = Some b ->
    (c = "0"%char -> b = 0) /\ (c = "1"%char -> b = 1).
Proof.
  induction pattern as [| p pattern IH]; intros bits n c b Hlit Hc Hb.
  - destruct n; discriminate.
  - destruct bits as [| b0 bits]; [discriminate |].
    cbn [literals_match] in Hlit. apply andb_true_iff in Hlit. destruct Hlit as [Hhead Hrest].
    destruct n as [| n].
    + cbn in Hc, Hb. injection Hc as ->. injection Hb as ->. split; intros ->.
      * now apply Z.eqb_eq.
      * now apply Z.eqb_eq.
    + now apply (IH bits n).
Qed.

Lemma pattern_match_literals (self : IsaDefinition) (ifunc : method)
    (instr : list byte) (flds : namespace) :
  _pattern_match self ifunc instr = Ok (Some flds) ->
  exists pattern,
    _extract_pattern self ifunc = Ok pattern /\
    literals_match pattern (instr_bits self instr) = true.
Proof.
  intros Hpm. destruct (pattern_match_inv _ _ _ _ Hpm) as (_ & pattern & Hpat & Hm).
  exists pattern. split; [exact Hpat |].
  apply (match_bits_literals pattern _ ∅); [apply bits_of_is_bit | eauto].
Qed.

(** Two templates that hold opposite literals at one position are never
    matched by the same buffer. *)
Lemma opposite_literals_exclusive (self : IsaDefinition) (f g : method)
    (instr : list byte) (flds flds' : namespace) (pf pg : string) (n : nat) :
  _pattern_match self f instr = Ok (Some flds) ->
  _pattern_match self g instr = Ok (Some flds') ->
  _extract_pattern self f = Ok pf ->
  _extract_pattern self g = Ok pg ->
  (String.get n pf = Some "0"%char /\ String.get n pg = Some "1"%char) \/
  (String.get n pf = Some "1"%char /\ String.get n pg = Some "0"%char) ->
  False.
Proof.
  intros Hf Hg Hpf Hpg Hopp.
  destruct (pattern_match_literals _ _ _ _ Hf) as (pf' & Hpf' & Hlf).
  destruct (pattern_match_literals _ _ _ _ Hg) as (pg' & Hpg' & Hlg).
  rewrite Hpf in Hpf'. injection Hpf' as <-.
  rewrite Hpg in Hpg'. injection Hpg' as <-.
  assert (n < length (instr_bits self instr))%nat as Hn.
  { unfold instr_bits. rewrite length_bits_of.
    rewrite <- (extract_pattern_length _ _ _ Hpf).
    destruct Hopp as [[H _] | [H _]]; clear -H;
      revert n H; induction pf as [| c pf IH]; intros [| n] H; try discriminate;
      cbn; try lia; specialize (IH n H); lia. }
  destruct (lookup_lt_is_Some_2 _ _ Hn) as [b Hb].
  destruct Hopp as [[H0 H1] | [H1 H0]].
  - destruct (literals_match_at _ _ _ _ _ Hlf H0 Hb) as [Hz _].
    destruct (literals_match_at _ _ _ _ _ Hlg H1 Hb) as [_ Ho].
    specialize (Hz eq_refl). specialize (Ho eq_refl). lia.
  - destruct (literals_match_at _ _ _ _ _ Hlf H1 Hb) as [_ Ho].
    destruct (literals_match_at _ _ _ _ _ Hlg H0 Hb) as [Hz _].
    specialize (Hz eq_refl). specialize (Ho eq_refl). lia.
Qed.

Lemma Mips_exclusive (instr : list byte) (f g : method) (flds flds' : namespace) :
  f ∈ _ifuncs Mips_isa -> g ∈ _ifuncs Mips_isa ->
  _pattern_match Mips_isa f instr = Ok (Some flds) ->
  _pattern_match Mips_isa g instr = Ok (Some flds') ->
  f = g.
Proof.
  intros Hf Hg Hmf Hmg. cbn [_ifuncs Mips_isa] in Hf, Hg.
  repeat (apply elem_of_cons in Hf; destruct Hf as [-> | Hf]);
    try (now inversion Hf);
    repeat (apply elem_of_cons in Hg; destruct Hg as [-> | Hg]);
    try (now inversion Hg); try reflexivity; exfalso.
  all: first
         [ solve [ apply (opposite_literals_exclusive _ _ _ _ _ _ _ _ 2%nat
                            Hmf Hmg eq_refl eq_refl);
                   first [ left; split; reflexivity | right; split; reflexivity ] ]
         | solve [ apply (opposite_literals_exclusive _ _ _ _ _ _ _ _ 4%nat
                            Hmf Hmg eq_refl eq_refl);
                   first [ left; split; reflexivity | right; split; reflexivity ] ]
         | solve [ apply (opposite_literals_exclusive _ _ _ _ _ _ _ _ 26%nat
                            Hmf Hmg eq_refl eq_refl);
                   first [ left; split; reflexivity | right; split; reflexivity ] ] ].
Qed.

Lemma Mips_pattern_match_total (instr : list byte) (f : method) :
  f ∈ _ifuncs Mips_isa ->
  length instr = 4%nat ->
  exists r, _pattern_match Mips_isa f instr = Ok r.
Proof.
  intros Hf Hlen. unfold _pattern_match. cbn [isize Mips_isa]. rewrite Hlen. cbn [Nat.eqb negb].
  cbn [_ifuncs Mips_isa] in Hf.
  repeat (apply elem_of_cons in Hf; destruct Hf as [-> | Hf]); try (now inversion Hf).
  all: match goal with
       | |- context [_extract_pattern ?s ?f] =>
           let p := eval vm_compute in (_extract_pattern s f) in
           replace (_extract_pattern s f) with p by (vm_compute; reflexivity)
       end; cbn [rbind]; eauto.
Qed.

(** X18.  The four templates of the MIPS machine exclude one another: no
    buffer is matched by two entries, so for this machine the order of the
    catalog never decides anything, and [decode] returns an entry exactly
    when that entry matches. *)
Theorem Mips_decode_unique (instr : list byte) (f : method) (flds : namespace) :
  f ∈ _ifuncs Mips_isa ->
  (decode Mips_isa instr = Ok (f, flds) <->
   _pattern_match Mips_isa f instr = Ok (Some flds)) /\
  (forall g flds',
      g ∈ _ifuncs Mips_isa ->
      _pattern_match Mips_isa f instr = Ok (Some flds) ->
      _pattern_match Mips_isa g instr = Ok (Some flds') ->
      g = f).
Proof.
  intros Hf. split.
  - split.
    + intros Hd. unfold decode in Hd.
      now destruct (decode_loop_inv _ _ _ _ _ Hd) as (_ & _ & _ & _ & H).
    + intros Hm. destruct (pattern_match_inv _ _ _ _ Hm) as (Hlen & _).
      cbn [isize Mips_isa] in Hlen.
      apply list_elem_of_split in Hf. destruct Hf as (pre & post & Hcat).
      unfold decode. rewrite Hcat, decode_loop_first; [now rewrite Hm |].
      apply Forall_forall. intros g Hg.
      assert (g ∈ _ifuncs Mips_isa) as Hgin
        by (rewrite Hcat; apply elem_of_app; now left).
      destruct (Mips_pattern_match_total instr g Hgin Hlen) as [[flds' |] Hr];
        [| exact Hr].
      exfalso.
      assert (f ∈ _ifuncs Mips_isa) as Hfin
        by (rewrite Hcat; apply elem_of_app; right; left).
      pose proof (Mips_exclusive _ _ _ _ _ Hgin Hfin Hr Hm) as ->.
      assert (NoDup (__name__ <$> _ifuncs Mips_isa)) as Hnd
        by (apply (bool_decide_unpack _); vm_compute; reflexivity).
      rewrite Hcat, fmap_app, fmap_cons in Hnd.
      apply NoDup_app in Hnd. destruct Hnd as (_ & Hdis & _).
      apply (Hdis (__name__ f)); [now apply list_elem_of_fmap_2 | left].
  - intros g flds' Hg Hmf Hmg. now apply (Mips_exclusive instr g f flds' flds).
Qed.

Lemma Mips_decode_unique_witness :
  let flds := match _pattern_match Mips_isa instruction_nop [x00; x00; x00; x00] with
              | Ok (Some flds) => flds
              | _ => ∅
              end in
  decode Mips_isa [x00; x00; x00; x00] = Ok (instruction_nop, flds).
Proof.
  intros flds.
  apply (proj1 (Mips_decode_unique [x00; x00; x00; x00] instruction_nop flds
                  ltac:(cbn; repeat ((left; fail) || right); left))).
  vm_compute. reflexivity.
Defined.

(** * The MIPS instructions *)

Lemma bind_run {A B} (c : M A) (k : A -> M B) (m m1 : machine) (a : A) :
  c m = (Ok a, m1) -> bind c k m = k a m1.
Proof. intros H. unfold bind. now rewrite H. Qed.

Lemma self_attr_run (name : string) (m : machine) (v : value) :
  attrs m !! name = Some v -> self_attr name m = (Ok v, m).
Proof. intros H. unfold self_attr, getattr. now rewrite H. Qed.

Lemma get_int_run (name : string) (m : machine) (n : Z) :
  attrs m !! name = Some (VInt n) -> get_int name m = (Ok n, m).
Proof. intros H. unfold get_int, getattr. now rewrite H. Qed.

Lemma set_item_run (name : string) (i x : Z) (m : machine) (d : gmap Z Z) :
  attrs m !! name = Some (VDict d) ->
  set_item name i x m = (Ok tt, with_attr m name (VDict (<[i := x]> d))).
Proof. intros H. unfold set_item, getattr. now rewrite H. Qed.

Lemma field_run (ifield : namespace) (name : string) (v : Z) (m : machine) :
  ifield !! name = Some v -> lift (field ifield name) m = (Ok v, m).
Proof. intros H. unfold lift, field. now rewrite H. Qed.

Lemma step_after_decode (self : IsaDefinition) (m : machine) (instr : list byte)
    (decoded_instr : method * namespace) :
  fst (fetch self m) = Ok instr ->
  decode self instr = Ok decoded_instr ->
  step self m = after_decode self decoded_instr m.
Proof.
  intros Hf Hd. unfold step, after_decode.
  unfold bind at 1. pose proof (fetch_pure self m) as Hp.
  destruct (fetch self m) as [r m0]. cbn in Hf, Hp. subst.
  unfold bind at 1. unfold lift at 1. now rewrite Hd.
Qed.

Lemma format_asm_operands (asm_pattern : string) (ifield : namespace)
    (mnemonic : string) (ops : list (sigil * ascii * Z)) :
  py_split asm_pattern
  = mnemonic :: ((fun o => operand_token (fst (fst o)) (snd (fst o))) <$> ops) ->
  Forall (fun o => ifield !! String (snd (fst o)) "" = Some (snd o)) ops ->
  _format_asm asm_pattern ifield
  = Ok (String.concat " " (mnemonic :: ((fun o => render (fst (fst o)) (snd o)) <$> ops))).
Proof.
  intros Htok Hops. unfold _format_asm. rewrite Htok.
  cbn [format_parts format_part Nat.eqb rbind].
  now rewrite format_parts_operands by exact Hops.
Qed.

Lemma pattern_match_field (self : IsaDefinition) (ifunc : method) (instr : list byte)
    (flds : namespace) (pattern : string) (c : ascii) :
  _pattern_match self ifunc instr = Ok (Some flds) ->
  _extract_pattern self ifunc = Ok pattern ->
  occurs c pattern = true ->
  exists v, flds !! String c "" = Some v /\
            0 <= v < 2 ^ Z.of_nat (count_char c pattern).
Proof.
  intros Hpm Hpat Hc.
  destruct (pattern_match_inv _ _ _ _ Hpm) as (Hlen & pattern' & Hpat' & Hm).
  rewrite Hpat in Hpat'. injection Hpat' as <-.
  destruct (instr_bits_shape self instr) as [Hbits Hl].
  assert (String.length pattern = length (instr_bits self instr)) as Hlp
    by (rewrite Hl; now apply extract_pattern_length with ifunc).
  rewrite (match_bits_fields _ _ _ Hbits Hlp Hm c), Hc.
  eexists. split; [reflexivity |].
  pose proof (msb_value_bound _ (select_bits_is_bit c pattern _ Hbits) 0 ltac:(lia))
    as Hb.
  rewrite length_select_bits in Hb by exact Hlp. unfold msb_value. lia.
Qed.

Lemma Mips_finalize_run (ifunction : method) (ifields : namespace) (m : machine)
    (d : gmap Z Z) (pc : Z) :
  attrs m !! "R" = Some (VDict d) ->
  attrs m !! "PC" = Some (VInt pc) ->
  Mips_finalize_execution (ifunction, ifields) m
  = (Ok tt, if in_jumps ifunction
            then with_attr m "R" (VDict (<[0 := 0]> d))
            else Mips_after m d (pc + 4)).
Proof.
  intros HR HPC. unfold Mips_finalize_execution.
  rewrite (bind_run _ _ _ _ _ (set_item_run "R" 0 0 m d HR)).
  destruct (in_jumps ifunction); cbn [negb]; [reflexivity |].
  erewrite bind_run; [reflexivity |].
  apply get_int_run. cbn [attrs with_attr]. now rewrite lookup_insert_ne.
Qed.

Lemma with_attr_twice (m : machine) (name : string) (v1 v2 : value) :
  with_attr (with_attr m name v1) name v2 = with_attr m name v2.
Proof. unfold with_attr. cbn. now rewrite insert_insert_eq. Qed.

Lemma Mips_after_state (m : machine) (d d' : gmap Z Z) (pc pc' : Z) :
  Mips_state m d pc ->
  (forall i, is_Some (d !! i) -> is_Some (d' !! i)) ->
  Mips_state (Mips_after m d' pc') (<[0 := 0]> d') pc' /\
  _mem (Mips_after m d' pc') = _mem m /\
  _reg_list (Mips_after m d' pc') = _reg_list m /\
  forall name, name <> "R" -> name <> "PC" ->
               attrs (Mips_after m d' pc') !! name = attrs m !! name.
Proof.
  intros (HR & HPC & Hall) Hkeep. unfold Mips_after, Mips_state, with_attr.
  cbn [attrs _mem _reg_list]. repeat split.
  - rewrite lookup_insert_ne by discriminate. apply lookup_insert_eq.
  - apply lookup_insert_eq.
  - intros i Hi. destruct (decide (i = 0)) as [-> | Hne].
    + rewrite lookup_insert_eq. eauto.
    + rewrite lookup_insert_ne by congruence. apply Hkeep, Hall, Hi.
  - intros name H1 H2. now rewrite !lookup_insert_ne by congruence.
Qed.

Lemma with_attr_swap (m : machine) (n1 n2 : string) (v1 v2 : value) :
  n1 <> n2 ->
  with_attr (with_attr m n1 v1) n2 v2 = with_attr (with_attr m n2 v2) n1 v1.
Proof. intros Hne. unfold with_attr. cbn. now rewrite insert_insert_ne. Qed.

Lemma after_decode_run (ifunction : method) (flds : namespace) (m m1 : machine)
    (d1 : gmap Z Z) (pc1 : Z) (text : string) :
  call ifunction flds m = (Ok tt, m1) ->
  attrs m1 !! "R" = Some (VDict d1) ->
  attrs m1 !! "PC" = Some (VInt pc1) ->
  istring (ifunction, flds) = Ok text ->
  after_decode Mips_isa (ifunction, flds) m
  = (Ok text, if in_jumps ifunction
              then with_attr m1 "R" (VDict (<[0 := 0]> d1))
              else Mips_after m1 d1 (pc1 + 4)).
Proof.
  intros Hcall HR HPC Htext. unfold after_decode. cbn [execute finalize_execution Mips_isa].
  rewrite (bind_run _ _ _ _ _ Hcall).
  rewrite (bind_run _ _ _ _ _ (Mips_finalize_run ifunction flds m1 d1 pc1 HR HPC)).
  unfold lift. now rewrite Htext.
Qed.

Lemma run_add (m : machine) (d : gmap Z Z) (pc : Z) (flds : namespace)
    (s t dd x y : Z) :
  Mips_state m d pc ->
  flds !! "s" = Some s -> flds !! "t" = Some t -> flds !! "d" = Some dd ->
  d !! s = Some x -> d !! t = Some y ->
  after_decode Mips_isa (instruction_add, flds) m
  = (Ok (String.concat " " ["addi"; "$" +:+ py_str dd; "$" +:+ py_str s;
                            "$" +:+ py_str t]),
     Mips_after m (<[dd := x + y]> d) (pc + 4)).
Proof.
  intros (HR & HPC & _) Hs Ht Hd Hx Hy.
  erewrite (after_decode_run instruction_add flds m
              (with_attr m "R" (VDict (<[dd := x + y]> d)))).
  - cbn [in_jumps]. change (in_jumps instruction_add) with false. cbn match.
    unfold Mips_after. now rewrite with_attr_twice.
  - cbn [call instruction_add].
    rewrite (bind_run _ _ _ _ _ (self_attr_run "R" m _ HR)).
    rewrite (bind_run _ _ _ _ _ (field_run flds "s" s m Hs)).
    unfold lift at 1. cbn [subscript]. rewrite Hx. unfold bind at 1.
    rewrite (bind_run _ _ _ _ _ (self_attr_run "R" m _ HR)).
    rewrite (bind_run _ _ _ _ _ (field_run flds "t" t m Ht)).
    unfold lift at 1. cbn [subscript]. rewrite Hy. unfold bind at 1.
    rewrite (bind_run _ _ _ _ _ (field_run flds "d" dd m Hd)).
    now apply set_item_run.
  - cbn [attrs with_attr]. apply lookup_insert_eq.
  - cbn [attrs with_attr]. rewrite lookup_insert_ne by discriminate. exact HPC.
  - unfold istring.
    replace (_extract_asm instruction_add) with (Ok "addi $d $s $t")
      by (vm_compute; reflexivity).
    cbn [rbind].
    apply (format_asm_operands "addi $d $s $t" flds "addi"
             [(SRegister, "d"%char, dd); (SRegister, "s"%char, s);
              (SRegister, "t"%char, t)]).
    + vm_compute. reflexivity.
    + repeat constructor; assumption.
Qed.

Lemma run_addi (m : machine) (d : gmap Z Z) (pc : Z) (flds : namespace)
    (s t i x : Z) :
  Mips_state m d pc ->
  flds !! "s" = Some s -> flds !! "t" = Some t -> flds !! "i" = Some i ->
  0 <= i < 2 ^ 16 ->
  d !! s = Some x ->
  after_decode Mips_isa (instruction_addi sign_extend, flds) m
  = (Ok (String.concat " " ["addi"; "$" +:+ py_str t; "$" +:+ py_str s; py_hex i]),
     Mips_after m (<[t := x + (if Z.testbit i 15 then i - 2 ^ 16 else i)]> d) (pc + 4)).
Proof.
  intros (HR & HPC & _) Hs Ht Hi Hrange Hx.
  erewrite (after_decode_run (instruction_addi sign_extend) flds m
              (with_attr m "R"
                 (VDict (<[t := x + (if Z.testbit i 15 then i - 2 ^ 16 else i)]> d)))).
  - change (in_jumps (instruction_addi sign_extend)) with false. cbn match.
    unfold Mips_after. now rewrite with_attr_twice.
  - cbn [call instruction_addi].
    rewrite (bind_run _ _ _ _ _ (self_attr_run "R" m _ HR)).
    rewrite (bind_run _ _ _ _ _ (field_run flds "s" s m Hs)).
    unfold lift at 1. cbn [subscript]. rewrite Hx. unfold bind at 1.
    rewrite (bind_run _ _ _ _ _ (field_run flds "i" i m Hi)).
    unfold lift at 1. rewrite (sign_extend_in_range i 16) by lia. unfold bind at 1.
    rewrite (bind_run _ _ _ _ _ (field_run flds "t" t m Ht)).
    now apply set_item_run.
  - cbn [attrs with_attr]. apply lookup_insert_eq.
  - cbn [attrs with_attr]. rewrite lookup_insert_ne by discriminate. exact HPC.
  - unfold istring.
    replace (_extract_asm (instruction_addi sign_extend)) with (Ok "addi $t $s !i")
      by (vm_compute; reflexivity).
    cbn [rbind].
    apply (format_asm_operands "addi $t $s !i" flds "addi"
             [(SRegister, "t"%char, t); (SRegister, "s"%char, s);
              (SImmediate, "i"%char, i)]).
    + vm_compute. reflexivity.
    + repeat constructor; assumption.
Qed.

Lemma run_j (m : machine) (d : gmap Z Z) (pc : Z) (flds : namespace) (a : Z) :
  Mips_state m d pc ->
  flds !! "a" = Some a ->
  after_decode Mips_isa (instruction_j (fun v u l => bit_select v u l false), flds) m
  = (Ok (String.concat " " ["j"; py_hex (Z.shiftl a 2)]),
     Mips_after m d (Z.land (pc + 4) 4026531840 + Z.shiftl a 2)).
Proof.
  intros (HR & HPC & _) Ha.
  erewrite (after_decode_run (instruction_j _) flds m
              (with_attr m "PC" (VInt (Z.land (pc + 4) 4026531840 + Z.shiftl a 2)))).
  - change (in_jumps (instruction_j (fun v u l => bit_select v u l false))) with true.
    cbn match. unfold Mips_after. now rewrite with_attr_swap by discriminate.
  - cbn [call instruction_j].
    rewrite (bind_run _ _ _ _ _ (get_int_run "PC" m pc HPC)).
    unfold lift at 1. rewrite bit_select_unfold by lia.
    rewrite Z.shiftr_0_r. unfold bind at 1.
    rewrite (bind_run _ _ _ _ _ (field_run flds "a" a m Ha)).
    unfold lift at 1, py_lshift. change (2 <? 0) with false. unfold bind at 1.
    reflexivity.
  - cbn [attrs with_attr]. rewrite lookup_insert_ne by discriminate. exact HR.
  - cbn [attrs with_attr]. apply lookup_insert_eq.
  - unfold istring.
    replace (_extract_asm (instruction_j (fun v u l => bit_select v u l false)))
      with (Ok "j @a") by (vm_compute; reflexivity).
    cbn [rbind].
    apply (format_asm_operands "j @a" flds "j" [(SAddress, "a"%char, a)]).
    + vm_compute. reflexivity.
    + repeat constructor; assumption.
Qed.

Lemma run_nop (m : machine) (d : gmap Z Z) (pc : Z) (flds : namespace) :
  Mips_state m d pc ->
  after_decode Mips_isa (instruction_nop, flds) m
  = (Ok "nop", Mips_after m d (pc + 4)).
Proof.
  intros (HR & HPC & _).
  erewrite (after_decode_run instruction_nop flds m m); try eassumption.
  - reflexivity.
  - reflexivity.
  - vm_compute. reflexivity.
Qed.

Lemma Mips_fields_add (instr : list byte) (flds : namespace) :
  _pattern_match Mips_isa instruction_add instr = Ok (Some flds) ->
  exists s t dd,
    flds !! "s" = Some s /\ flds !! "t" = Some t /\ flds !! "d" = Some dd /\
    0 <= s < 32 /\ 0 <= t < 32 /\ 0 <= dd < 32.
Proof.
  intros Hpm.
  assert (_extract_pattern Mips_isa instruction_add
          = Ok "000000ssssstttttdddddxxxxx100000") as Hpat by (vm_compute; reflexivity).
  destruct (pattern_match_field _ _ _ _ _ "s"%char Hpm Hpat eq_refl) as (s & Hs & Hbs).
  destruct (pattern_match_field _ _ _ _ _ "t"%char Hpm Hpat eq_refl) as (t & Ht & Hbt).
  destruct (pattern_match_field _ _ _ _ _ "d"%char Hpm Hpat eq_refl) as (dd & Hd & Hbd).
  change (2 ^ Z.of_nat (count_char _ _)) with 32 in Hbs, Hbt, Hbd.
  exists s, t, dd. repeat split; try assumption; lia.
Qed.

Lemma Mips_fields_addi (instr : list byte) (flds : namespace) :
  _pattern_match Mips_isa (instruction_addi sign_extend) instr = Ok (Some flds) ->
  exists s t i,
    flds !! "s" = Some s /\ flds !! "t" = Some t /\ flds !! "i" = Some i /\
    0 <= s < 32 /\ 0 <= t < 32 /\ 0 <= i < 65536.
Proof.
  intros Hpm.
  assert (_extract_pattern Mips_isa (instruction_addi sign_extend)
          = Ok "001000ssssstttttiiiiiiiiiiiiiiii") as Hpat by (vm_compute; reflexivity).
  destruct (pattern_match_field _ _ _ _ _ "s"%char Hpm Hpat eq_refl) as (s & Hs & Hbs).
  destruct (pattern_match_field _ _ _ _ _ "t"%char Hpm Hpat eq_refl) as (t & Ht & Hbt).
  destruct (pattern_match_field _ _ _ _ _ "i"%char Hpm Hpat eq_refl) as (i & Hi & Hbi).
  change (2 ^ Z.of_nat (count_char _ _)) with 32 in Hbs, Hbt.
  change (2 ^ Z.of_nat (count_char _ _)) with 65536 in Hbi.
  exists s, t, i. repeat split; try assumption; lia.
Qed.

Lemma Mips_fields_j (instr : list byte) (flds : namespace) :
  _pattern_match Mips_isa (instruction_j (fun v u l => bit_select v u l false)) instr
  = Ok (Some flds) ->
  exists a, flds !! "a" = Some a /\ 0 <= a < 2 ^ 26.
Proof.
  intros Hpm.
  assert (_extract_pattern Mips_isa (instruction_j (fun v u l => bit_select v u l false))
          = Ok "000010aaaaaaaaaaaaaaaaaaaaaaaaaa") as Hpat by (vm_compute; reflexivity).
  destruct (pattern_match_field _ _ _ _ _ "a"%char Hpm Hpat eq_refl) as (a & Ha & Hba).
  change (Z.of_nat (count_char _ _)) with 26 in Hba.
  exists a. split; [exact Ha | exact Hba].
Qed.

Lemma decode_match (self : IsaDefinition) (instr : list byte) (f : method)
    (flds : namespace) :
  decode self instr = Ok (f, flds) ->
  f ∈ _ifuncs self /\ _pattern_match self f instr = Ok (Some flds).
Proof.
  unfold decode. intros Hd.
  destruct (decode_loop_inv _ _ _ _ _ Hd) as (pre & post & -> & _ & Hf).
  split; [| exact Hf]. apply elem_of_app. right. left.
Qed.

(** X19.  From a state in which [R] holds all 32 registers and [PC] an
    integer, a [step] of the MIPS machine is atomic and keeps that shape:
    either it raises and the machine is exactly as before, the exception
    being the one of the fetch or of the decode, or it returns the
    disassembly and leaves a machine of the same shape, with register 0
    equal to 0, the memory, the register list and every other attribute
    untouched.  No MIPS instruction fails after it was decoded. *)
Theorem Mips_step_atomic (m : machine) (d : gmap Z Z) (pc : Z) :
  Mips_state m d pc ->
  (exists e,
      step Mips_isa m = (Raise e, m) /\
      (fst (fetch Mips_isa m) = Raise e \/
       exists instr, fst (fetch Mips_isa m) = Ok instr /\
                     decode Mips_isa instr = Raise e)) \/
  (exists out d' pc',
      step Mips_isa m = (Ok out, Mips_after m d' pc') /\
      Mips_state (Mips_after m d' pc') (<[0 := 0]> d') pc' /\
      _mem (Mips_after m d' pc') = _mem m /\
      _reg_list (Mips_after m d' pc') = _reg_list m /\
      forall name, name <> "R" -> name <> "PC" ->
                   attrs (Mips_after m d' pc') !! name = attrs m !! name).
Proof.
  intros Hst. pose proof Hst as (HR & HPC & Hall).
  destruct (fst (fetch Mips_isa m)) as [instr | e] eqn:Hfetch.
  2:{ left. exists e. split; [| now left].
      unfold step, bind. pose proof (fetch_pure Mips_isa m) as Hp.
      destruct (fetch Mips_isa m) as [r m0]. cbn in Hfetch, Hp. now subst. }
  destruct (decode Mips_isa instr) as [[f flds] | e] eqn:Hdec.
  2:{ left. exists e. split; [| right; eauto].
      unfold step, bind. pose proof (fetch_pure Mips_isa m) as Hp.
      destruct (fetch Mips_isa m) as [r m0]. cbn in Hfetch, Hp. subst.
      unfold lift. now rewrite Hdec. }
  right. rewrite (step_after_decode _ _ _ _ Hfetch Hdec).
  destruct (decode_match _ _ _ _ Hdec) as [Hin Hpm].
  cbn [_ifuncs Mips_isa] in Hin.
  repeat (apply elem_of_cons in Hin; destruct Hin as [-> | Hin]); [| | | | inversion Hin].
  - destruct (Mips_fields_add _ _ Hpm) as (s & t & dd & Hs & Ht & Hd & Hbs & Hbt & _).
    destruct (Hall s Hbs) as [x Hx]. destruct (Hall t Hbt) as [y Hy].
    rewrite (run_add m d pc flds s t dd x y Hst Hs Ht Hd Hx Hy).
    eexists _, _, _. split; [reflexivity |].
    apply (Mips_after_state m d _ pc _ Hst).
    intros i Hi. destruct (decide (dd = i)) as [-> | Hne];
      [rewrite lookup_insert_eq; eauto | now rewrite lookup_insert_ne].
  - destruct (Mips_fields_addi _ _ Hpm) as (s & t & i & Hs & Ht & Hi & Hbs & _ & Hbi).
    destruct (Hall s Hbs) as [x Hx].
    rewrite (run_addi m d pc flds s t i x Hst Hs Ht Hi ltac:(lia) Hx).
    eexists _, _, _. split; [reflexivity |].
    apply (Mips_after_state m d _ pc _ Hst).
    intros k Hk. destruct (decide (t = k)) as [-> | Hne];
      [rewrite lookup_insert_eq; eauto | now rewrite lookup_insert_ne].
  - destruct (Mips_fields_j _ _ Hpm) as (a & Ha & _).
    rewrite (run_j m d pc flds a Hst Ha).
    eexists _, _, _. split; [reflexivity |].
    apply (Mips_after_state m d _ pc _ Hst). auto.
  - rewrite (run_nop m d pc flds Hst).
    eexists _, _, _. split; [reflexivity |].
    apply (Mips_after_state m d _ pc _ Hst). auto.
Qed.

Lemma Mips_with_program_state (data : list byte) :
  Mips_state (Mips_with_program data) (dict_of_range 32 (fun _ => 0)) 0.
Proof.
  split; [| split].
  - reflexivity.
  - reflexivity.
  - intros i Hi. rewrite dict_of_range_lookup by lia. eauto.
Qed.

Lemma Mips_step_atomic_witness :
  let m := Mips_with_program [xff; xff; xff; xff] in
  let m1 := Mips_with_program [x21; x08; x00; x04] in
  step Mips_isa m = (Raise (ISAError UnableToDecode), m) /\
  exists out d' pc',
    step Mips_isa m1 = (Ok out, Mips_after m1 d' pc') /\
    Mips_state (Mips_after m1 d' pc') (<[0 := 0]> d') pc'.
Proof.
  intros m m1. split.
  - destruct (Mips_step_atomic m _ _ (Mips_with_program_state _))
      as [(e & He & _) | (out & d' & pc' & Hstep & _)].
    + assert (fst (step Mips_isa m) = Raise (ISAError UnableToDecode)) as Hr
        by (vm_compute; reflexivity).
      rewrite He in Hr. cbn in Hr. now rewrite <- Hr.
    + assert (fst (step Mips_isa m) = Raise (ISAError UnableToDecode)) as Hr
        by (vm_compute; reflexivity).
      rewrite Hstep in Hr. discriminate.
  - destruct (Mips_step_atomic m1 _ _ (Mips_with_program_state _))
      as [(e & He & _) | (out & d' & pc' & Hstep & Hst & _)].
    + assert (fst (step Mips_isa m1) = Ok "addi $8 $8 0x4") as Hr
        by (vm_compute; reflexivity).
      rewrite He in Hr. discriminate.
    + eauto.
Defined.

(** X20.  When the fetched word decodes to [addi], the step adds the
    16-bit immediate, read as a signed number, to register [s] and stores
    the exact sum in register [t]: nothing is reduced modulo 2^32.  The
    finalize hook then clears register 0, so a write to register 0 is
    discarded, and advances [PC] by 4.  The disassembly shows the immediate
    as the unsigned field in hexadecimal. *)
Theorem Mips_addi_effect (m : machine) (d : gmap Z Z) (pc : Z) (instr : list byte)
    (flds : namespace) :
  Mips_state m d pc ->
  fst (fetch Mips_isa m) = Ok instr ->
  decode Mips_isa instr = Ok (instruction_addi sign_extend, flds) ->
  exists s t i x,
    flds !! "s" = Some s /\ flds !! "t" = Some t /\ flds !! "i" = Some i /\
    d !! s = Some x /\
    step Mips_isa m
    = (Ok (String.concat " " ["addi"; "$" +:+ py_str t; "$" +:+ py_str s; py_hex i]),
       Mips_after m (<[t := x + (if 32768 <=? i then i - 65536 else i)]> d) (pc + 4)).
Proof.
  intros Hst Hfetch Hdec. pose proof Hst as (_ & _ & Hall).
  destruct (decode_match _ _ _ _ Hdec) as [_ Hpm].
  destruct (Mips_fields_addi _ _ Hpm) as (s & t & i & Hs & Ht & Hi & Hbs & _ & Hbi).
  destruct (Hall s Hbs) as [x Hx].
  exists s, t, i, x. repeat (split; [assumption |]).
  rewrite (step_after_decode _ _ _ _ Hfetch Hdec).
  rewrite (run_addi m d pc flds s t i x Hst Hs Ht Hi ltac:(lia) Hx).
  change 15 with (16 - 1). rewrite (top_bit_threshold i 16) by lia. reflexivity.
Qed.

Lemma Mips_addi_effect_witness :
  let m := Mips_with_program [x20; x09; xff; xfe] in
  exists x,
    dict_of_range 32 (fun _ => 0) !! 0 = Some x /\
    step Mips_isa m
    = (Ok "addi $9 $0 0xfffe",
       Mips_after m (<[9 := x + (-2)]> (dict_of_range 32 (fun _ => 0))) 4).
Proof.
  intros m.
  pose (flds := match _pattern_match Mips_isa (instruction_addi sign_extend)
                        [x20; x09; xff; xfe] with
                | Ok (Some flds) => flds
                | _ => ∅
                end).
  assert (decode Mips_isa [x20; x09; xff; xfe]
          = Ok (instruction_addi sign_extend, flds)) as Hd.
  { unfold decode. cbn [_ifuncs Mips_isa decode_loop].
    replace (_pattern_match Mips_isa instruction_add [x20; x09; xff; xfe])
      with (@Ok (option namespace) None) by (vm_compute; reflexivity).
    cbn [rbind].
    replace (_pattern_match Mips_isa (instruction_addi sign_extend) [x20; x09; xff; xfe])
      with (Ok (Some flds)) by (vm_compute; reflexivity).
    reflexivity. }
  destruct (Mips_addi_effect m _ 0 [x20; x09; xff; xfe] flds
              (Mips_with_program_state _) ltac:(vm_compute; reflexivity) Hd)
    as (s & t & i & x & Hs & Ht & Hi & Hx & Hstep).
  assert (flds !! "s" = Some 0) as Hs0 by (vm_compute; reflexivity).
  assert (flds !! "t" = Some 9) as Ht0 by (vm_compute; reflexivity).
  assert (flds !! "i" = Some 65534) as Hi0 by (vm_compute; reflexivity).
  rewrite Hs0 in Hs. injection Hs as <-.
  rewrite Ht0 in Ht. injection Ht as <-.
  rewrite Hi0 in Hi. injection Hi as <-.
  exists x. split; [exact Hx |]. exact Hstep.
Defined.

(** X21.  When the fetched word decodes to [add], the step stores in
    register [d] the exact sum of registers [s] and [t] (no reduction
    modulo 2^32), clears register 0 and advances [PC] by 4; the five bits
    marked [x] in the template are ignored.  The disassembly starts with
    [addi], not [add]: that is the mnemonic written in the docstring of
    [instruction_add]. *)
Theorem Mips_add_effect (m : machine) (d : gmap Z Z) (pc : Z) (instr : list byte)
    (flds : namespace) :
  Mips_state m d pc ->
  fst (fetch Mips_isa m) = Ok instr ->
  decode Mips_isa instr = Ok (instruction_add, flds) ->
  exists s t dd x y,
    flds !! "s" = Some s /\ flds !! "t" = Some t /\ flds !! "d" = Some dd /\
    d !! s = Some x /\ d !! t = Some y /\
    step Mips_isa m
    = (Ok (String.concat " " ["addi"; "$" +:+ py_str dd; "$" +:+ py_str s;
                              "$" +:+ py_str t]),
       Mips_after m (<[dd := x + y]> d) (pc + 4)).
Proof.
  intros Hst Hfetch Hdec. pose proof Hst as (_ & _ & Hall).
  destruct (decode_match _ _ _ _ Hdec) as [_ Hpm].
  destruct (Mips_fields_add _ _ Hpm) as (s & t & dd & Hs & Ht & Hd & Hbs & Hbt & _).
  destruct (Hall s Hbs) as [x Hx]. destruct (Hall t Hbt) as [y Hy].
  exists s, t, dd, x, y. repeat (split; [assumption |]).
  rewrite (step_after_decode _ _ _ _ Hfetch Hdec).
  apply (run_add m d pc flds s t dd x y Hst Hs Ht Hd Hx Hy).
Qed.

Lemma Mips_add_effect_witness :
  let m := Mips_with_program [x01; x09; x50; x20] in
  exists x y,
    step Mips_isa m
    = (Ok "addi $10 $8 $9",
       Mips_after m (<[10 := x + y]> (dict_of_range 32 (fun _ => 0))) 4).
Proof.
  intros m.
  pose (flds := match _pattern_match Mips_isa instruction_add [x01; x09; x50; x20] with
                | Ok (Some flds) => flds
                | _ => ∅
                end).
  assert (decode Mips_isa [x01; x09; x50; x20] = Ok (instruction_add, flds)) as Hd.
  { unfold decode. cbn [_ifuncs Mips_isa decode_loop].
    replace (_pattern_match Mips_isa instruction_add [x01; x09; x50; x20])
      with (Ok (Some flds)) by (vm_compute; reflexivity).
    reflexivity. }
  destruct (Mips_add_effect m _ 0 [x01; x09; x50; x20] flds
              (Mips_with_program_state _) ltac:(vm_compute; reflexivity) Hd)
    as (s & t & dd & x & y & Hs & Ht & Hdd & Hx & Hy & Hstep).
  assert (flds !! "s" = Some 8) as Hs0 by (vm_compute; reflexivity).
  assert (flds !! "t" = Some 9) as Ht0 by (vm_compute; reflexivity).
  assert (flds !! "d" = Some 10) as Hd0 by (vm_compute; reflexivity).
  rewrite Hs0 in Hs. injection Hs as <-.
  rewrite Ht0 in Ht. injection Ht as <-.
  rewrite Hd0 in Hdd. injection Hdd as <-.
  exists x, y. exact Hstep.
Defined.

(** X22.  When the fetched word decodes to [j], the step sets [PC] to
    the top four bits of [PC + 4] (bits 28 to 31, left in place) plus four
    times the 26-bit field [a]; the hook clears register 0 and adds
    nothing to [PC].  The disassembly is [j] and the hexadecimal of
    [4 * a]. *)
Theorem Mips_j_effect (m : machine) (d : gmap Z Z) (pc : Z) (instr : list byte)
    (flds : namespace) :
  Mips_state m d pc ->
  fst (fetch Mips_isa m) = Ok instr ->
  decode Mips_isa instr
  = Ok (instruction_j (fun v u l => bit_select v u l false), flds) ->
  exists a,
    flds !! "a" = Some a /\ 0 <= a < 2 ^ 26 /\
    step Mips_isa m
    = (Ok (String.concat " " ["j"; py_hex (4 * a)]),
       Mips_after m d (((pc + 4) / 2 ^ 28) mod 16 * 2 ^ 28 + 4 * a)).
Proof.
  intros Hst Hfetch Hdec.
  destruct (decode_match _ _ _ _ Hdec) as [_ Hpm].
  destruct (Mips_fields_j _ _ Hpm) as (a & Ha & Hba).
  exists a. split; [exact Ha |]. split; [exact Hba |].
  rewrite (step_after_decode _ _ _ _ Hfetch Hdec).
  rewrite (run_j m d pc flds a Hst Ha).
  rewrite Z.shiftl_mul_pow2 by lia. change (2 ^ 2) with 4.
  rewrite (Z.mul_comm a 4).
  assert (Z.land (pc + 4) 4026531840 = ((pc + 4) / 2 ^ 28) mod 16 * 2 ^ 28) as ->;
    [| reflexivity].
  apply Z.bits_inj'. intros k Hk.
  change 4026531840 with (Z.land (Z.ones (31 + 1)) (Z.lnot (Z.ones 28))).
  rewrite Z.land_spec, bit_select_mask by lia.
  rewrite Z.mul_pow2_bits by lia. change 16 with (2 ^ 4).
  destruct (Z.leb_spec 28 k).
  - destruct (Z.leb_spec k 31).
    + rewrite Z.mod_pow2_bits_low, Z.div_pow2_bits by lia.
      replace (k - 28 + 28) with k by lia. apply andb_true_r.
    + rewrite (Z.mod_pow2_bits_high _ _ (k - 28)) by lia. apply andb_false_r.
  - rewrite (Z.testbit_neg_r _ (k - 28)) by lia. apply andb_false_r.
Qed.

Lemma Mips_j_effect_witness :
  let m := Mips_with_program [x08; x00; x00; x03] in
  step Mips_isa m
  = (Ok "j 0xc", Mips_after m (dict_of_range 32 (fun _ => 0)) 12).
Proof.
  intros m.
  pose (flds := match _pattern_match Mips_isa
                        (instruction_j (fun v u l => bit_select v u l false))
                        [x08; x00; x00; x03] with
                | Ok (Some flds) => flds
                | _ => ∅
                end).
  assert (decode Mips_isa [x08; x00; x00; x03]
          = Ok (instruction_j (fun v u l => bit_select v u l false), flds)) as Hd.
  { unfold decode. cbn [_ifuncs Mips_isa decode_loop].
    replace (_pattern_match Mips_isa instruction_add [x08; x00; x00; x03])
      with (@Ok (option namespace) None) by (vm_compute; reflexivity).
    cbn [rbind].
    replace (_pattern_match Mips_isa (instruction_addi sign_extend) [x08; x00; x00; x03])
      with (@Ok (option namespace) None) by (vm_compute; reflexivity).
    cbn [rbind].
    replace (_pattern_match Mips_isa
               (instruction_j (fun v u l => bit_select v u l false))
               [x08; x00; x00; x03])
      with (Ok (Some flds)) by (vm_compute; reflexivity).
    reflexivity. }
  destruct (Mips_j_effect m _ 0 [x08; x00; x00; x03] flds
              (Mips_with_program_state _) ltac:(vm_compute; reflexivity) Hd)
    as (a & Ha & _ & Hstep).
  assert (flds !! "a" = Some 3) as Ha0 by (vm_compute; reflexivity).
  rewrite Ha0 in Ha. injection Ha as <-.
  exact Hstep.
Defined.

(** X23.  When the fetched word decodes to [nop], the step returns
    ["nop"], advances [PC] by 4 and clears register 0; no other register,
    attribute or memory byte changes. *)
Theorem Mips_nop_effect (m : machine) (d : gmap Z Z) (pc : Z) (instr : list byte)
    (flds : namespace) :
  Mips_state m d pc ->
  fst (fetch Mips_isa m) = Ok instr ->
  decode Mips_isa instr = Ok (instruction_nop, flds) ->
  step Mips_isa m = (Ok "nop", Mips_after m d (pc + 4)) /\
  _mem (Mips_after m d (pc + 4)) = _mem m /\
  forall name, name <> "R" -> name <> "PC" ->
               attrs (Mips_after m d (pc + 4)) !! name = attrs m !! name.
Proof.
  intros Hst Hfetch Hdec. split; [| split].
  - rewrite (step_after_decode _ _ _ _ Hfetch Hdec). now apply run_nop.
  - reflexivity.
  - intros name HR HPC. unfold Mips_after, with_attr. cbn [attrs].
    rewrite !lookup_insert_ne by congruence. reflexivity.
Qed.

Lemma Mips_nop_effect_witness :
  let m := Mips_with_program [x00; x00; x00; x00] in
  step Mips_isa m = (Ok "nop", Mips_after m (dict_of_range 32 (fun _ => 0)) 4).
Proof.
  intros m.
  pose (flds := match _pattern_match Mips_isa instruction_nop [x00; x00; x00; x00] with
                | Ok (Some flds) => flds
                | _ => ∅
                end).
  assert (decode Mips_isa [x00; x00; x00; x00] = Ok (instruction_nop, flds)) as Hd.
  { unfold decode. cbn [_ifuncs Mips_isa decode_loop].
    replace (_pattern_match Mips_isa instruction_add [x00; x00; x00; x00])
      with (@Ok (option namespace) None) by (vm_compute; reflexivity).
    cbn [rbind].
    replace (_pattern_match Mips_isa (instruction_addi sign_extend) [x00; x00; x00; x00])
      with (@Ok (option namespace) None) by (vm_compute; reflexivity).
    cbn [rbind].
    replace (_pattern_match Mips_isa
               (instruction_j (fun v u l => bit_select v u l false))
               [x00; x00; x00; x00])
      with (@Ok (option namespace) None) by (vm_compute; reflexivity).
    cbn [rbind].
    replace (_pattern_match Mips_isa instruction_nop [x00; x00; x00; x00])
      with (Ok (Some flds)) by (vm_compute; reflexivity).
    reflexivity. }
  exact (proj1 (Mips_nop_effect m _ 0 [x00; x00; x00; x00] flds
                  (Mips_with_program_state _) ltac:(vm_compute; reflexivity) Hd)).
Defined.

(** ** Fields that occupy consecutive template positions *)

Lemma length_append (s1 s2 : string) :
  String.length (s1 +:+ s2) = (String.length s1 + String.length s2)%nat.
Proof.
  induction s1 as [| c s1 IH]; [reflexivity |].
  change (String c s1 +:+ s2) with (String c (s1 +:+ s2)). cbn [String.length].
  now rewrite IH.
Qed.

Lemma length_run_of (c : ascii) (k : nat) : String.length (run_of c k) = k.
Proof. induction k as [| k IH]; [reflexivity |]. cbn. now rewrite IH. Qed.

Lemma bits_of_S (n : Z) (w : nat) :
  bits_of n (S w) = Z.land (Z.shiftr n (Z.of_nat w)) 1 :: bits_of n w.
Proof.
  unfold bits_of. change (S w) with (1 + w)%nat at 1.
  rewrite Nat.add_comm, seq_app, rev_app_distr. cbn [seq rev app fmap list_fmap].
  do 3 f_equal. lia.
Qed.

Lemma bits_of_app (n : Z) (a b : nat) :
  bits_of n (a + b) = (bits_of (n / 2 ^ Z.of_nat b) a ++ bits_of n b)%list.
Proof.
  induction a as [| a IH]; [reflexivity |].
  change (S a + b)%nat with (S (a + b)). rewrite !bits_of_S, IH. cbn [app].
  f_equal. f_equal.
  rewrite <- Z.shiftr_div_pow2 by lia. rewrite Z.shiftr_shiftr by lia.
  f_equal. lia.
Qed.

Lemma select_bits_app (c : ascii) (p1 p2 : string) :
  forall b1 b2,
    String.length p1 = length b1 ->
    select_bits c (p1 +:+ p2) (b1 ++ b2)
    = (select_bits c p1 b1 ++ select_bits c p2 b2)%list.
Proof.
  induction p1 as [| p p1 IH]; intros b1 b2 Hlen.
  - destruct b1; [reflexivity | discriminate].
  - destruct b1 as [| b b1]; [discriminate |].
    change (String p p1 +:+ p2) with (String p (p1 +:+ p2)).
    cbn [app select_bits]. cbn in Hlen.
    rewrite IH by lia. now destruct (Ascii.eqb p c).
Qed.

Lemma select_bits_absent (c : ascii) (pattern : string) :
  forall bits, occurs c pattern = false -> select_bits c pattern bits = [].
Proof.
  unfold occurs.
  induction pattern as [| p pattern IH]; intros bits Ho; [reflexivity |].
  destruct bits as [| b bits]; [reflexivity |].
  cbn [select_bits count_char] in *.
  destruct (Ascii.eqb p c); [discriminate |]. now apply IH.
Qed.

Lemma select_bits_run_of (c : ascii) (k : nat) :
  forall bits, length bits = k -> select_bits c (run_of c k) bits = bits.
Proof.
  induction k as [| k IH]; intros bits Hlen.
  - now destruct bits.
  - destruct bits as [| b bits]; [discriminate |].
    cbn [run_of select_bits]. rewrite Ascii.eqb_refl, IH; [reflexivity |].
    cbn in Hlen. lia.
Qed.

(** X24.  A field whose character fills [k >= 1] consecutive positions
    of the template, and occurs nowhere else, receives the [k] bits of the
    instruction word found at these positions: with [post] the part of
    the template to the right of the field, the value is
    [(word / 2^len(post)) mod 2^k], the word being the buffer read in the
    byte order of the machine. *)
Theorem contiguous_field_value (self : IsaDefinition) (ifunc : method)
    (instr : list byte) (flds : namespace) (pre post : string) (c : ascii) (k : nat) :
  _pattern_match self ifunc instr = Ok (Some flds) ->
  _extract_pattern self ifunc = Ok (pre +:+ run_of c k +:+ post) ->
  occurs c pre = false ->
  occurs c post = false ->
  (0 < k)%nat ->
  flds !! String c ""
  = Some ((from_bytes (endian self) instr / 2 ^ Z.of_nat (String.length post))
          mod 2 ^ Z.of_nat k).
Proof.
  intros Hpm Hpat Hpre Hpost Hk.
  destruct (pattern_match_inv _ _ _ _ Hpm) as (Hlen & pattern' & Hpat' & Hm).
  rewrite Hpat in Hpat'. injection Hpat' as <-.
  destruct (instr_bits_shape self instr) as [Hbits Hl].
  pose proof (extract_pattern_length _ _ _ Hpat) as Hpl.
  assert (String.length (pre +:+ run_of c k +:+ post) = length (instr_bits self instr))
    as Hlp by (rewrite Hl; exact Hpl).
  rewrite (match_bits_fields _ _ _ Hbits Hlp Hm c).
  assert (occurs c (pre +:+ run_of c k +:+ post) = true) as ->.
  { unfold occurs. rewrite !count_char_app.
    destruct k as [| k]; [lia |]. cbn [run_of count_char].
    rewrite Ascii.eqb_refl. apply negb_true_iff, Nat.eqb_neq. lia. }
  f_equal. unfold instr_bits.
  rewrite !length_append, length_run_of in Hpl. rewrite <- Hpl.
  set (w := from_bytes (endian self) instr).
  rewrite (bits_of_app w (String.length pre) (k + String.length post)).
  rewrite (bits_of_app w k (String.length post)).
  rewrite select_bits_app by (now rewrite length_bits_of).
  rewrite select_bits_app by (now rewrite length_bits_of, length_run_of).
  rewrite (select_bits_absent c pre) by exact Hpre.
  rewrite (select_bits_absent c post) by exact Hpost.
  rewrite select_bits_run_of by apply length_bits_of.
  cbn [app]. rewrite app_nil_r.
  unfold msb_value. rewrite msb_value_bits_of. lia.
Qed.

Lemma contiguous_field_value_witness :
  exists flds,
    _pattern_match Mips_isa (instruction_addi sign_extend) [x21; x09; xff; xfe]
    = Ok (Some flds) /\
    flds !! "t" = Some ((from_bytes big [x21; x09; xff; xfe] / 2 ^ 16) mod 2 ^ 5) /\
    flds !! "t" = Some 9.
Proof.
  pose (flds := match _pattern_match Mips_isa (instruction_addi sign_extend)
                        [x21; x09; xff; xfe] with
                | Ok (Some flds) => flds
                | _ => ∅
                end).
  assert (_pattern_match Mips_isa (instruction_addi sign_extend) [x21; x09; xff; xfe]
          = Ok (Some flds)) as Hpm by (vm_compute; reflexivity).
  exists flds. split; [exact Hpm |]. split; [| vm_compute; reflexivity].
  exact (contiguous_field_value Mips_isa (instruction_addi sign_extend)
           [x21; x09; xff; xfe] flds "001000sssss" "iiiiiiiiiiiiiiii" "t" 5
           Hpm ltac:(vm_compute; reflexivity) eq_refl eq_refl ltac:(lia)).
Defined.

(** X25.  In every MIPS state whose register list is the one the
    constructor built, [registers] never raises and yields 35 triples:
    the 32 entries of [R] in index order under their names [$0], [$at],
    ..., [$ra], then [PC], [HI] and [LO], all with bit width 32 and their
    current values. *)
Theorem Mips_registers_view (m : machine) (d : gmap Z Z) (pc : Z) (hi lo : value) :
  Mips_state m d pc ->
  _reg_list m = _reg_list Mips_registers ->
  attrs m !! "HI" = Some hi ->
  attrs m !! "LO" = Some lo ->
  registers m = Ok (Mips_view d pc hi lo) /\
  length (Mips_view d pc hi lo) = 35%nat.
Proof.
  intros (HR & HPC & Hall) Hlist Hhi Hlo. split; [| reflexivity].
  unfold registers. rewrite Hlist.
  change (_reg_list Mips_registers)
    with [FileEntry "R" 32 32 mips_rnames; RegEntry "PC" 32; RegEntry "HI" 32;
          RegEntry "LO" 32].
  cbn [rmapM registers_of_entry]. unfold getattr at 2 3 4.
  rewrite HPC, Hhi, Hlo.
  rewrite (rmapM_ok _ (fun i => (default "" (mips_rnames !! i), 32,
                                 VInt (default 0 (d !! i))))).
  - reflexivity.
  - intros i Hi. apply py_range_elem in Hi.
    assert (overrides_cover [DeclFile "R" 32 32 (Some mips_rnames)] = true) as Hcov
      by (vm_compute; reflexivity).
    rewrite (overrides_cover_lookup _ "R" 32 32 mips_rnames i Hcov ltac:(left) Hi).
    unfold getattr. rewrite HR. cbn [rbind subscript].
    destruct (Hall i Hi) as [x Hx]. rewrite Hx. reflexivity.
Qed.

Lemma Mips_registers_view_witness :
  registers (Mips_with_program [x21; x08; x00; x04])
  = Ok (Mips_view (dict_of_range 32 (fun _ => 0)) 0 (VInt 0) (VInt 0)).
Proof.
  exact (proj1 (Mips_registers_view (Mips_with_program [x21; x08; x00; x04]) _ 0
                  (VInt 0) (VInt 0) (Mips_with_program_state _)
                  eq_refl eq_refl eq_refl)).
Defined.

(** ** Operand errors of the disassembler *)

Lemma format_parts_raise (ifield : namespace) (ops : list (sigil * ascii * Z))
    (bad : string) (rest : list string) (e : exn) :
  Forall (fun o => ifield !! String (snd (fst o)) "" = Some (snd o)) ops ->
  (forall i, format_part ifield (S i) bad = Raise e) ->
  forall i,
    format_parts ifield (S i)
      (((fun o => operand_token (fst (fst o)) (snd (fst o))) <$> ops) ++ bad :: rest)
    = Raise e.
Proof.
  intros Hops Hbad.
  induction Hops as [| [[s c] v] ops Hv _ IH]; intros i.
  - cbn [fmap list_fmap app format_parts]. now rewrite Hbad.
  - cbn [fmap list_fmap app format_parts fst snd] in *.
    rewrite (format_part_operand _ _ _ _ _ Hv). cbn [rbind].
    fold (@fmap list _ _ _ (fun o : sigil * ascii * Z =>
                              operand_token (fst (fst o)) (snd (fst o))) ops).
    rewrite IH. reflexivity.
Qed.

Lemma format_part_sigil (ifield : namespace) (i : nat) (s : sigil) (name : string) :
  format_part ifield (S i) (String (sigil_char s) name)
  = (if negb (String.length name =? 1)%nat then Raise AssertionError
     else match ifield !! name with
          | Some v => Ok (render s v)
          | None => Raise AttributeError
          end).
Proof.
  unfold format_part, operand_field, field. cbn [Nat.eqb tail_from_1].
  destruct s; cbn [sigil_char];
    destruct name as [| c name]; cbn; try reflexivity;
    destruct (String.length name =? 0)%nat; cbn; try reflexivity;
    destruct (ifield !! String c name); reflexivity.
Qed.

(** X26.  The operand errors of [_format_asm].  After a mnemonic and
    operands that refer to fields of the field set, a token that starts
    with one of the three sigils but is not followed by exactly one
    character raises AssertionError, and one that names a field the field
    set lacks raises AttributeError; the tokens after it are not looked
    at.  The first token is copied as it is, whatever it starts with, and
    a template without any token gives the empty string. *)
Theorem format_asm_operand_errors (asm_pattern : string) (ifield : namespace)
    (mnemonic : string) (ops : list (sigil * ascii * Z)) (s : sigil) (name : string)
    (rest : list string) :
  Forall (fun o => ifield !! String (snd (fst o)) "" = Some (snd o)) ops ->
  (py_split asm_pattern
   = mnemonic :: (((fun o => operand_token (fst (fst o)) (snd (fst o))) <$> ops)
                    ++ String (sigil_char s) name :: rest) ->
   (String.length name <> 1%nat ->
    _format_asm asm_pattern ifield = Raise AssertionError) /\
   (String.length name = 1%nat -> ifield !! name = None ->
    _format_asm asm_pattern ifield = Raise AttributeError)) /\
  (py_split asm_pattern = [mnemonic] -> _format_asm asm_pattern ifield = Ok mnemonic) /\
  (py_split asm_pattern = [] -> _format_asm asm_pattern ifield = Ok "").
Proof.
  intros Hops. split; [| split].
  - intros Htok. split.
    + intros Hlen. unfold _format_asm. rewrite Htok.
      cbn [format_parts format_part Nat.eqb rbind].
      rewrite (format_parts_raise _ _ _ _ AssertionError Hops); [reflexivity |].
      intros i. rewrite format_part_sigil.
      apply Nat.eqb_neq in Hlen. now rewrite Hlen.
    + intros Hlen Hnone. unfold _format_asm. rewrite Htok.
      cbn [format_parts format_part Nat.eqb rbind].
      rewrite (format_parts_raise _ _ _ _ AttributeError Hops); [reflexivity |].
      intros i. rewrite format_part_sigil, Hlen, Hnone. reflexivity.
  - intros Htok. unfold _format_asm. rewrite Htok. cbn. reflexivity.
  - intros Htok. unfold _format_asm. rewrite Htok. reflexivity.
Qed.

Lemma format_asm_operand_errors_witness :
  let ifield : namespace := <["s" := 8]> (<["t" := 9]> ∅) in
  _format_asm "addi $t $rs !i" ifield = Raise AssertionError /\
  _format_asm "addi $t $s !i" ifield = Raise AttributeError /\
  _format_asm "$t" ifield = Ok "$t".
Proof.
  intros ifield.
  assert (Forall (fun o : sigil * ascii * Z =>
                    ifield !! String (snd (fst o)) "" = Some (snd o))
            [(SRegister, "t"%char, 9)]) as H1 by (repeat constructor).
  assert (Forall (fun o : sigil * ascii * Z =>
                    ifield !! String (snd (fst o)) "" = Some (snd o))
            [(SRegister, "t"%char, 9); (SRegister, "s"%char, 8)]) as H2
    by (repeat constructor).
  split; [| split].
  - apply (proj1 (proj1 (format_asm_operand_errors "addi $t $rs !i" ifield "addi"
                           _ SRegister "rs" ["!i"] H1)
                    ltac:(vm_compute; reflexivity))).
    cbn. lia.
  - apply (proj2 (proj1 (format_asm_operand_errors "addi $t $s !i" ifield "addi"
                           _ SImmediate "i" [] H2)
                    ltac:(vm_compute; reflexivity))).
    + reflexivity.
    + reflexivity.
  - apply (proj1 (proj2 (format_asm_operand_errors "$t" ifield "$t" [] SRegister "" []
                           ltac:(constructor)))).
    vm_compute. reflexivity.
Defined.
